(** * MavensMate project synchroniser: a shallow embedding of
  [lib/mavensmate/project.js] and the properties of its specification.

  The file follows the source: JavaScript strings are [string], objects
  used as maps are [gmap], the disk is a finite map from paths to entries,
  and a promise-returning method is a computation over the world (disk,
  log of disk calls, project object) that resolves or rejects. *)

From Stdlib Require Import String Ascii ZArith List Lia.
From stdpp Require Import base option list strings gmap.

Local Open Scope string_scope.
Local Open Scope list_scope.
Local Open Scope Z_scope.

(** ** JavaScript strings *)

Module Js.

(** [hay.indexOf(needle)]: index of the first occurrence, or [-1]. *)
Fixpoint indexOf_from (needle hay : string) (i : Z) : Z :=
  if String.prefix needle hay then i
  else match hay with
       | EmptyString => -1
       | String _ rest => indexOf_from needle rest (i + 1)
       end.

Definition indexOf (hay needle : string) : Z := indexOf_from needle hay 0.

(** The idiom [hay.indexOf(needle) >= 0]. *)
Definition mentions (hay needle : string) : bool := 0 <=? indexOf hay needle.

(** The idiom [hay.indexOf(needle) === -1]. *)
Definition lacks (hay needle : string) : bool := indexOf hay needle =? -1.

(** String coercion of a possibly absent property in [a + '.' + b]. *)
Definition toStr (o : option string) : string := default "undefined" o.

(** A value is truthy when it is defined and not the empty string. *)
Definition truthy (o : option string) : bool :=
  match o with
  | Some s => negb (String.eqb s "")
  | None => false
  end.

(** [s.split(c)] for a one-character separator. *)
Fixpoint split (c : ascii) (s : string) : list string :=
  match s with
  | EmptyString => [EmptyString]
  | String a rest =>
      if Ascii.eqb a c then EmptyString :: split c rest
      else match split c rest with
           | [] => [String a EmptyString]
           | w :: ws => String a w :: ws
           end
  end.

(** [s.replace(/c/, r)]: only the first occurrence is replaced. *)
Fixpoint replaceFirstChar (c : ascii) (r : string) (s : string) : string :=
  match s with
  | EmptyString => EmptyString
  | String a rest =>
      if Ascii.eqb a c then r +:+ rest
      else String a (replaceFirstChar c r rest)
  end.

(** [arr.join(sep)]; an undefined element is printed as the empty string. *)
Fixpoint join (sep : string) (l : list (option string)) : string :=
  match l with
  | [] => ""
  | [x] => default "" x
  | x :: rest => default "" x +:+ sep +:+ join sep rest
  end.

(** The values of a list of arguments, if none is undefined. *)
Fixpoint defined {A} (l : list (option A)) : option (list A) :=
  match l with
  | [] => Some []
  | Some a :: l' =>
      match defined l' with
      | Some r => Some (a :: r)
      | None => None
      end
  | None :: _ => None
  end.

(** Whether a character occurs in a string. *)
Fixpoint hasChar (c : ascii) (s : string) : bool :=
  match s with
  | EmptyString => false
  | String a rest => Ascii.eqb a c || hasChar c rest
  end.

(** [pat] at the front of [hay]: what follows it. *)
Fixpoint afterPrefix (pat hay : string) : option string :=
  match pat, hay with
  | EmptyString, _ => Some hay
  | String _ _, EmptyString => None
  | String a pat', String b hay' => if Ascii.eqb a b then afterPrefix pat' hay' else None
  end.

(** The replacement text of [String.prototype.replace]: [$$] is a dollar
    sign, [$&] the matched text, [$`] what is before the match and [$'] what
    is after it. A string pattern has no captures, so [$1] to [$99] stand
    for themselves, as does any other [$]. *)
Fixpoint substitution (matched before after rep : string) : string :=
  match rep with
  | EmptyString => EmptyString
  | String c rest =>
      if Ascii.eqb c "$" then
        match rest with
        | EmptyString => String c EmptyString
        | String c' rest' =>
            if Ascii.eqb c' "$" then String c (substitution matched before after rest')
            else if Ascii.eqb c' "&" then matched +:+ substitution matched before after rest'
            else if Ascii.eqb c' "`" then before +:+ substitution matched before after rest'
            else if Ascii.eqb c' "'" then after +:+ substitution matched before after rest'
            else String c (substitution matched before after rest)
        end
      else String c (substitution matched before after rest)
  end.

(** [hay.replace(pat, rep)] with a string pattern: the first occurrence of
    [pat] is replaced by what [rep] stands for, and nothing changes without
    one. [before] is what of the string lies before [hay]. *)
Fixpoint replaceFrom (pat rep before hay : string) : string :=
  match afterPrefix pat hay with
  | Some after => before +:+ substitution pat before after rep +:+ after
  | None =>
      match hay with
      | EmptyString => before
      | String c rest => replaceFrom pat rep (before +:+ String c EmptyString) rest
      end
  end.

Definition replace (hay pat rep : string) : string := replaceFrom pat rep "" hay.

(** A replacement text without [$] stands for itself. *)
Definition literal (rep : string) : bool := negb (hasChar "$" rep).

End Js.

(** ** Errors and results *)

Record Error := mkError { message : string }.

Inductive result (A : Type) :=
| Return (a : A)
| Throw (e : Error).
Arguments Return {A} a.
Arguments Throw {A} e.

(** ** Data model *)

(** A file property as returned by a retrieve or by an API query. The three
    shapes the source sniffs differ in which fields are present, so every
    field is optional. *)
Module FileProperty.

Record Attributes := mkAttributes { attr_type : option string }.

Record User := mkUser { user_name : option string }.

Record t := mk {
  type : option string;
  attributes : option Attributes;
  name : option string;
  fullName : option string;
  fileName : option string;
  createdBy : option User;
  lastModifiedBy : option User;
  createdByName : option string;
  lastModifiedByName : option string;
  manageableState : option string;
  namespacePrefix : option string;
  mmState : option string;
  (* id, createdDate, lastModifiedDate, ...: carried along untouched *)
  others : list (string * string)
}.

Definition set_mmState (v : string) (fp : t) : t :=
  mk (type fp) (attributes fp) (name fp) (fullName fp) (fileName fp)
     (createdBy fp) (lastModifiedBy fp) (createdByName fp)
     (lastModifiedByName fp) (manageableState fp) (namespacePrefix fp)
     (Some v) (others fp).

End FileProperty.

(** The local store: a JavaScript object keyed by [fullName.suffix]. *)
Abbreviation LocalStore := (gmap string FileProperty.t).

(** A metadata type of the registry (the describe result). *)
Record MetadataType := mkMetadataType {
  xmlName : string;
  suffix : option string;
  directoryName : option string;
  tagName : option string;
  inFolder : bool;
  parentXmlName : option string;
  childXmlNames : option (list string)
}.

(** The type registry, [lib/mavensmate/metadata.js], is a collaborator: its
    two lookups are taken as they are. [getTypeByPath] may be handed an
    undefined argument. *)
Record MetadataHelper := mkMetadataHelper {
  getTypeByXmlName : string → option MetadataType;
  getTypeByPath : option string → option MetadataType
}.

(** ** The disk *)

Module Fs.

(** An absolute path is the list of its segments; [path.join] appends,
    [path.dirname] drops the last segment and [path.basename] returns it. *)
Abbreviation path := (list string).

(** The bytes of a file. A file that holds a JSON document is represented by
    the document ([JSON.stringify] and [JSON.parse] are inverse on it); any
    other text is [Raw], and parsing it fails. *)
Inductive content :=
| Raw (bytes : string)
| Json (doc : LocalStore).

Inductive entry :=
| Dir
| File (c : content).

Abbreviation disk := (gmap path entry).

Definition isFile (e : entry) : bool :=
  match e with
  | File _ => true
  | Dir => false
  end.

Definition join (p : path) (segs : list string) : path := p ++ segs.
Definition dirname (p : path) : path := removelast p.
Definition basename (p : path) : string := List.last p "".

Definition show (p : path) : string :=
  "/" +:+ Js.join "/" (Some <$> p).

(** The text of a relative path, each segment after a slash. *)
Fixpoint below (rel : list string) : string :=
  match rel with
  | [] => ""
  | seg :: rest => "/" +:+ seg +:+ below rest
  end.

(** A name a directory entry can have. *)
Definition segment (s : string) : bool :=
  negb (String.eqb s "") && negb (String.eqb s ".") && negb (String.eqb s "..")
  && negb (Js.hasChar "/" s).

(** A path of such names. *)
Definition proper (p : list string) : Prop := Forall (λ s, segment s = true) p.

(** The path a text names, as the operating system resolves it: an empty
    segment and [.] are skipped, [..] goes up. *)
Definition resolve (p : path) (seg : string) : path :=
  if String.eqb seg "" || String.eqb seg "." then p
  else if String.eqb seg ".." then removelast p
  else p ++ [seg].

Definition ofText (text : string) : path := foldl resolve [] (Js.split "/" text).

Definition ENOENT (p : path) : Error :=
  mkError ("ENOENT, no such file or directory '" +:+ show p +:+ "'").
Definition EEXIST (p : path) : Error :=
  mkError ("EEXIST, file already exists '" +:+ show p +:+ "'").
Definition ENOTDIR (p : path) : Error :=
  mkError ("ENOTDIR, not a directory '" +:+ show p +:+ "'").
Definition EISDIR (p : path) : Error :=
  mkError ("EISDIR, illegal operation on a directory '" +:+ show p +:+ "'").

Definition existsSync (d : disk) (p : path) : bool :=
  bool_decide (is_Some (d !! p)).

(** [fs.mkdirSync]: one level, the parent must be a directory. *)
Definition mkdirSync (p : path) (d : disk) : result disk :=
  match d !! p with
  | Some _ => Throw (EEXIST p)
  | None =>
      match d !! dirname p with
      | Some Dir => Return (<[p := Dir]> d)
      | Some (File _) => Throw (ENOTDIR p)
      | None => Throw (ENOENT p)
      end
  end.

(** [fs.mkdirpSync] and [fs.ensureDirSync]: the directory and every missing
    ancestor; a regular file on the way is an error. *)
Fixpoint mkdirs_from (base : path) (rest : list string) (d : disk) : result disk :=
  match d !! base with
  | Some (File _) => Throw (EEXIST base)
  | _ =>
      let d' := <[base := Dir]> d in
      match rest with
      | [] => Return d'
      | s :: rest' => mkdirs_from (base ++ [s]) rest' d'
      end
  end.

Definition mkdirpSync (p : path) (d : disk) : result disk := mkdirs_from [] p d.

(** The directories [mkdirpSync] goes through: the path and what is above. *)
Fixpoint ancestors_from (base : path) (rest : list string) : list path :=
  base :: match rest with
          | [] => []
          | s :: rest' => ancestors_from (base ++ [s]) rest'
          end.

Definition ancestors (p : path) : list path := ancestors_from [] p.

(** [fs.removeSync]: the entry and everything below it; a missing entry is
    not an error. *)
Definition removeSync (p : path) (d : disk) : disk :=
  filter (λ kv, ¬ p `prefix_of` kv.1) d.

(** The entries at and below [src], re-rooted at [dst]. *)
Definition rerooted (src dst : path) (d : disk) : list (path * entry) :=
  (λ kv, (dst ++ drop (length src) kv.1, kv.2)) <$>
    map_to_list (filter (λ kv, src `prefix_of` kv.1) d).

(** [fs.copySync]: a file is copied over its destination, a directory with
    all it holds; missing parent directories of the destination are made. *)
Definition copySync (src dst : path) (d : disk) : result disk :=
  match d !! src with
  | None => Throw (ENOENT src)
  | Some (File c) =>
      match mkdirpSync (dirname dst) d with
      | Throw e => Throw e
      | Return d' =>
          match d' !! dst with
          | Some Dir => Throw (EISDIR dst)
          | _ => Return (<[dst := File c]> d')
          end
      end
  | Some Dir =>
      match mkdirpSync dst d with
      | Throw e => Throw e
      | Return d' => Return (list_to_map (rerooted src dst d) ∪ d')
      end
  end.

(** [fs.renameSync]: the entry moves with all it holds. *)
Definition renameSync (src dst : path) (d : disk) : result disk :=
  match d !! src with
  | None => Throw (ENOENT src)
  | Some _ =>
      match d !! dirname dst with
      | Some Dir => Return (list_to_map (rerooted src dst d) ∪ removeSync src d)
      | Some (File _) => Throw (ENOTDIR dst)
      | None => Throw (ENOENT dst)
      end
  end.

(** [fs.outputFile]: writes the file, making its directory first. *)
Definition outputFile (p : path) (c : content) (d : disk) : result disk :=
  match d !! p with
  | Some Dir => Throw (EISDIR p)
  | Some (File _) => Return (<[p := File c]> d)
  | None =>
      match mkdirpSync (dirname p) d with
      | Throw e => Throw e
      | Return d' => Return (<[p := File c]> d')
      end
  end.

(** Whether [fs.outputFile] can write at a path. *)
Definition writable (p : path) (d : disk) : bool :=
  match outputFile p (Raw "") d with
  | Return _ => true
  | Throw _ => false
  end.

(** The regular files below a root, as [findit] reports them. *)
Definition filesUnder (root : path) (d : disk) : list path :=
  (map_to_list (filter (λ kv, root `prefix_of` kv.1 ∧ isFile kv.2 = true) d)).*1.

(** The mutating calls, as they are logged. *)
Inductive call :=
| MkdirSync (p : path)
| MkdirpSync (p : path)
| RemoveSync (p : path)
| CopySync (src dst : path)
| RenameSync (src dst : path)
| OutputFile (p : path).

#[global] Instance call_eq_dec : EqDecision call.
Proof. solve_decision. Defined.

End Fs.

(** ** The project object and the world it runs in *)

Inductive Uuid := V1 (timestamp : nat).

(** The describe snapshot of the org, as its JSON text. *)
Record Describe := mkDescribe { describe_json : string }.

(** What [config.get('mm_workspace')] may hold. *)
Inductive WorkspaceSetting :=
| WsArray (l : list Fs.path)
| WsString (p : Fs.path)
| WsOther.

(** A node of the org metadata index ([config/.org_metadata]). Every
    property is optional, as in the JSON file. *)
#[local] Unset Elimination Schemes.
Inductive IndexNode := mkNode {
  node_id : option string;
  node_xmlName : option string;
  node_select : option bool;
  node_visibility : option bool;
  node_children : option (list IndexNode)
}.
#[local] Set Elimination Schemes.

Module Project.

(** The fields of a [Project] instance that the modelled methods read or
    assign. An undefined or empty [workspace] is [None]; a [path] that was
    never assigned is [null] (line 47), which is what [None] stands for. *)
Record t := mk {
  path : option Fs.path;
  workspace : option Fs.path;
  name : option string;
  origin : Fs.path;
  id : option Uuid;
  valid : option bool;
  package : option (list string);
  _describe : option Describe
}.

Definition with_path (v : option Fs.path) (s : t) : t :=
  mk v (workspace s) (name s) (origin s) (id s) (valid s) (package s) (_describe s).
Definition with_workspace (v : option Fs.path) (s : t) : t :=
  mk (path s) v (name s) (origin s) (id s) (valid s) (package s) (_describe s).
Definition with_name (v : option string) (s : t) : t :=
  mk (path s) (workspace s) v (origin s) (id s) (valid s) (package s) (_describe s).
Definition with_id (v : option Uuid) (s : t) : t :=
  mk (path s) (workspace s) (name s) (origin s) v (valid s) (package s) (_describe s).
Definition with_valid (v : option bool) (s : t) : t :=
  mk (path s) (workspace s) (name s) (origin s) (id s) v (package s) (_describe s).
Definition with_package (v : option (list string)) (s : t) : t :=
  mk (path s) (workspace s) (name s) (origin s) (id s) (valid s) v (_describe s).
Definition with_describe (v : option Describe) (s : t) : t :=
  mk (path s) (workspace s) (name s) (origin s) (id s) (valid s) (package s) v.

(** The world: the disk, the log of the mutating disk calls the project
    made, the project object, and the clock [uuid.v1] reads. *)
Record World := mkWorld {
  disk : Fs.disk;
  calls : list Fs.call;
  self : t;
  clock : nat
}.

Definition with_disk (d : Fs.disk) (w : World) : World :=
  mkWorld d (calls w) (self w) (clock w).
Definition with_self (s : t) (w : World) : World :=
  mkWorld (disk w) (calls w) s (clock w).
Definition logged (c : Fs.call) (w : World) : World :=
  mkWorld (disk w) (calls w ++ [c]) (self w) (clock w).

(** A computation threads the world and either returns or throws; for a
    promise, returning is resolving and throwing is rejecting. *)
Definition M (A : Type) : Type := World → World * result A.

#[global] Instance M_ret : MRet M := λ A a w, (w, Return a).

#[global] Instance M_bind : MBind M := λ A B f m w,
  match m w with
  | (w', Return a) => f a w'
  | (w', Throw e) => (w', Throw e)
  end.

Definition throw {A} (e : Error) : M A := λ w, (w, Throw e).

(** [.catch(handler)] *)
Definition catch {A} (m : M A) (handler : Error → M A) : M A := λ w,
  match m w with
  | (w', Return a) => (w', Return a)
  | (w', Throw e) => handler e w'
  end.

(** A chain [.then(step1).then(step2)...]: the steps run in order and the
    first that rejects ends the chain. *)
Fixpoint chain (steps : list (M unit)) : M unit :=
  match steps with
  | [] => mret tt
  | step :: rest => step;; chain rest
  end.

Definition getSelf : M t := λ w, (w, Return (self w)).
Definition modifySelf (f : t → t) : M unit := λ w, (with_self (f (self w)) w, Return tt).
Definition getDisk : M Fs.disk := λ w, (w, Return (disk w)).

(** A mutating disk call of the project: logged, then run. *)
Definition fsCall (c : Fs.call) (f : Fs.disk → result Fs.disk) : M unit := λ w,
  let w' := logged c w in
  match f (disk w') with
  | Return d => (with_disk d w', Return tt)
  | Throw e => (w', Throw e)
  end.

Definition existsSync (p : Fs.path) : M bool := λ w, (w, Return (Fs.existsSync (disk w) p)).
Definition mkdirSync (p : Fs.path) : M unit := fsCall (Fs.MkdirSync p) (Fs.mkdirSync p).
Definition mkdirpSync (p : Fs.path) : M unit := fsCall (Fs.MkdirpSync p) (Fs.mkdirpSync p).
Definition removeSync (p : Fs.path) : M unit :=
  fsCall (Fs.RemoveSync p) (λ d, Return (Fs.removeSync p d)).
Definition copySync (src dst : Fs.path) : M unit :=
  fsCall (Fs.CopySync src dst) (Fs.copySync src dst).
Definition renameSync (src dst : Fs.path) : M unit :=
  fsCall (Fs.RenameSync src dst) (Fs.renameSync src dst).
Definition outputFile (p : Fs.path) (c : Fs.content) : M unit :=
  fsCall (Fs.OutputFile p) (Fs.outputFile p c).

(** A collaborator (network client, package descriptor, indexing services)
    may change the disk and may fail; it never touches the project object
    or the project's own log. *)
Definition External (A : Type) : Type := Fs.disk → Fs.disk * result A.

Definition call {A} (x : External A) : M A := λ w,
  let (d, r) := x (disk w) in (with_disk d w, r).

(** [path.join] throws on an undefined argument. *)
Definition joinError : Error := mkError "Arguments to path.join must be strings".

Definition pathJoin (base : option Fs.path) (segs : list (option string)) : M Fs.path :=
  match base, Js.defined segs with
  | Some p, Some segs' => mret (Fs.join p segs')
  | _, _ => throw joinError
  end.

(** [fs.existsSync] of a possibly undefined path. *)
Definition existsSync' (p : option Fs.path) : M bool :=
  match p with
  | Some p => existsSync p
  | None => mret false
  end.

(** [uuid.v1()] *)
Definition uuid_v1 : M Uuid := λ w,
  (mkWorld (disk w) (calls w) (self w) (S (clock w)), Return (V1 (clock w))).


(** *** The local store *)

(** [_.each] over an array with a body that may throw. *)
Fixpoint each {A S : Type} (body : S → A → result S) (l : list A) (s : S) : result S :=
  match l with
  | [] => Return s
  | a :: l' =>
      match body s a with
      | Return s' => each body l' s'
      | Throw e => Throw e
      end
  end.

Definition TypeError (what : string) : Error :=
  mkError ("Cannot read property '" +:+ what +:+ "' of undefined").

(** [o.prop] where [o] may be undefined. *)
Definition deref {A B} (what : string) (o : option A) (k : A → result B) : result B :=
  match o with
  | Some a => k a
  | None => Throw (TypeError what)
  end.

Definition liftResult {A} (r : result A) : M A := λ w, (w, r).

Section LocalStore.

Context (metadataHelper : MetadataHelper).

(** The message of the [SyntaxError] the JavaScript engine raises on a text
    that is not JSON. *)
Context (syntaxErrorMessage : string → string).

(** [lib/mavensmate/utilities/normalize-object.js], a collaborator. *)
Context (normalize : FileProperty.t → FileProperty.t).

(** [fs.readJsonSync] *)
Definition readJsonSync (p : Fs.path) : M LocalStore := λ w,
  match disk w !! p with
  | None => (w, Throw (Fs.ENOENT p))
  | Some Fs.Dir => (w, Throw (Fs.EISDIR p))
  | Some (Fs.File (Fs.Raw text)) => (w, Throw (mkError (syntaxErrorMessage text)))
  | Some (Fs.File (Fs.Json doc)) => (w, Return doc)
  end.

Definition getLocalStore : M LocalStore :=
  s ← getSelf;
  file ← pathJoin (path s) [Some "config"; Some ".local_store"];
  catch (readJsonSync file) (λ e,
    if Js.mentions (message e) "Unexpected end of input" then mret ∅
    else throw e).

(** The body of the loop of [_writeLocalStore]. *)
Definition writeEntry (store : LocalStore) (fp : FileProperty.t) : result LocalStore :=
  let metadataType := getTypeByPath metadataHelper (FileProperty.fileName fp) in
  match metadataType with
  | Some mt =>
      deref "indexOf" (FileProperty.fullName fp) (λ fullName,
        if Js.lacks fullName "package.xml" then
          let key := fullName +:+ "." +:+ Js.toStr (suffix mt) in
          let value := FileProperty.set_mmState "clean" fp in
          Return (<[key := value]> store)
        else Return store)
  | None =>
      (* only a diagnostic is logged *)
      deref "indexOf" (FileProperty.fullName fp) (λ _, Return store)
  end.

Definition _writeLocalStore (fileProperties : list FileProperty.t) : M unit :=
  store ← liftResult (each writeEntry fileProperties ∅);
  s ← getSelf;
  filePath ← pathJoin (path s) [Some "config"; Some ".local_store"];
  catch (outputFile filePath (Fs.Json store)) (λ err,
    throw (mkError ("Could not write local store: " +:+ message err))).

(** The second shape: an API-query record, rewritten in place into the
    canonical one. *)
Definition fromQueryRecord (mt : MetadataType) (fp : FileProperty.t) : result FileProperty.t :=
  let fileName :=
    Js.join "/" [Some "unpackaged"; directoryName mt;
                 Some (Js.toStr (FileProperty.name fp) +:+ "." +:+ Js.toStr (suffix mt))] in
  deref "name" (FileProperty.createdBy fp) (λ createdBy,
  deref "name" (FileProperty.lastModifiedBy fp) (λ lastModifiedBy,
    Return (FileProperty.mk
      (Some (xmlName mt))
      None
      (FileProperty.name fp)
      (FileProperty.name fp)
      (Some fileName)
      None
      None
      (FileProperty.user_name createdBy)
      (FileProperty.user_name lastModifiedBy)
      (Some (if Js.truthy (FileProperty.namespacePrefix fp) then "managed" else "unmanaged"))
      (FileProperty.namespacePrefix fp)
      (FileProperty.mmState fp)
      (FileProperty.others fp)))).

Definition queryType (fp : FileProperty.t) : option string :=
  match FileProperty.attributes fp with
  | Some a => if Js.truthy (FileProperty.attr_type a) then FileProperty.attr_type a else None
  | None => None
  end.

(** The first half of the loop body of [updateLocalStore]: the record in
    its canonical shape, with its metadata type when one is found. *)
Definition resolveType (fp0 : FileProperty.t) : result (FileProperty.t * option MetadataType) :=
  let fp := if FileProperty.attributes fp0 is Some _ then normalize fp0 else fp0 in
  if Js.truthy (FileProperty.type fp) then
    Return (fp, getTypeByXmlName metadataHelper (Js.toStr (FileProperty.type fp)))
  else
    match queryType fp with
    | Some ty =>
        deref "directoryName" (getTypeByXmlName metadataHelper ty) (λ mt,
          match fromQueryRecord mt fp with
          | Return fp' => Return (fp', Some mt)
          | Throw e => Throw e
          end)
    | None =>
        deref "split" (FileProperty.fileName fp) (λ fileName,
          Return (fp, getTypeByPath metadataHelper (Js.split "." fileName !! 1%nat)))
    end.

(** The key under which the second half stores the record, if it does. *)
Definition entryKey (fp : FileProperty.t) (metadataType : option MetadataType) : result (option string) :=
  match metadataType, FileProperty.attributes fp with
  | Some mt, Some _ =>
      Return (Some (Js.toStr (FileProperty.name fp) +:+ "." +:+ Js.toStr (suffix mt)))
  | Some mt, None =>
      deref "indexOf" (FileProperty.fullName fp) (λ fullName,
        if Js.lacks fullName "package.xml"
        then Return (Some (fullName +:+ "." +:+ Js.toStr (suffix mt)))
        else Return None)
  | None, _ =>
      deref "indexOf" (FileProperty.fullName fp) (λ _, Return None)
  end.

(** The body of the loop of [updateLocalStore]. *)
Definition updateEntry (store : LocalStore) (fp0 : FileProperty.t) : result LocalStore :=
  match resolveType fp0 with
  | Throw e => Throw e
  | Return (fp, metadataType) =>
      match entryKey fp metadataType with
      | Throw e => Throw e
      | Return (Some key) => Return (<[key := FileProperty.set_mmState "clean" fp]> store)
      | Return None => Return store
      end
  end.

(** The objects of the array are the caller's, and the loop assigns to
    them: [value] is [fp], so [value.mmState = 'clean'] stamps the object,
    and a query record is rewritten in place. The loop works on the object
    it was handed unless [normalize] gave it another; [normalizeLeaves]
    tells what [normalize] leaves of its argument when it returns another
    object, and is [None] when it rewrites its argument and returns it. *)
Context (normalizeLeaves : FileProperty.t → option FileProperty.t).

(** What a round of the loop of [updateLocalStore] leaves of the object
    [fp0] of the array. *)
Definition afterUpdate (fp0 : FileProperty.t) : result FileProperty.t :=
  match resolveType fp0 with
  | Throw e => Throw e
  | Return (fp, metadataType) =>
      match entryKey fp metadataType with
      | Throw e => Throw e
      | Return key =>
          let worked := if key is Some _ then FileProperty.set_mmState "clean" fp else fp in
          Return (match FileProperty.attributes fp0, normalizeLeaves fp0 with
                  | Some _, Some kept => kept
                  | _, _ => worked
                  end)
      end
  end.

(** The array after the loop, when no round threw. *)
Fixpoint afterLoop (fileProperties : list FileProperty.t) : result (list FileProperty.t) :=
  match fileProperties with
  | [] => Return []
  | fp :: rest =>
      match afterUpdate fp with
      | Throw e => Throw e
      | Return fp' =>
          match afterLoop rest with
          | Throw e => Throw e
          | Return rest' => Return (fp' :: rest')
          end
      end
  end.

Definition updateLocalStore (fileProperties : list FileProperty.t) : M unit :=
  store ← getLocalStore;
  store' ← liftResult (each updateEntry fileProperties store);
  s ← getSelf;
  filePath ← pathJoin (path s) [Some "config"; Some ".local_store"];
  outputFile filePath (Fs.Json store').

End LocalStore.

(** *** Replacing local files *)

(** [findit]: the walk of a directory reports regular files and errors,
    one event after the other, and then 'end'. *)
Inductive WalkEvent :=
| FileEvent (file : Fs.path)
| ErrorEvent (err : Error).

Record Finder := mkFinder {
  find : Fs.path → Fs.disk → list WalkEvent
}.

(** How a promise ends when part of its work is outside a promise chain:
    resolved, rejected, or left pending by an error that nothing caught. *)
Inductive Outcome (A : Type) :=
| Resolved (a : A)
| Rejected (e : Error)
| Pending (uncaught : Error).
Arguments Resolved {A} a.
Arguments Rejected {A} e.
Arguments Pending {A} uncaught.

(** [directory.replace(remotePath, src)] on the texts of the paths, and
    the directory the text it gives names. *)
Definition destinationDirectory (remotePath src directory : Fs.path) : Fs.path :=
  Fs.ofText (Js.replace (Fs.show directory) (Fs.show remotePath) (Fs.show src)).

(** The listener of the finder's 'file' event. *)
Definition onFile (remotePath : Fs.path) (replacePackageXml : bool) (file : Fs.path) : M unit :=
  s ← getSelf;
  let fileBasename := Fs.basename file in
  let directory := Fs.dirname file in
  src ← pathJoin (workspace s) [name s; Some "src"];
  let destinationDirectory := destinationDirectory remotePath src directory in
  present ← existsSync destinationDirectory;
  (if present : bool then mret tt else mkdirpSync destinationDirectory);;
  if replacePackageXml && String.eqb fileBasename "package.xml" then
    removeSync (Fs.join destinationDirectory [fileBasename]);;
    copySync file (Fs.join destinationDirectory [fileBasename])
  else if negb (String.eqb fileBasename "package.xml") then
    removeSync (Fs.join destinationDirectory [fileBasename]);;
    copySync file (Fs.join destinationDirectory [fileBasename])
  else mret tt.

(** How the promise stands when the listener of 'error' has called
    [reject]: the first call settles it, later ones change nothing. *)
Definition settled (rejected : option Error) (outcome : Outcome unit) : Outcome unit :=
  match rejected with
  | Some err => Rejected err
  | None => outcome
  end.

(** The listener of the finder's 'end' event. *)
Definition onEnd (remotePath : Fs.path) (rejected : option Error) (w : World)
    : World * Outcome unit :=
  if Fs.existsSync (disk w) remotePath then
    match removeSync remotePath w with
    | (w', Return _) => (w', settled rejected (Resolved tt))
    | (w', Throw err) => (w', settled rejected (Rejected err))
    end
  else (w, settled rejected (Resolved tt)).

(** The events of the walk, each handed to its listener. The listener of
    'error' only rejects: the walk goes on, files reported later are still
    put in place and 'end' still removes the staging root. An error thrown
    by the listener of 'file' is caught by nothing. *)
Fixpoint listen (remotePath : Fs.path) (replacePackageXml : bool) (events : list WalkEvent)
    (rejected : option Error) (w : World) : World * Outcome unit :=
  match events with
  | [] => onEnd remotePath rejected w
  | FileEvent file :: rest =>
      match onFile remotePath replacePackageXml file w with
      | (w', Return _) => listen remotePath replacePackageXml rest rejected w'
      | (w', Throw uncaught) => (w', settled rejected (Pending uncaught))
      end
  | ErrorEvent err :: rest =>
      listen remotePath replacePackageXml rest (Some (default err rejected)) w
  end.

Definition replaceLocalFiles (finder : Finder) (remotePath : Fs.path)
    (replacePackageXml : bool) (w : World) : World * Outcome unit :=
  listen remotePath replacePackageXml (find finder remotePath (disk w)) None w.

(** *** Collaborators of the workflows *)

(** The members a package descriptor lists for a type: the wildcard ['*']
    or an array of names. *)
Inductive PackageMembers :=
| Wildcard
| Members (l : list string).

(** The subscription of a package descriptor, in the order of its keys. *)
Abbreviation Subscription := (list (string * PackageMembers)).

(** What a retrieve is scoped to: a list of type names or a subscription. *)
Inductive RetrieveScope :=
| Types (l : list string)
| Descriptor (s : Subscription).

Record RetrieveResult := mkRetrieveResult {
  fileProperties : list FileProperty.t
}.

Record DeployDetails := mkDeployDetails {
  retrieveResult : option RetrieveResult
}.

Record DeployResult := mkDeployResult {
  deploy_id : string;
  success : bool;
  details : option DeployDetails
}.

(** [lib/mavensmate/sfdc-client.js], the network client. *)
Record SalesforceClient := mkSalesforceClient {
  describe : External Describe;
  retrieveUnpackaged : RetrieveScope → bool → Fs.path → External RetrieveResult;
  deploy : Fs.path → External DeployResult;
  initialize : External unit;
  startSystemStreamingListener : External unit
}.

(** *** Initialisation and retrieval workflows *)

Section Workflows.

Context (metadataHelper : MetadataHelper).
Context (syntaxErrorMessage : string → string).
Context (normalize : FileProperty.t → FileProperty.t).
Context (normalizeLeaves : FileProperty.t → option FileProperty.t).
Context (sfdcClient : SalesforceClient).

(** [config.get('mm_workspace')] *)
Context (mm_workspace : WorkspaceSetting).

(** [new Package({path}).init()], of [lib/mavensmate/package.js], resolved
    to the subscription it reads. *)
Context (packageInit : Fs.path → External Subscription).

(** [_initConfig], the config bootstrap: its writes run concurrently and
    are taken as one step on the disk. *)
Context (_initConfig : External unit).

(** The steps of [_initExisting] that load settings and session. *)
Context (_getSettings _getCachedSession _writeSession : External unit).
Context (getOrgMetadataIndexWithSelections _refreshDescribeFromServer : External unit).

(** [temp.mkdirSync] and [util.zipDirectory] *)
Context (tempMkdirSync : External Fs.path).
Context (zipDirectory : Fs.path → Fs.path → External unit).

Definition _initNew : M Uuid :=
  s ← getSelf;
  match workspace s with
  | None =>
      let workspace :=
        match mm_workspace with
        | WsArray l => head l
        | WsString p => Some p
        | WsOther => None
        end in
      match workspace with
      | Some p =>
          present ← existsSync p;
          if present : bool then mret tt else mkdirSync p
      | None => mret tt
      end;;
      modifySelf (with_workspace workspace)
  | Some p =>
      present ← existsSync p;
      if present : bool then mret tt else mkdirSync p
  end;;
  s ← getSelf;
  match workspace s with
  | None => throw (mkError "Could not set workspace for new project")
  | Some _ =>
      path ← pathJoin (workspace s) [name s];
      modifySelf (with_path (Some path));;
      present ← existsSync path;
      if present : bool then throw (mkError "Directory already exists!")
      else
        id ← uuid_v1;
        modifySelf (with_id (Some id));;
        mret id
  end.

Definition setDescribe (d : Describe) : M unit :=
  s ← getSelf;
  describePath ← pathJoin (path s) [Some "config"; Some ".describe"];
  configPath ← pathJoin (path s) [Some "config"];
  present ← existsSync configPath;
  if present : bool then
    outputFile describePath (Fs.Raw (describe_json d));;
    modifySelf (with_describe (Some d))
  else modifySelf (with_describe (Some d)).

Definition standardTypes : list string :=
  ["ApexClass"; "ApexComponent"; "ApexPage"; "ApexTrigger"; "StaticResource"].

(** The [.then] chain of [retrieveAndWriteToDisk]. *)
Definition retrieveChain : M unit :=
  d ← call (describe sfdcClient);
  setDescribe d;;
  s ← getSelf;
  path ← pathJoin (workspace s) [name s];
  modifySelf (with_path (Some path));;
  mkdirSync path;;
  mkdirSync (Fs.join path ["config"]);;
  s ← getSelf;
  result ← call (retrieveUnpackaged sfdcClient (Types (default [] (package s))) true path);
  present ← existsSync (Fs.join path ["unpackaged"]);
  (if present : bool
   then renameSync (Fs.join path ["unpackaged"]) (Fs.join path ["src"])
   else mret tt);;
  call _initConfig;;
  _writeLocalStore metadataHelper (fileProperties result).

Definition retrieveAndWriteToDisk : M unit :=
  s ← getSelf;
  present ← existsSync' (path s);
  if present : bool then
    throw (mkError "Project with this name already exists in the specified workspace.")
  else
    (if package s is None
     then modifySelf (with_package (Some standardTypes))
     else mret tt);;
    catch retrieveChain (λ error,
      s ← getSelf;
      present ← existsSync' (path s);
      match path s with
      | Some p => if present : bool then removeSync p else mret tt
      | None => mret tt
      end;;
      throw error).

(** The part of [compile] up to the deploy. *)
Definition deployArchive : M DeployResult :=
  newPath ← call tempMkdirSync;
  s ← getSelf;
  src ← pathJoin (path s) [Some "src"];
  copySync src (Fs.join newPath ["unpackaged"]);;
  call (zipDirectory (Fs.join newPath ["unpackaged"]) newPath);;
  call (deploy sfdcClient (Fs.join newPath ["unpackaged.zip"])).

(** The deploy result with other file properties in its retrieve result. *)
Definition with_fileProperties (props : list FileProperty.t) (r : DeployResult) : DeployResult :=
  mkDeployResult (deploy_id r) (success r)
    (Some (mkDeployDetails (Some (mkRetrieveResult props)))).

(** What [compile] does with the deploy result. The file properties handed
    to [updateLocalStore] are the objects of the deploy result, which is
    therefore resolved with as the loop of the merge left it. *)
Definition mergeRetrieved (deployResult : DeployResult) : M DeployResult :=
  match details deployResult with
  | None => throw (TypeError "retrieveResult")
  | Some dt =>
      match retrieveResult dt with
      | Some rr =>
          updateLocalStore metadataHelper syntaxErrorMessage normalize (fileProperties rr);;
          merged ← liftResult
            (afterLoop metadataHelper normalize normalizeLeaves (fileProperties rr));
          mret (with_fileProperties merged deployResult)
      | None => mret deployResult
      end
  end.

Definition compile : M DeployResult :=
  deployResult ← deployArchive;
  mergeRetrieved deployResult.

(** [this.path] is [null] until it is assigned, never [undefined]: the
    test [this.path !== undefined] holds, the branches for workspace/name
    and for the current directory are not reached, and [path.join] throws on
    a path that was not given. *)
Definition _isValid : M bool :=
  s ← getSelf;
  settings ← pathJoin (path s) [Some "config"; Some ".settings"];
  existsSync settings.

Definition invalidDirectory : Error :=
  mkError "This does not seem to be a valid MavensMate project directory.".

(** The test of the [.catch] of [_initExisting]. *)
Definition authenticationFailure (error : Error) : bool :=
  Js.mentions (message error) "INVALID_LOGIN"
  || Js.mentions (message error) "EXPIRED_PASSWORD"
  || Js.mentions (message error) "LOGIN_MUST_USE_SECURITY_TOKEN".

(** The steps of the [.then] chain of [_initExisting], up to the one that
    marks the project valid. *)
Definition initExistingSteps : list (M unit) :=
  [ (s ← getSelf;
     src ← pathJoin (path s) [Some "src"; Some "package.xml"];
     call (packageInit src);; mret tt);
    call _getSettings;
    call _getCachedSession;
    call (initialize sfdcClient);
    call _writeSession;
    (getLocalStore syntaxErrorMessage;; mret tt);
    call getOrgMetadataIndexWithSelections;
    call _refreshDescribeFromServer;
    call (startSystemStreamingListener sfdcClient) ].

Definition initExistingChain : M unit :=
  chain initExistingSteps;;
  modifySelf (with_valid (Some true)).

(** What the [.catch] of [_initExisting] does before it rejects. *)
Definition markInvalid (error : Error) : M unit :=
  if authenticationFailure error
  then modifySelf (with_valid (Some false))
  else mret tt.

Definition _initExisting : M unit :=
  ok ← _isValid;
  if negb ok then throw invalidDirectory
  else
    s ← getSelf;
    match path s with
    | Some p =>
        modifySelf (with_workspace (Some (Fs.dirname p)));;
        modifySelf (with_name (Some (Fs.basename p)))
    | None =>
        (* not reached: [_isValid] has thrown *)
        throw joinError
    end;;
    s ← getSelf;
    present ← existsSync' (path s);
    if negb present then throw invalidDirectory
    else
      catch initExistingChain (λ error,
        markInvalid error;;
        throw error).

(** The [.then] chain of [_initNewProjectFromExistingDirectory]. *)
Definition initFromDirectoryChain : M unit :=
  d ← call (describe sfdcClient);
  setDescribe d;;
  s ← getSelf;
  manifest ← pathJoin (path s) [Some "src"; Some "package.xml"];
  subscription ← call (packageInit manifest);
  path ← pathJoin (path s) [];
  result ← call (retrieveUnpackaged sfdcClient (Descriptor subscription) true path);
  present ← existsSync (Fs.join path ["unpackaged"]);
  (if present : bool then removeSync (Fs.join path ["unpackaged"]) else mret tt);;
  id ← uuid_v1;
  modifySelf (with_id (Some id));;
  call _initConfig;;
  _writeLocalStore metadataHelper (fileProperties result).

Definition _initNewProjectFromExistingDirectory : M unit :=
  s ← getSelf;
  match workspace s with
  | None => throw (mkError "Please select a workspace for this project")
  | Some _ =>
      hasSrc ← existsSync (Fs.join (origin s) ["src"]);
      if negb hasSrc then throw (mkError "Project must have a top-level src directory")
      else
        hasManifest ← existsSync (Fs.join (origin s) ["src"; "package.xml"]);
        if negb hasManifest then
          throw (mkError "Project must have a valid package.xml file located in the src directory")
        else
          destination ← pathJoin (workspace s) [name s];
          (if decide (origin s ≠ destination) then
             taken ← existsSync destination;
             if taken : bool then
               throw (mkError "Project with this name already exists in the selected workspace")
             else
               mkdirpSync destination;;
               copySync (origin s) destination
           else mret tt);;
          modifySelf (with_path (Some destination));;
          mkdirpSync (Fs.join destination ["config"]);;
          catch initFromDirectoryChain (λ error,
            s ← getSelf;
            destination ← pathJoin (workspace s) [name s];
            (if decide (origin s ≠ destination) then
               present ← existsSync destination;
               if present : bool then removeSync destination else mret tt
             else mret tt);;
            throw error)
  end.

End Workflows.

(** *** Selections in the org metadata index *)

Definition node_with_select (v : option bool) (n : IndexNode) : IndexNode :=
  mkNode (node_id n) (node_xmlName n) v (node_visibility n) (node_children n).
Definition node_with_visibility (v : option bool) (n : IndexNode) : IndexNode :=
  mkNode (node_id n) (node_xmlName n) (node_select n) v (node_children n).
Definition node_with_children (v : option (list IndexNode)) (n : IndexNode) : IndexNode :=
  mkNode (node_id n) (node_xmlName n) (node_select n) (node_visibility n) v.

(** The children of a node, none when the property is absent. *)
Definition childrenOf (n : IndexNode) : list IndexNode := default [] (node_children n).

(** The predicates of [_.find(nodes, { xmlName: x })] and
    [_.find(nodes, { id: i })]. *)
Definition hasXmlName (x : string) (n : IndexNode) : bool :=
  bool_decide (node_xmlName n = Some x).
Definition hasId (i : string) (n : IndexNode) : bool :=
  bool_decide (node_id n = Some i).

(** [_.find] returns the first match; the source then mutates it in place,
    which on a value is an update of the first match. *)
Fixpoint updateFirst (p : IndexNode → bool) (f : IndexNode → IndexNode)
    (l : list IndexNode) : list IndexNode :=
  match l with
  | [] => []
  | n :: l' => if p n then f n :: l' else n :: updateFirst p f l'
  end.

(** [child.select = true] for each child, when the node has children. *)
Definition selectChildren (n : IndexNode) : IndexNode :=
  match node_children n with
  | Some cs => node_with_children (Some (node_with_select (Some true) <$> cs)) n
  | None => n
  end.

(** The same, two levels down. *)
Definition selectTwoLevels (n : IndexNode) : IndexNode :=
  match node_children n with
  | Some cs =>
      node_with_children
        (Some ((λ child, selectChildren (node_with_select (Some true) child)) <$> cs)) n
  | None => n
  end.

Definition inChildren (f : list IndexNode → list IndexNode) (n : IndexNode) : IndexNode :=
  match node_children n with
  | Some cs => node_with_children (Some (f cs)) n
  | None => n
  end.

(** [ids.indexOf(id) >= 0] for a possibly absent id. *)
Definition idAmong (ids : list string) (i : option string) : bool :=
  match i with
  | Some i' => bool_decide (i' ∈ ids)
  | None => false
  end.

(** Modelled from the spec: [IndexService.setChecked] of
    [lib/mavensmate/index.js] is not among the sources. The spec has the
    selection computed from node ids ("resolves each member to a node id")
    and lets a node be selected only if it is present in the index: every
    node, at any depth, whose id is among [ids] is selected, and no
    selection made before is undone. *)
Fixpoint setCheckedNode (ids : list string) (n : IndexNode) : IndexNode :=
  match n with
  | mkNode i x s v cs =>
      mkNode i x
        (if idAmong ids i then Some true else s)
        v
        (option_map (List.map (setCheckedNode ids)) cs)
  end.

Definition isSelected (n : IndexNode) : bool :=
  bool_decide (node_select n = Some true).

(** Modelled from the spec: [IndexService.ensureParentsAreCheckedIfNecessary]
    is not among the sources. The spec: "After selection, ancestor nodes of
    any selected descendant are forced selected". *)
Fixpoint ensureParentsNode (n : IndexNode) : IndexNode :=
  match n with
  | mkNode i x s v cs =>
      let cs' := option_map (List.map ensureParentsNode) cs in
      mkNode i x (if existsb isSelected (default [] cs') then Some true else s) v cs'
  end.

(** Modelled from the spec: [IndexService.setVisibility] is not among the
    sources. The spec: "An optional keyword additionally sets a visibility
    flag for filtering, independent of selection"; which nodes a keyword
    shows is left to [shows]. *)
Fixpoint setVisibilityNode (shows : string → IndexNode → bool) (keyword : string)
    (n : IndexNode) : IndexNode :=
  match n with
  | mkNode i x s v cs =>
      mkNode i x s (Some (shows keyword n))
        (option_map (List.map (setVisibilityNode shows keyword)) cs)
  end.

Section Selections.

Context (metadataHelper : MetadataHelper).
Context (shows : string → IndexNode → bool).

Definition setChecked (orgMetadata : list IndexNode) (ids : list string) : list IndexNode :=
  setCheckedNode ids <$> orgMetadata.
Definition ensureParentsAreCheckedIfNecessary (orgMetadata : list IndexNode) : list IndexNode :=
  ensureParentsNode <$> orgMetadata.
Definition setVisibility (orgMetadata : list IndexNode) (keyword : string) : list IndexNode :=
  setVisibilityNode shows keyword <$> orgMetadata.

(** One member of an explicit member list. *)
Definition selectMember (metadataTypeXmlName : string) (metadataType : MetadataType)
    (parentMetadataType : option MetadataType)
    (st : list IndexNode * list string) (member : string) : list IndexNode * list string :=
  let (orgMetadata, ids) := st in
  if inFolder metadataType then
    (orgMetadata,
     ids ++ [Js.join "." [Some metadataTypeXmlName; Some (Js.replaceFirstChar "/" "." member)]])
  else
    match parentMetadataType with
    | Some parent =>
        (orgMetadata,
         ids ++ [Js.join "." [Some (xmlName parent); Js.split "." member !! 0%nat;
                              tagName metadataType; Js.split "." member !! 1%nat]])
    | None =>
        match childXmlNames metadataType with
        | Some _ =>
            if existsb (hasXmlName metadataTypeXmlName) orgMetadata then
              let nodeId := Js.join "." [Some metadataTypeXmlName; Some member] in
              (updateFirst (hasXmlName metadataTypeXmlName)
                 (inChildren (updateFirst (hasId nodeId) selectTwoLevels)) orgMetadata,
               ids ++ [nodeId])
            else (orgMetadata, ids)
        | None =>
            (orgMetadata, ids ++ [Js.join "." [Some metadataTypeXmlName; Some member]])
        end
    end.

(** One key of the subscription: the callback of [_.forOwn]. A [reject]
    does not stop the iteration, and only the first one counts. *)
Definition selectType (st : list IndexNode * list string * option Error)
    (entry : string * PackageMembers) : list IndexNode * list string * option Error :=
  let '(orgMetadata, ids, rejected) := st in
  let (metadataTypeXmlName, packageMembers) := entry in
  match getTypeByXmlName metadataHelper metadataTypeXmlName with
  | None =>
      let err := mkError ("Unrecognized package.xml metadata type: " +:+ metadataTypeXmlName) in
      (orgMetadata, ids, Some (default err rejected))
  | Some metadataType =>
      let parentMetadataType :=
        parentXmlName metadataType ≫= getTypeByXmlName metadataHelper in
      match packageMembers with
      | Wildcard =>
          (updateFirst (hasXmlName metadataTypeXmlName) selectChildren orgMetadata,
           ids ++ [metadataTypeXmlName], rejected)
      | Members members =>
          (foldl (selectMember metadataTypeXmlName metadataType parentMetadataType)
             (orgMetadata, ids) members, rejected)
      end
  end.

(** [getOrgMetadataIndexWithSelections(keyword, ids, packageLocation)].
    [orgMetadataFile] is [config/.org_metadata] as the call finds it: absent,
    unreadable, or holding an index; [packageXml] is the subscription of the
    project's descriptor and [customPackage] what initialising the
    descriptor at [packageLocation] gives. *)
Definition getOrgMetadataIndexWithSelections
    (orgMetadataFile : option (result (list IndexNode)))
    (packageXml : Subscription) (customPackage : result Subscription)
    (keyword : option string) (ids : option (list string))
    (packageLocation : option Fs.path) : Outcome (list IndexNode) :=
  match orgMetadataFile with
  | None => Resolved []
  | Some (Throw err) => Rejected err
  | Some (Return orgMetadata) =>
      let promise :=
        match packageLocation with
        | Some _ => customPackage
        | None => Return packageXml
        end in
      match promise with
      | Throw err => Pending err
      | Return subscription =>
          let '(orgMetadata, ids, rejected) :=
            match ids with
            | Some ids => (orgMetadata, ids, None)
            | None => foldl selectType (orgMetadata, [], None) subscription
            end in
          let orgMetadata := setChecked orgMetadata ids in
          let orgMetadata := ensureParentsAreCheckedIfNecessary orgMetadata in
          let orgMetadata :=
            if Js.truthy keyword then setVisibility orgMetadata (Js.toStr keyword)
            else orgMetadata in
          match rejected with
          | Some err => Rejected err
          | None => Resolved orgMetadata
          end
      end
  end.

End Selections.

(** *** The describe snapshot *)

(** [getDescribe] *)
Definition getDescribe (s : t) : option Describe := _describe s.

(** [_refreshDescribeFromServer] *)
Definition _refreshDescribeFromServer (sfdcClient : SalesforceClient) : M unit :=
  res ← call (describe sfdcClient);
  setDescribe res.

(** *** Settings, session, debug settings and the keychain *)

(** A JSON value. *)
#[local] Unset Elimination Schemes.
Inductive Json :=
| JNull
| JBool (b : bool)
| JNum (n : Z)
| JStr (s : string)
| JArr (items : list Json)
| JObj (members : list (string * Json)).
#[local] Set Elimination Schemes.

(** A JavaScript object in memory. A property may hold [undefined], which
    is [None]; a property that is missing reads as [undefined] too. *)
Abbreviation JsObject := (gmap string (option Json)).

(** [o.key] *)
Definition prop (o : JsObject) (key : string) : option Json := default None (o !! key).

Definition truthyJson (v : option Json) : bool :=
  match v with
  | None | Some JNull | Some (JBool false) | Some (JNum 0) | Some (JStr "") => false
  | Some _ => true
  end.

(** [a || b] *)
Definition orElse (a b : option Json) : option Json := if truthyJson a then a else b.

(** What [JSON.stringify] keeps of an object: the properties that are
    defined. *)
Definition definedProps (o : JsObject) : JsObject :=
  filter (λ kv, is_Some kv.2) o.

(** [JSON.stringify(_, null, 4)] and [JSON.parse] on the documents of one
    kind; they belong to the engine. *)
Record Codec (A : Type) := mkCodec {
  stringify : A → string;
  parse : string → result A
}.
Arguments mkCodec {A} _ _.
Arguments stringify {A} _ _.
Arguments parse {A} _ _.

(** The accounts the project keeps passwords under: its id, or the id its
    settings hold. *)
Inductive Account :=
| AccountId (u : Uuid)
| AccountSetting (v : option Json).

(** [lib/mavensmate/keychain.js], a collaborator: whether the system
    keychain is in use, and its operations on a keychain of type [K]. *)
Record KeychainService (K : Type) := mkKeychainService {
  useSystemKeychain : bool;
  storePassword : Account → option Json → K → result K;
  replacePassword : Account → option Json → K → result K;
  getPassword : Account → K → result (option Json)
}.
Arguments mkKeychainService {K} _ _ _ _.
Arguments useSystemKeychain {K} _.
Arguments storePassword {K} _ _ _ _.
Arguments replacePassword {K} _ _ _ _.
Arguments getPassword {K} _ _ _.

(** The project instance with the fields the methods below read or assign,
    and the system keychain beside it. *)
Record Instance (K : Type) := mkInstance {
  world : World;
  settings : option JsObject;
  cachedSession : option JsObject;
  lightningIndex : option (list Json);
  password : option Json;
  keychain : K
}.
Arguments mkInstance {K} _ _ _ _ _ _.
Arguments world {K} _.
Arguments settings {K} _.
Arguments cachedSession {K} _.
Arguments lightningIndex {K} _.
Arguments password {K} _.
Arguments keychain {K} _.

(** [fs.writeFileSync]: the directory of the file must be there. It is not
    among the calls that are logged. *)
Definition writeFile (p : Fs.path) (c : Fs.content) (d : Fs.disk) : result Fs.disk :=
  match d !! p with
  | Some Fs.Dir => Throw (Fs.EISDIR p)
  | Some (Fs.File _) => Return (<[p := Fs.File c]> d)
  | None =>
      match d !! Fs.dirname p with
      | Some Fs.Dir => Return (<[p := Fs.File c]> d)
      | Some (Fs.File _) => Throw (Fs.ENOTDIR p)
      | None => Throw (Fs.ENOENT p)
      end
  end.

Definition writeFileSync (p : Fs.path) (c : Fs.content) : M unit := λ w,
  match writeFile p c (disk w) with
  | Return d => (with_disk d w, Return tt)
  | Throw e => (w, Throw e)
  end.

Definition dquote : string := String (Ascii.ascii_of_nat 34) EmptyString.

Definition keychainFailure : Error :=
  mkError ("Could not retrieve project password from the system keychain. "
           +:+ "If you do not wish to use the system keychain, set "
           +:+ dquote +:+ "mm_use_keyring" +:+ dquote
           +:+ " to false, then specify the org password in your project's config/.settings file.").

Definition noPassword : Error :=
  mkError ("System keychain is not enabled/supported and there is no "
           +:+ dquote +:+ "password" +:+ dquote
           +:+ " property in project config/.settings file. Please add a "
           +:+ dquote +:+ "password" +:+ dquote
           +:+ " property to your project config/.settings file and try your operation.").

(** The test of the [.catch] of [indexLightning]: the org has no Lightning
    to index. *)
Definition lightningUnavailable (err : Error) : bool :=
  Js.mentions (message err) "sObject type 'AuraDefinition' is not supported"
  || Js.mentions (message err) "requested resource does not exist".

Section Config.

Context {K : Type}.

(** The engine's JSON on objects, on arrays of values and on the metadata
    index, and the text it writes for a local store. *)
Context (objects : Codec JsObject).
Context (arrays : Codec (list Json)).
Context (indexes : Codec (list IndexNode)).
Context (stringifyStore : LocalStore → string).

Context (keychainService : KeychainService K).

(** [new LightningService(project).getAll()], of
    [lib/mavensmate/lightning.js]. *)
Context (lightningGetAll : External (list Json)).

(** [new IndexService({project}).indexServerProperties(subscription)], of
    [lib/mavensmate/index.js]. *)
Context (indexServerProperties : option Json → External (list IndexNode)).

(** A method of the instance: it threads the instance and resolves or
    rejects. *)
Definition P (A : Type) : Type := Instance K → Instance K * result A.

#[local] Instance P_ret : MRet P := λ A a i, (i, Return a).

#[local] Instance P_bind : MBind P := λ A B f m i,
  match m i with
  | (i', Return a) => f a i'
  | (i', Throw e) => (i', Throw e)
  end.

Definition throwP {A} (e : Error) : P A := λ i, (i, Throw e).

Definition catchP {A} (m : P A) (handler : Error → P A) : P A := λ i,
  match m i with
  | (i', Return a) => (i', Return a)
  | (i', Throw e) => handler e i'
  end.

(** A [try] block whose [catch] does not leave the function. *)
Definition attempt {A} (m : P A) : P (result A) := λ i,
  let (i', r) := m i in (i', Return r).

Definition getInstance : P (Instance K) := λ i, (i, Return i).

(** A computation on the world, run on the world of the instance. *)
Definition inWorld {A} (m : M A) : P A := λ i,
  let (w, r) := m (world i) in
  (mkInstance w (settings i) (cachedSession i) (lightningIndex i) (password i)
     (keychain i), r).

Definition setSettings (v : option JsObject) : P unit := λ i,
  (mkInstance (world i) v (cachedSession i) (lightningIndex i) (password i)
     (keychain i), Return tt).
Definition setCachedSession (v : option JsObject) : P unit := λ i,
  (mkInstance (world i) (settings i) v (lightningIndex i) (password i)
     (keychain i), Return tt).
Definition setLightningIndexField (v : option (list Json)) : P unit := λ i,
  (mkInstance (world i) (settings i) (cachedSession i) v (password i)
     (keychain i), Return tt).

(** A call of the keychain service that changes the keychain. *)
Definition onKeychain (f : K → result K) : P unit := λ i,
  match f (keychain i) with
  | Return k =>
      (mkInstance (world i) (settings i) (cachedSession i) (lightningIndex i) (password i)
         k, Return tt)
  | Throw e => (i, Throw e)
  end.

(** The text of a file. *)
Definition textOf (c : Fs.content) : string :=
  match c with
  | Fs.Raw text => text
  | Fs.Json doc => stringifyStore doc
  end.

(** [fs.readJsonSync] and [fs.readJson] on a document of one kind. *)
Definition readJson {A} (codec : Codec A) (file : Fs.path) : M A := λ w,
  match disk w !! file with
  | None => (w, Throw (Fs.ENOENT file))
  | Some Fs.Dir => (w, Throw (Fs.EISDIR file))
  | Some (Fs.File c) => (w, parse codec (textOf c))
  end.

(** The path of a file of the [config] directory. *)
Definition configFile (name : string) : M Fs.path :=
  s ← getSelf;
  pathJoin (path s) [Some "config"; Some name].

Definition _getCachedSession : P JsObject :=
  file ← inWorld (configFile ".session");
  present ← inWorld (existsSync file);
  if present : bool then
    catchP
      (cachedSession ← inWorld (readJson objects file);
       setCachedSession (Some cachedSession);;
       mret cachedSession)
      (λ err,
         if Js.mentions (message err) "Unexpected end of input" then mret ∅
         else throwP err)
  else mret ∅.

(** [getSubscription], which throws when the settings are not loaded. *)
Definition getSubscription : P (option Json) :=
  i ← getInstance;
  match settings i with
  | Some st => mret (prop st "subscription")
  | None => throwP (TypeError "subscription")
  end.

Definition updateSetting (key : string) (value : option Json) : P unit :=
  read ← attempt (file ← inWorld (configFile ".settings");
                  inWorld (readJson objects file));
  match read with
  | Throw err =>
      (* the executor runs on to [settings[key] = value], whose TypeError a
         promise that is rejected already ignores *)
      throwP (mkError ("Could not read project .settings file: " +:+ message err))
  | Return settings =>
      let settings := <[key := value]> settings in
      file ← inWorld (configFile ".settings");
      inWorld (writeFileSync file (Fs.Raw (stringify objects settings)));;
      setSettings (Some settings)
  end.

Definition updateDebug (key : string) (value : option Json) : P unit :=
  read ← attempt (file ← inWorld (configFile ".debug");
                  inWorld (readJson objects file));
  match read with
  | Throw err =>
      throwP (mkError ("Could not read project .debug file: " +:+ message err))
  | Return debug =>
      let debug := <[key := value]> debug in
      file ← inWorld (configFile ".debug");
      inWorld (writeFileSync file (Fs.Raw (stringify objects debug)))
  end.

Definition _getPassword : P (option Json) :=
  i ← getInstance;
  match settings i with
  | None => throwP (TypeError "password")
  | Some st =>
      if truthyJson (prop st "password") then mret (prop st "password")
      else if useSystemKeychain keychainService then
        match getPassword keychainService (AccountSetting (prop st "id")) (keychain i) with
        | Return pw => mret pw
        | Throw _ => throwP keychainFailure
        end
      else throwP noPassword
  end.

Definition _getSettings : P JsObject :=
  file ← inWorld (configFile ".settings");
  settings ← inWorld (readJson objects file);
  setSettings (Some settings);;
  pw ← _getPassword;
  setSettings (Some (<["password" := pw]> settings));;
  mret (<["password" := pw]> settings).

(** [self.id || self.settings.id] *)
Definition account : P Account :=
  i ← getInstance;
  match id (self (world i)) with
  | Some u => mret (AccountId u)
  | None =>
      match settings i with
      | Some st => mret (AccountSetting (prop st "id"))
      | None => throwP (TypeError "id")
      end
  end.

Definition _storePassword (pw : option Json) (replace : bool) : P unit :=
  if useSystemKeychain keychainService then
    acct ← account;
    i ← getInstance;
    onKeychain
      (if replace
       then replacePassword keychainService acct (orElse pw (password i))
       else storePassword keychainService acct (orElse pw (password i)));;
    (* clear out any password that was stored in .settings *)
    updateSetting "password" None
  else
    i ← getInstance;
    updateSetting "password" (orElse pw (password i)).

Definition setLightningIndex (index : list Json) : P unit :=
  file ← inWorld (configFile ".lightning");
  inWorld (outputFile file (Fs.Raw (stringify arrays index)));;
  setLightningIndexField (Some index).

Definition getLightningIndexSync : P (list Json) :=
  catchP (file ← inWorld (configFile ".lightning");
          inWorld (readJson arrays file))
    (λ e, if Js.mentions (message e) "Unexpected end of input" then mret []
          else throwP e).

Definition indexLightning : P unit :=
  catchP (res ← inWorld (call lightningGetAll);
          setLightningIndex res)
    (λ err, if lightningUnavailable err then mret tt else throwP err).

Definition getLightningIndex : P (list Json) :=
  catchP (file ← inWorld (configFile ".lightning");
          inWorld (readJson arrays file))
    (λ _,
       (* if the file is empty or missing, index it *)
       indexLightning;;
       file ← inWorld (configFile ".lightning");
       inWorld (readJson arrays file)).

Definition indexMetadata : P unit :=
  subscription ← getSubscription;
  res ← inWorld (call (indexServerProperties subscription));
  file ← inWorld (configFile ".org_metadata");
  inWorld (outputFile file (Fs.Raw (stringify indexes res))).

Definition getOrgMetadataIndex : M (list IndexNode) :=
  file ← configFile ".org_metadata";
  catch (readJson indexes file) (λ _, mret []).

End Config.

(** *** Refreshing and editing a project *)

Section Refresh.

Context {K : Type}.
Context (metadataHelper : MetadataHelper).
Context (sfdcClient : SalesforceClient).
Context (arrays : Codec (list Json)).
Context (lightningGetAll : External (list Json)).
Context (finder : Finder).
Context (packageInit : Fs.path → External Subscription).
Context (tempMkdirSync : External Fs.path).

(** [util.emptyDirectoryRecursiveSync] and
    [util.removeEmptyDirectoriesRecursiveSync], of [lib/mavensmate/util.js]. *)
Context (emptyDirectoryRecursiveSync removeEmptyDirectoriesRecursiveSync :
           Fs.path → External unit).

#[local] Existing Instance P_ret.
#[local] Existing Instance P_bind.

(** How a chain that resolved or rejected settles its promise. *)
Definition settle {S A : Type} (r : S * result A) : S * Outcome A :=
  match r with
  | (s, Return a) => (s, Resolved a)
  | (s, Throw e) => (s, Rejected e)
  end.

Definition withWorld (w : World) (i : Instance K) : Instance K :=
  mkInstance w (settings i) (cachedSession i) (lightningIndex i) (password i) (keychain i).

(** [refreshFromServer], up to the replacement of the local files. *)
Definition refreshRetrieve : M (RetrieveResult * Fs.path) :=
  retrievePath ← call tempMkdirSync;
  s ← getSelf;
  manifest ← pathJoin (path s) [Some "src"; Some "package.xml"];
  subscription ← call (packageInit manifest);
  res ← call (retrieveUnpackaged sfdcClient (Descriptor subscription) true retrievePath);
  s ← getSelf;
  src ← pathJoin (path s) [Some "src"];
  call (emptyDirectoryRecursiveSync src);;
  mret (res, retrievePath).

Definition refreshFromServer (i : Instance K) : Instance K * Outcome unit :=
  match refreshRetrieve (world i) with
  | (w1, Throw err) => (withWorld w1 i, Rejected err)
  | (w1, Return (retrieveResult, retrievePath)) =>
      match replaceLocalFiles finder (Fs.join retrievePath ["unpackaged"]) true w1 with
      | (w2, Resolved _) =>
          settle
            ((inWorld (_writeLocalStore metadataHelper (fileProperties retrieveResult));;
              indexLightning arrays lightningGetAll;;
              s ← inWorld getSelf;
              src ← inWorld (pathJoin (path s) [Some "src"]);
              inWorld (call (removeEmptyDirectoriesRecursiveSync src)))
               (withWorld w2 i))
      | (w2, Rejected err) => (withWorld w2 i, Rejected err)
      | (w2, Pending err) => (withWorld w2 i, Pending err)
      end
  end.

(** [edit], up to the replacement of the local files. *)
Definition editRetrieve (pkg : RetrieveScope) : M Fs.path :=
  retrievePath ← call tempMkdirSync;
  retrieveResult ← call (retrieveUnpackaged sfdcClient pkg true retrievePath);
  _writeLocalStore metadataHelper (fileProperties retrieveResult);;
  s ← getSelf;
  src ← pathJoin (path s) [Some "src"];
  call (emptyDirectoryRecursiveSync src);;
  mret retrievePath.

Definition edit (pkg : RetrieveScope) (w : World) : World * Outcome unit :=
  match editRetrieve pkg w with
  | (w1, Throw err) => (w1, Rejected err)
  | (w1, Return retrievePath) =>
      match replaceLocalFiles finder (Fs.join retrievePath ["unpackaged"]) true w1 with
      | (w2, Resolved _) =>
          settle
            ((s ← getSelf;
              manifest ← pathJoin (path s) [Some "src"; Some "package.xml"];
              call (packageInit manifest);;
              s ← getSelf;
              src ← pathJoin (path s) [Some "src"];
              call (removeEmptyDirectoriesRecursiveSync src)) w2)
      | (w2, Rejected err) => (w2, Rejected err)
      | (w2, Pending err) => (w2, Pending err)
      end
  end.

End Refresh.

(** *** Vocabulary of the local-store properties *)

Section LocalStoreVocabulary.

Context (metadataHelper : MetadataHelper).
Context (normalize : FileProperty.t → FileProperty.t).

(** What one round of a store loop does: nothing, or one assignment
    [store[key] = value]. *)
Definition assign (store : LocalStore) (kv : option (string * FileProperty.t)) : LocalStore :=
  match kv with
  | Some (key, value) => <[key := value]> store
  | None => store
  end.

(** The key [_writeLocalStore] stores a property under: its type is found
    from the file name and its full name does not mention the manifest. *)
Definition storeKey (fp : FileProperty.t) : option string :=
  match getTypeByPath metadataHelper (FileProperty.fileName fp), FileProperty.fullName fp with
  | Some mt, Some fullName =>
      if Js.lacks fullName "package.xml"
      then Some (fullName +:+ "." +:+ Js.toStr (suffix mt))
      else None
  | _, _ => None
  end.

(** The assignment [_writeLocalStore] makes for a property, if any. *)
Definition writeAssignment (fp : FileProperty.t) : result (option (string * FileProperty.t)) :=
  match FileProperty.fullName fp with
  | None => Throw (TypeError "indexOf")
  | Some _ => Return ((λ key, (key, FileProperty.set_mmState "clean" fp)) <$> storeKey fp)
  end.

(** The assignment [updateLocalStore] makes for a property, if any. *)
Definition updateAssignment (fp0 : FileProperty.t) : result (option (string * FileProperty.t)) :=
  match resolveType metadataHelper normalize fp0 with
  | Throw e => Throw e
  | Return (fp, metadataType) =>
      match entryKey fp metadataType with
      | Throw e => Throw e
      | Return (Some key) => Return (Some (key, FileProperty.set_mmState "clean" fp))
      | Return None => Return None
      end
  end.

(** The key [updateLocalStore] derives from a property, if any. *)
Definition updateKey (fp0 : FileProperty.t) : option string :=
  match updateAssignment fp0 with
  | Return (Some (key, _)) => Some key
  | _ => None
  end.

End LocalStoreVocabulary.

(** The key of an assignment. *)
Definition assignedKey {A : Type} (f : A → result (option (string * FileProperty.t)))
    (a : A) : option string :=
  match f a with
  | Return (Some (key, _)) => Some key
  | _ => None
  end.

(** A loop body that makes at most one assignment per element, the one [f]
    tells. *)
Definition assigning {A : Type} (f : A → result (option (string * FileProperty.t)))
    (body : LocalStore → A → result LocalStore) : Prop :=
  ∀ s a, body s a = match f a with
                    | Return kv => Return (assign s kv)
                    | Throw e => Throw e
                    end.


(** *** Vocabulary of the file-replacement properties *)

(** Where a staged file goes: the staging root at the front of its
    directory is replaced by the source root of the project. *)
Definition destination (remotePath src file : Fs.path) : Fs.path :=
  destinationDirectory remotePath src (Fs.dirname file) ++ [Fs.basename file].

(** A listener run on one element after the other, as for a run of 'file'
    events. *)
Fixpoint forEach {A : Type} (body : A → M unit) (l : list A) : M unit :=
  match l with
  | [] => mret tt
  | a :: l' => body a;; forEach body l'
  end.

(** Whether the walk touches a file: the manifest is left alone unless its
    replacement is asked for. *)
Definition replaced (replacePackageXml : bool) (file : Fs.path) : bool :=
  replacePackageXml || negb (String.eqb (Fs.basename file) "package.xml").

(** A disk is well formed when every entry but the root lies in a
    directory. *)
Definition wellFormed (d : Fs.disk) : Prop :=
  map_Forall (λ p _, p = [] ∨ (Fs.isFile <$> d !! Fs.dirname p) = Some false) d.

(** No regular file is in the way of a directory that has to exist. *)
Definition notFile (d : Fs.disk) (q : Fs.path) : Prop :=
  (Fs.isFile <$> d !! q) ≠ Some true.

Definition unobstructed (d : Fs.disk) (dir : Fs.path) : Prop :=
  Forall (notFile d) (Fs.ancestors dir).

(** What holds of the world between two 'file' events of a walk that
    started in [w0]: the project object and the staging tree are as they
    were, a regular file is one of [w0] or the destination of a staged file,
    and the manifest of the project is as it was when it is not to be
    replaced. *)
Definition walking (root src : Fs.path) (flag : bool) (w0 : World)
    (files : list Fs.path) (w : World) : Prop :=
  self w = self w0 ∧
  (∀ q, root `prefix_of` q → disk w !! q = disk w0 !! q) ∧
  (∀ q c, disk w !! q = Some (Fs.File c) →
     (∃ c', disk w0 !! q = Some (Fs.File c')) ∨ ∃ f, f ∈ files ∧ q = destination root src f) ∧
  (flag = false → ∀ c, disk w0 !! (src ++ ["package.xml"]) = Some (Fs.File c) →
     disk w !! (src ++ ["package.xml"]) = Some (Fs.File c)).

(** The staged files of [D] that are to be replaced are in place. *)
Definition placed (root src : Fs.path) (flag : bool) (w0 : World)
    (files : list Fs.path) (D : Fs.path → Prop) (w : World) : Prop :=
  ∀ f, D f → f ∈ files → replaced flag f = true →
       disk w !! destination root src f = disk w0 !! f.

(** *** Reasoning about computations *)

(** [wp m Q w]: running [m] from the world [w] ends in a result and a world
    that satisfy [Q]. *)
Definition wp {A : Type} (m : M A) (Q : result A → World → Prop) (w : World) : Prop :=
  Q (m w).2 (m w).1.

(** The log [l] is [l0] followed by calls of [fs.outputFile] only. *)
Definition wrote (l0 l : list Fs.call) : Prop :=
  ∃ cs, l = l0 ++ cs ∧ ∀ c, c ∈ cs → ∃ p, c = Fs.OutputFile p.

(** The error [e] is the failure of one of the collaborator steps. *)
Definition failureOf {A : Type} (steps : list (External A)) (e : Error) : Prop :=
  ∃ step d d', step ∈ steps ∧ step d = (d', Throw e).


(** *** Vocabulary of the selection properties *)

(** A child keeps its id and a selection it has. *)
Definition childGrows (c c' : IndexNode) : Prop :=
  node_id c' = node_id c ∧ (node_select c = Some true → node_select c' = Some true).

(** A node keeps its id, its xmlName, a selection it has, and its children,
    which keep theirs. *)
Definition nodeGrows (n n' : IndexNode) : Prop :=
  node_id n' = node_id n ∧
  node_xmlName n' = node_xmlName n ∧
  (node_select n = Some true → node_select n' = Some true) ∧
  match node_children n, node_children n' with
  | Some cs, Some cs' => Forall2 childGrows cs cs'
  | None, None => True
  | _, _ => False
  end.

(** An index after some selections were added to it. *)
Definition grows (idx idx' : list IndexNode) : Prop := Forall2 nodeGrows idx idx'.

(** The type-level node of [T], the first node of the index whose xmlName is
    [T], has all its children selected. *)
Definition childrenSelected (T : string) (idx : list IndexNode) : Prop :=
  ∀ n, List.find (hasXmlName T) idx = Some n →
       ∀ c, c ∈ childrenOf n → node_select c = Some true.

(** Every node of an index, at any depth. *)
Fixpoint nodesOf (n : IndexNode) : list IndexNode :=
  n :: match node_children n with
       | Some cs => (fix all (l : list IndexNode) : list IndexNode :=
                       match l with
                       | [] => []
                       | c :: l' => nodesOf c ++ all l'
                       end) cs
       | None => []
       end.

Definition allNodes (idx : list IndexNode) : list IndexNode := concat (nodesOf <$> idx).

(** The property of the specification: every node whose xmlName is [T] is
    selected, and so are all its children. *)
Definition everyNodeSelected (T : string) (idx : list IndexNode) : Prop :=
  ∀ n, n ∈ allNodes idx → node_xmlName n = Some T →
       node_select n = Some true ∧ ∀ c, c ∈ childrenOf n → node_select c = Some true.

(** *** Vocabulary of the call-log properties *)

(** The paths a logged call is aimed at: what it creates, overwrites or
    removes. The source of a copy is only read. *)
Definition touched (c : Fs.call) : list Fs.path :=
  match c with
  | Fs.MkdirSync p | Fs.MkdirpSync p | Fs.RemoveSync p | Fs.OutputFile p => [p]
  | Fs.CopySync _ dst => [dst]
  | Fs.RenameSync src dst => [src; dst]
  end.

(** The log [l] is [l0] followed by calls aimed at [root] or below only. *)
Definition within (root : Fs.path) (l0 l : list Fs.call) : Prop :=
  ∃ cs, l = l0 ++ cs ∧ Forall (λ c, Forall (prefix root) (touched c)) cs.

(** A call the walk of [replaceLocalFiles] makes: [mkdirpSync],
    [removeSync] or [copySync]. *)
Definition walkCall (c : Fs.call) : Prop :=
  match c with
  | Fs.MkdirpSync _ | Fs.RemoveSync _ | Fs.CopySync _ _ => True
  | _ => False
  end.

(** The log [l] is [l0] followed by calls of the walk only. *)
Definition walked (l0 l : list Fs.call) : Prop :=
  ∃ cs, l = l0 ++ cs ∧ Forall walkCall cs.

End Project.

(** ** A small org and workspace *)

Module Scenario.

Import Project.

Definition apexClass : MetadataType :=
  mkMetadataType "ApexClass" (Some "cls") (Some "classes") None false None None.
Definition customObject : MetadataType :=
  mkMetadataType "CustomObject" (Some "object") (Some "objects") None false None
    (Some ["CustomField"]).

(** A registry that knows two types, by name and by file suffix. *)
Definition registry : MetadataHelper :=
  mkMetadataHelper
    (λ x, if String.eqb x "ApexClass" then Some apexClass
          else if String.eqb x "CustomObject" then Some customObject
          else None)
    (λ o, match o with
          | Some file =>
              if Js.mentions file "cls" then Some apexClass
              else if Js.mentions file "object" then Some customObject
              else None
          | None => None
          end).

(** The diagnostics of the engine's JSON parser. *)
Definition syntaxError (text : string) : string :=
  match text with
  | EmptyString => "Unexpected end of input"
  | String c _ => "Unexpected token " +:+ String c EmptyString
  end.

Definition retrieved (type fullName fileName : string) : FileProperty.t :=
  FileProperty.mk (Some type) None None (Some fullName) (Some fileName)
    None None (Some "Ada") (Some "Ada") (Some "unmanaged") None None [("id", "01p")].

Definition fooClass : FileProperty.t := retrieved "ApexClass" "Foo" "unpackaged/classes/Foo.cls".
Definition barClass : FileProperty.t := retrieved "ApexClass" "Bar" "unpackaged/classes/Bar.cls".
Definition manifest : FileProperty.t := retrieved "Package" "unpackaged/package.xml" "unpackaged/package.xml".
Definition unknown : FileProperty.t := retrieved "Flow" "Baz" "unpackaged/flows/Baz.flow".

Definition ws : Fs.path := ["tmp"; "ws"].
Definition proj : Fs.path := ["tmp"; "ws"; "Proj1"].
Definition staging : Fs.path := ["tmp"; "mm_1"; "unpackaged"].

Definition project : Project.t :=
  Project.mk (Some proj) (Some ws) (Some "Proj1") proj None None None None.

(** A new project, not yet on disk. *)
Definition emptyDisk : Fs.disk :=
  list_to_map [([], Fs.Dir); (["tmp"], Fs.Dir); (ws, Fs.Dir)].

(** The project on disk, with a retrieve staged next to it. *)
Definition projectDisk : Fs.disk :=
  list_to_map
    [ ([], Fs.Dir); (["tmp"], Fs.Dir); (ws, Fs.Dir); (proj, Fs.Dir);
      (proj ++ ["config"], Fs.Dir);
      (proj ++ ["config"; ".settings"], Fs.File (Fs.Raw "{}"));
      (proj ++ ["config"; ".local_store"],
         Fs.File (Fs.Json {["Bar.cls" := FileProperty.set_mmState "clean" barClass]}));
      (proj ++ ["src"], Fs.Dir);
      (proj ++ ["src"; "package.xml"], Fs.File (Fs.Raw "<Package>old</Package>"));
      (proj ++ ["src"; "classes"], Fs.Dir);
      (proj ++ ["src"; "classes"; "Foo.cls"], Fs.File (Fs.Raw "class Foo { /* old */ }"));
      (["tmp"; "mm_1"], Fs.Dir); (staging, Fs.Dir);
      (staging ++ ["package.xml"], Fs.File (Fs.Raw "<Package>new</Package>"));
      (staging ++ ["classes"], Fs.Dir);
      (staging ++ ["classes"; "Foo.cls"], Fs.File (Fs.Raw "class Foo { }")) ].

Definition fresh (d : Fs.disk) (s : Project.t) : World := mkWorld d [] s 0.

(** The walk of [findit], on a disk that does not change under it. *)
Definition finder : Finder := mkFinder (λ root d, FileEvent <$> Fs.filesUnder root d).

Definition ok {A} (a : A) : External A := λ d, (d, Return a).
Definition failing {A} (msg : string) : External A := λ d, (d, Throw (mkError msg)).

(** A client whose calls all succeed; the retrieve unpacks nothing. *)
Definition client : SalesforceClient :=
  mkSalesforceClient
    (ok (mkDescribe "{}"))
    (λ _ _ _, ok (mkRetrieveResult [fooClass; manifest]))
    (λ _, ok (mkDeployResult "0Af" true
               (Some (mkDeployDetails (Some (mkRetrieveResult [fooClass]))))))
    (ok tt)
    (ok tt).

(** A client whose login is refused. *)
Definition lockedOut : SalesforceClient :=
  mkSalesforceClient (describe client) (retrieveUnpackaged client) (deploy client)
    (failing "INVALID_LOGIN: Invalid username, password, security token; or user locked out.")
    (ok tt).

(** A client whose retrieve fails. *)
Definition offline : SalesforceClient :=
  mkSalesforceClient (describe client) (λ _ _ _, failing "ECONNRESET")
    (deploy client) (ok tt) (ok tt).

(** An index in which object nodes carry the xmlName of their type. *)
Definition objectIndex : list IndexNode :=
  [ mkNode (Some "CustomObject") (Some "CustomObject") (Some false) None
      (Some [ mkNode (Some "CustomObject.Account") (Some "CustomObject") (Some false) None
                (Some [ mkNode (Some "CustomObject.Account.fields") None (Some false) None
                          None ]) ]) ].

(** Which nodes a keyword shows. *)
Definition shows (keyword : string) (n : IndexNode) : bool :=
  Js.mentions (Js.toStr (node_id n)) keyword.

Definition storeFile : Fs.path := proj ++ ["config"; ".local_store"].

(** The project with an empty store file, and with none. *)
Definition emptyStoreDisk : Fs.disk := <[storeFile := Fs.File (Fs.Raw "")]> projectDisk.
Definition noStoreDisk : Fs.disk := delete storeFile projectDisk.

Definition tempDir : External Fs.path :=
  λ d, (<[["tmp"; "mm_2"] := Fs.Dir]> d, Return ["tmp"; "mm_2"]).

Definition deployed : DeployResult :=
  mkDeployResult "0Af" true (Some (mkDeployDetails (Some (mkRetrieveResult [fooClass])))).

(** A compile of the project whose local store file is missing. *)
Definition compileWithoutStore : World * result DeployResult :=
  compile registry syntaxError (λ fp, fp) (λ _, None) client tempDir (λ _ _, ok tt)
    (fresh noStoreDisk project).

(** The creation of the project on an empty workspace, the retrieve
    failing. *)
Definition creationOffline : World * result unit :=
  retrieveAndWriteToDisk registry offline (ok tt)
    (fresh emptyDisk project).

(** The opening of the project, the login being refused. *)
Definition openingLockedOut : World * result unit :=
  _initExisting syntaxError lockedOut (λ _, ok []) (ok tt) (ok tt) (ok tt) (ok tt) (ok tt)
    (fresh projectDisk project).

(** A directory outside the workspace that holds a project. *)
Definition legacy : Fs.path := ["home"; "legacy"].

Definition legacyDisk : Fs.disk :=
  list_to_map
    [ ([], Fs.Dir); (["tmp"], Fs.Dir); (ws, Fs.Dir); (["home"], Fs.Dir); (legacy, Fs.Dir);
      (legacy ++ ["src"], Fs.Dir);
      (legacy ++ ["src"; "package.xml"], Fs.File (Fs.Raw "<Package/>")) ].

(** The import of that directory, the retrieve failing. *)
Definition importOffline : World * result unit :=
  _initNewProjectFromExistingDirectory registry offline (λ _, ok []) (ok tt)
    (fresh legacyDisk
       (Project.mk None (Some ws) (Some "Proj1") legacy None None None None)).

End Scenario.

(** ** A project with settings, a keychain and a toy JSON *)

Module Examples.

Import Project Scenario.

(** A toy JSON for objects whose values are strings: [{k=v;k=v;]. An empty
    text is a document cut short. *)
Definition renderValue (v : Json) : string :=
  match v with
  | JStr s => s
  | _ => "?"
  end.

Definition renderMember (kv : string * option Json) (rest : string) : string :=
  match kv.2 with
  | Some v => kv.1 +:+ "=" +:+ renderValue v +:+ ";" +:+ rest
  | None => rest
  end.

Definition parseMember (piece : string) (o : JsObject) : JsObject :=
  match Js.split "=" piece with
  | [k; v] => <[k := Some (JStr v)]> o
  | _ => o
  end.

Definition cutShort : Error := mkError "Unexpected end of input".

Definition flat : Codec JsObject :=
  mkCodec
    (λ o, "{" +:+ foldr renderMember "" (map_to_list o))
    (λ text, match text with
             | EmptyString => Throw cutShort
             | String _ members => Return (foldr parseMember ∅ (Js.split ";" members))
             end).

(** The same for arrays of strings: [[a,b,]. *)
Definition unwrap (piece : string) (l : list Json) : list Json :=
  if String.eqb piece "" then l else JStr piece :: l.

Definition listing : Codec (list Json) :=
  mkCodec
    (λ l, "[" +:+ foldr (λ v rest, renderValue v +:+ "," +:+ rest) "" l)
    (λ text, match text with
             | EmptyString => Throw cutShort
             | String _ items => Return (foldr unwrap [] (Js.split "," items))
             end).

(** And for an index whose nodes have an id only. *)
Definition typeNode (i : string) : IndexNode := mkNode (Some i) None None None None.

Definition unwrapNode (piece : string) (l : list IndexNode) : list IndexNode :=
  if String.eqb piece "" then l else typeNode piece :: l.

Definition outline : Codec (list IndexNode) :=
  mkCodec
    (λ l, "[" +:+ foldr (λ n rest, Js.toStr (node_id n) +:+ "," +:+ rest) "" l)
    (λ text, match text with
             | EmptyString => Throw cutShort
             | String _ items => Return (foldr unwrapNode [] (Js.split "," items))
             end).

Definition storeText (store : LocalStore) : string := "{}".

Definition settings0 : JsObject :=
  {[ "id" := Some (JStr "p1"); "username" := Some (JStr "ada");
     "password" := Some (JStr "old"); "subscription" := Some (JStr "ApexClass") ]}.

Definition debug0 : JsObject :=
  {[ "users" := Some (JStr "005"); "expiration" := Some (JStr "480") ]}.

Definition session0 : JsObject :=
  {[ "accessToken" := Some (JStr "00D"); "instanceUrl" := Some (JStr "na1") ]}.

Definition config : Fs.path := proj ++ ["config"].

(** A project with its settings and debug settings, a session file cut
    short, and no Lightning index. *)
Definition officeDisk : Fs.disk :=
  list_to_map
    [ ([], Fs.Dir); (["tmp"], Fs.Dir); (ws, Fs.Dir); (proj, Fs.Dir); (config, Fs.Dir);
      (config ++ [".settings"], Fs.File (Fs.Raw (stringify flat settings0)));
      (config ++ [".debug"], Fs.File (Fs.Raw (stringify flat debug0)));
      (config ++ [".session"], Fs.File (Fs.Raw ""));
      (proj ++ ["src"], Fs.Dir);
      (proj ++ ["src"; "package.xml"], Fs.File (Fs.Raw "<Package/>")) ].

(** A keychain that holds one password. *)
Definition Keyring : Type := option (option Json).

Definition keyring : KeychainService Keyring :=
  mkKeychainService true
    (λ _ pw _, Return (Some pw))
    (λ _ pw _, Return (Some pw))
    (λ _ k, match k with
            | Some pw => Return pw
            | None => Throw (mkError "The specified item could not be found in the keychain.")
            end).

(** No keychain. *)
Definition plain : KeychainService Keyring :=
  mkKeychainService false
    (λ _ _ _, Throw (mkError "keychain not supported"))
    (λ _ _ _, Throw (mkError "keychain not supported"))
    (λ _ _, Throw (mkError "keychain not supported")).

Definition office : Instance Keyring :=
  mkInstance (fresh officeDisk project) (Some settings0) None None (Some (JStr "s3cret")) None.

Definition bundles : list Json := [JStr "mmApp"; JStr "mmCard"].

Definition classIndex : list IndexNode := [typeNode "ApexClass"].

(** A Lightning service for an org that has no Lightning. *)
Definition noLightning : External (list Json) :=
  failing "sObject type 'AuraDefinition' is not supported.".

(** A record of an API query whose type the registry does not know. *)
Definition queried : FileProperty.t :=
  FileProperty.mk None (Some (FileProperty.mkAttributes (Some "Flow"))) (Some "Baz") None None
    (Some (FileProperty.mkUser (Some "Ada"))) (Some (FileProperty.mkUser (Some "Ada")))
    None None None None None [].

(** A property that has no full name. *)
Definition nameless : FileProperty.t :=
  FileProperty.mk (Some "ApexClass") None None None (Some "unpackaged/classes/Qux.cls")
    None None None None None None None [].

(** A later version of the class Foo. *)
Definition fooClass2 : FileProperty.t :=
  FileProperty.mk (Some "ApexClass") None None (Some "Foo") (Some "unpackaged/classes/Foo.cls")
    None None (Some "Ada") (Some "Grace") (Some "unmanaged") None None [("id", "01p")].

(** The project with a store file that is empty. *)
Definition truncated : World := fresh emptyStoreDisk project.

(** A new project in an empty workspace, the workspace coming from the
    configuration. *)
Definition unsettled : World :=
  fresh emptyDisk (Project.mk None None (Some "Proj1") proj None None None None).

(** The project given by its path only. *)
Definition byPath : World :=
  fresh projectDisk (Project.mk (Some proj) None None proj None None None None).

(** A client whose retrieve unpacks the class Foo. *)
Definition unpacking : SalesforceClient :=
  mkSalesforceClient (describe client)
    (λ _ _ to d,
       (<[to ++ ["unpackaged"; "classes"; "Foo.cls"] := Fs.File (Fs.Raw "class Foo { }")]> d,
        Return (mkRetrieveResult [fooClass])))
    (deploy client) (ok tt) (ok tt).

(** A walk that reports the class Foo, then an error, then a class that is
    not there. *)
Definition brokenFinder : Finder :=
  mkFinder (λ root _,
    [ FileEvent (root ++ ["classes"; "Foo.cls"]);
      ErrorEvent (mkError "EACCES");
      FileEvent (root ++ ["classes"; "Bar.cls"]) ]).

(** The project whose path was not given. *)
Definition pathless : World :=
  fresh projectDisk (Project.mk None (Some ws) (Some "Proj1") proj None None None None).

(** The store after one merge of the class Foo. *)
Definition merged : World :=
  (updateLocalStore registry syntaxError (λ fp, fp) [fooClass] (fresh projectDisk project)).1.

(** The refresh of the describe snapshot of the project. *)
Definition described : World * result unit :=
  _refreshDescribeFromServer client (fresh projectDisk project).

(** The replacement of the local files by the staged retrieve, the manifest
    being kept. *)
Definition refreshed : World * Outcome unit :=
  replaceLocalFiles finder staging false (fresh projectDisk project).

(** The opening of the project given by its path. *)
Definition opened : World * result unit :=
  _initExisting syntaxError client (λ _, ok []) (ok tt) (ok tt) (ok tt) (ok tt) (ok tt)
    byPath.

(** The import of the legacy directory when the name is taken. *)
Definition crowded : World :=
  fresh (<[proj := Fs.Dir]> legacyDisk)
    (Project.mk None (Some ws) (Some "Proj1") legacy None None None None).

End Examples.

(** * Properties *)

(** ** JavaScript strings *)

Lemma indexOf_from_lower needle hay i :
  Js.indexOf_from needle hay i = -1 ∨ i <= Js.indexOf_from needle hay i.
Proof.
  revert i. induction hay as [|a hay IH]; intros i;
    cbn [Js.indexOf_from]; destruct (String.prefix needle _); try (right; lia).
  - by left.
  - destruct (IH (i + 1)) as [->| ?]; [by left | right; lia].
Qed.

Lemma indexOf_range hay needle : Js.indexOf hay needle = -1 ∨ 0 <= Js.indexOf hay needle.
Proof. apply indexOf_from_lower. Qed.

(** The two idioms [>= 0] and [=== -1] are complementary. *)
Lemma lacks_mentions hay needle : Js.lacks hay needle = negb (Js.mentions hay needle).
Proof.
  unfold Js.lacks, Js.mentions. destruct (indexOf_range hay needle) as [-> | H]; [done|].
  destruct (Z.eqb_spec (Js.indexOf hay needle) (-1)); [lia|].
  symmetry. apply negb_false_iff, Z.leb_le, H.
Qed.

(** ** Texts of paths *)

Lemma append_cons (a : ascii) (s t : string) : String a s +:+ t = String a (s +:+ t).
Proof. done. Qed.

Lemma append_assoc (a b c : string) : (a +:+ b) +:+ c = a +:+ b +:+ c.
Proof. induction a as [|x a IH]; [done|]. rewrite !append_cons. by f_equal. Qed.

Lemma append_empty (s : string) : s +:+ "" = s.
Proof. induction s as [|x s IH]; [done|]. rewrite append_cons. by f_equal. Qed.

Lemma afterPrefix_app (pat rest : string) : Js.afterPrefix pat (pat +:+ rest) = Some rest.
Proof.
  induction pat as [|a pat IH]; [by destruct rest|].
  rewrite append_cons. cbn [Js.afterPrefix]. by rewrite Ascii.eqb_refl.
Qed.

Lemma substitution_literal (matched before after rep : string) :
  Js.literal rep = true → Js.substitution matched before after rep = rep.
Proof.
  unfold Js.literal. induction rep as [|c rep IH]; [done|].
  cbn [Js.hasChar Js.substitution]. intros H. apply negb_true_iff, orb_false_iff in H as [Hc Hrep].
  rewrite Hc, IH; [done|]. by rewrite Hrep.
Qed.

(** A text that starts with the pattern has it replaced at the front. *)
Lemma replace_front (pat rep rest : string) :
  Js.literal rep = true → Js.replace (pat +:+ rest) pat rep = rep +:+ rest.
Proof.
  intros Hrep. unfold Js.replace.
  assert (∀ hay, Js.afterPrefix pat hay = Some rest →
            Js.replaceFrom pat rep "" hay = rep +:+ rest) as H.
  { intros hay Hhay. destruct hay; cbn [Js.replaceFrom]; rewrite Hhay;
      by rewrite substitution_literal. }
  apply H, afterPrefix_app.
Qed.

Lemma below_app (p q : list string) : Fs.below (p ++ q) = Fs.below p +:+ Fs.below q.
Proof.
  induction p as [|s p IH]; [done|].
  change ((s :: p) ++ q) with (s :: (p ++ q)). cbn [Fs.below].
  by rewrite IH, !append_assoc.
Qed.

Lemma show_below (p : Fs.path) : p ≠ [] → Fs.show p = Fs.below p.
Proof.
  unfold Fs.show. induction p as [|s p IH]; [done|]. intros _.
  destruct p as [|s' p].
  - cbn. by rewrite append_empty.
  - specialize (IH ltac:(done)). cbn [Fs.below] in *. rewrite <- IH.
    change (Some <$> s :: s' :: p) with (Some s :: (Some <$> s' :: p)).
    cbn [Js.join fmap list_fmap default]. done.
Qed.

Lemma split_cons (c : ascii) (s : string) : ∃ w ws, Js.split c s = w :: ws.
Proof.
  induction s as [|a s (w & ws & IH)]; cbn [Js.split]; [eauto|].
  destruct (Ascii.eqb a c); [eauto|]. rewrite IH. eauto.
Qed.

Lemma split_app (c : ascii) (s t : string) :
  Js.hasChar c s = false →
  Js.split c (s +:+ t) =
    match Js.split c t with
    | w :: ws => (s +:+ w) :: ws
    | [] => [s]
    end.
Proof.
  induction s as [|a s IH].
  - intros _. change ("" +:+ t) with t.
    by destruct (split_cons c t) as (w & ws & ->).
  - cbn [Js.hasChar]. intros [Ha Hs]%orb_false_iff.
    rewrite append_cons. cbn [Js.split]. rewrite Ha, IH by done.
    by destruct (Js.split c t).
Qed.

Lemma split_below (p : list string) :
  Fs.proper p →
  Js.split "/" (Fs.below p) = if p is [] then [""] else "" :: p.
Proof.
  induction 1 as [|s p Hs Hp IH]; [done|].
  cbn [Fs.below]. change ("/" +:+ s +:+ Fs.below p) with (String "/" (s +:+ Fs.below p)).
  cbn [Js.split]. rewrite Ascii.eqb_refl. f_equal.
  rewrite split_app.
  - rewrite IH. destruct p; by rewrite append_empty.
  - unfold Fs.segment in Hs. apply andb_true_iff in Hs as [_ Hs]. by apply negb_true_iff.
Qed.

Lemma foldl_resolve (p q : Fs.path) :
  Fs.proper q → foldl Fs.resolve p q = p ++ q.
Proof.
  intros Hq. revert p. induction Hq as [|s q Hs Hq IH]; intros p; simpl.
  - by rewrite app_nil_r.
  - rewrite IH. unfold Fs.resolve. unfold Fs.segment in Hs.
    apply andb_true_iff in Hs as [Hs _].
    apply andb_true_iff in Hs as [Hs H3]. apply andb_true_iff in Hs as [H1 H2].
    apply negb_true_iff in H1, H2, H3. rewrite H1, H2, H3. simpl.
    by rewrite <- app_assoc.
Qed.

(** The text of a path of proper segments names that path. *)
Lemma ofText_show (p : Fs.path) :
  Fs.proper p → Fs.ofText (Fs.show p) = p.
Proof.
  intros Hp. destruct p as [|s p]; [done|].
  rewrite show_below by done. unfold Fs.ofText. rewrite split_below by done.
  change (foldl Fs.resolve [] ("" :: s :: p)) with (foldl Fs.resolve [] (s :: p)).
  by apply foldl_resolve.
Qed.

(** ** The disk *)

Section FsFacts.

Implicit Types (d : Fs.disk) (p q : Fs.path).

Lemma elem_of_ancestors_from base rest q :
  q ∈ Fs.ancestors_from base rest ↔ base `prefix_of` q ∧ q `prefix_of` base ++ rest.
Proof.
  revert base. induction rest as [|s rest IH]; intros base; simpl.
  - rewrite list_elem_of_singleton, app_nil_r. split; [by intros ->|].
    intros [H1 H2]. by apply (anti_symm prefix).
  - rewrite elem_of_cons, IH, <- app_assoc. simpl. split.
    + intros [->|[H1 H2]]; [split; [done|by apply prefix_app_r]|].
      split; [|done]. etrans; [|exact H1]. by apply prefix_app_r.
    + intros [[k ->] H2]. destruct k as [|x k]; [left; by rewrite app_nil_r|].
      right. split; [|done]. apply prefix_app_inv in H2.
      destruct H2 as [k' H2]. simplify_eq/=. apply prefix_app, prefix_cons, prefix_nil.
Qed.

Lemma elem_of_ancestors p q : q ∈ Fs.ancestors p ↔ q `prefix_of` p.
Proof.
  unfold Fs.ancestors. rewrite elem_of_ancestors_from. simpl.
  split; [by intros [_ ?]|]. intros ?; split; [apply prefix_nil|done].
Qed.

Lemma removeSync_lookup p d q :
  Fs.removeSync p d !! q = if decide (p `prefix_of` q) then None else d !! q.
Proof.
  unfold Fs.removeSync. case_decide as Hp.
  - apply map_lookup_filter_None_2. right. intros e _ Hn. by apply Hn.
  - destruct (d !! q) as [e|] eqn:Hq.
    + by apply map_lookup_filter_Some_2.
    + apply map_lookup_filter_None_2. by left.
Qed.

Lemma mkdirs_from_spec base rest d :
  (∀ q, q ∈ Fs.ancestors_from base rest → Project.notFile d q) →
  ∃ d', Fs.mkdirs_from base rest d = Return d' ∧
        ∀ q, d' !! q = if decide (q ∈ Fs.ancestors_from base rest) then Some Fs.Dir else d !! q.
Proof.
  revert base d. induction rest as [|s rest IH]; intros base d Hclear; simpl.
  - assert (Project.notFile d base) as Hb by (apply Hclear; simpl; left).
    unfold Project.notFile in Hb.
    destruct (d !! base) as [[|c]|] eqn:E; simpl in Hb; try done;
      (eexists; split; [done|]; intros q; case_decide as Hq;
        [apply list_elem_of_singleton in Hq as ->; apply lookup_insert_eq
        |rewrite lookup_insert_ne; [done|]; intros ->; apply Hq; left]).
  - assert (Project.notFile d base) as Hb by (apply Hclear; left).
    unfold Project.notFile in Hb.
    destruct (IH (base ++ [s]) (<[base:=Fs.Dir]> d)) as (d' & Hd' & Hlook).
    { intros q Hq. unfold Project.notFile. destruct (decide (base = q)) as [->|Hne].
      - by rewrite lookup_insert_eq.
      - rewrite lookup_insert_ne by done. apply Hclear. by right. }
    exists d'. split.
    { destruct (d !! base) as [[|c]|] eqn:E; simpl in Hb; done. }
    intros q. rewrite Hlook. destruct (decide (q = base)) as [->|Hne].
    + rewrite (decide_True (P := base ∈ Fs.ancestors_from base (s :: rest))) by left.
      case_decide; [done|apply lookup_insert_eq].
    + rewrite lookup_insert_ne by done.
      case_decide as H1; case_decide as H2; try done.
      * exfalso. apply H2. by right.
      * exfalso. apply elem_of_cons in H2 as [?|?]; done.
Qed.

Lemma mkdirpSync_spec p d :
  (∀ q, q `prefix_of` p → Project.notFile d q) →
  ∃ d', Fs.mkdirpSync p d = Return d' ∧
        ∀ q, d' !! q = if decide (q `prefix_of` p) then Some Fs.Dir else d !! q.
Proof.
  intros Hclear. destruct (mkdirs_from_spec [] p d) as (d' & Hd' & Hlook).
  { intros q Hq. by apply Hclear, elem_of_ancestors. }
  exists d'. split; [done|]. intros q. rewrite Hlook.
  case_decide as H1; case_decide as H2; try done.
  - exfalso. by apply H2, elem_of_ancestors.
  - exfalso. by apply H1, elem_of_ancestors.
Qed.

(** Copying a regular file to [dir/base]. *)
Lemma copySync_file src dir base c d :
  d !! src = Some (Fs.File c) →
  (∀ q, q `prefix_of` dir → Project.notFile d q) →
  d !! (dir ++ [base]) ≠ Some Fs.Dir →
  ∃ d', Fs.copySync src (dir ++ [base]) d = Return d' ∧
        ∀ q, d' !! q = if decide (q = dir ++ [base]) then Some (Fs.File c)
                       else if decide (q `prefix_of` dir) then Some Fs.Dir
                       else d !! q.
Proof.
  intros Hsrc Hclear Hdst. unfold Fs.copySync, Fs.dirname. rewrite Hsrc, removelast_last.
  destruct (mkdirpSync_spec dir d Hclear) as (d' & -> & Hlook).
  assert (¬ dir ++ [base] `prefix_of` dir) as Hn by apply prefix_snoc_not.
  assert (d' !! (dir ++ [base]) = d !! (dir ++ [base])) as Hsame.
  { rewrite Hlook. by rewrite decide_False. }
  eexists. split.
  { destruct (d' !! (dir ++ [base])) as [[|c']|] eqn:E; try done; congruence. }
  intros q. destruct (decide (q = dir ++ [base])) as [->|Hne].
  - apply lookup_insert_eq.
  - rewrite lookup_insert_ne by done. apply Hlook.
Qed.

End FsFacts.

(** ** Running computations *)

Section WpFacts.

Import Project.

Context {A B : Type}.
Implicit Types (w : World) (p : Fs.path).

Lemma wp_run (m : M A) Q w w' r : wp m Q w → m w = (w', r) → Q r w'.
Proof. unfold wp. intros H E. by rewrite E in H. Qed.

Lemma wp_intro (m : M A) (Q : result A → World → Prop) w :
  (∀ w' r, m w = (w', r) → Q r w') → wp m Q w.
Proof. intros H. apply H. by destruct (m w). Qed.

Lemma wp_ret (a : A) Q w : Q (Return a) w → wp (mret a) Q w.
Proof. done. Qed.

Lemma wp_throw (e : Error) (Q : result A → World → Prop) w :
  Q (Throw e) w → wp (throw e) Q w.
Proof. done. Qed.

Lemma wp_bind (m : M A) (k : A → M B) Q w :
  wp m (λ r w', match r with
                | Return a => wp (k a) Q w'
                | Throw e => Q (Throw e) w'
                end) w →
  wp (m ≫= k) Q w.
Proof. unfold wp, mbind, M_bind. by destruct (m w) as [w' [a|e]]. Qed.

Lemma wp_catch (m : M A) (handler : Error → M A) Q w :
  wp m (λ r w', match r with
                | Return a => Q (Return a) w'
                | Throw e => wp (handler e) Q w'
                end) w →
  wp (catch m handler) Q w.
Proof. unfold wp, catch. by destruct (m w) as [w' [a|e]]. Qed.

Lemma wp_call (x : External A) Q w :
  (∀ d r, x (disk w) = (d, r) → Q r (with_disk d w)) → wp (call x) Q w.
Proof. intros H. unfold wp, call. destruct (x (disk w)) as [d r] eqn:E. by apply H. Qed.

Lemma wp_liftResult (r : result A) Q w : Q r w → wp (liftResult r) Q w.
Proof. done. Qed.

End WpFacts.

Section WpPrimitives.

Import Project.

Implicit Types (w : World) (p : Fs.path).

Lemma wp_getSelf Q w : Q (Return (self w)) w → wp getSelf Q w.
Proof. done. Qed.

Lemma wp_modifySelf f Q w :
  Q (Return tt) (with_self (f (self w)) w) → wp (modifySelf f) Q w.
Proof. done. Qed.

Lemma wp_existsSync p Q w :
  Q (Return (Fs.existsSync (disk w) p)) w → wp (existsSync p) Q w.
Proof. done. Qed.

Lemma wp_existsSync' o Q w :
  Q (Return (if o is Some p then Fs.existsSync (disk w) p else false)) w →
  wp (existsSync' o) Q w.
Proof. by destruct o. Qed.

Lemma wp_pathJoin base segs Q w :
  match base, Js.defined segs with
  | Some p, Some segs' => Q (Return (p ++ segs')) w
  | _, _ => Q (Throw joinError) w
  end →
  wp (pathJoin base segs) Q w.
Proof. unfold pathJoin. destruct base; [destruct (Js.defined _)|]; done. Qed.

Lemma wp_fsCall c f Q w :
  match f (disk w) with
  | Return d => Q (Return tt) (with_disk d (logged c w))
  | Throw e => Q (Throw e) (logged c w)
  end →
  wp (fsCall c f) Q w.
Proof. unfold wp, fsCall. simpl. by destruct (f (disk w)). Qed.

Lemma wp_uuid_v1 Q w :
  Q (Return (V1 (clock w))) (mkWorld (disk w) (calls w) (self w) (S (clock w))) →
  wp uuid_v1 Q w.
Proof. done. Qed.

End WpPrimitives.

(** One step of symbolic execution of a goal [wp m Q w]. *)
Ltac wp_simpl :=
  cbn [Project.self Project.disk Project.calls Project.clock
       Project.with_self Project.with_disk Project.logged
       Project.path Project.workspace Project.name Project.origin Project.id
       Project.valid Project.package Project._describe
       Project.with_path Project.with_workspace Project.with_name Project.with_id
       Project.with_valid Project.with_package Project.with_describe Js.defined];
  cbn beta iota; try unfold Fs.join.

Ltac wp_simpl_hyps :=
  cbn [Project.self Project.disk Project.calls Project.clock
       Project.with_self Project.with_disk Project.logged
       Project.path Project.workspace Project.name Project.origin Project.id
       Project.valid Project.package Project._describe
       Project.with_path Project.with_workspace Project.with_name Project.with_id
       Project.with_valid Project.with_package Project.with_describe Js.defined] in *.

Ltac wp_step :=
  wp_simpl;
  lazymatch goal with
  | |- Project.wp (mbind _ _) _ _ => apply wp_bind
  | |- Project.wp (mret _) _ _ => apply wp_ret
  | |- Project.wp (Project.throw _) _ _ => apply wp_throw
  | |- Project.wp (Project.catch _ _) _ _ => apply wp_catch
  | |- Project.wp Project.getSelf _ _ => apply wp_getSelf
  | |- Project.wp (Project.modifySelf _) _ _ => apply wp_modifySelf
  | |- Project.wp (Project.existsSync _) _ _ => apply wp_existsSync
  | |- Project.wp (Project.existsSync' _) _ _ => apply wp_existsSync'
  | |- Project.wp (Project.pathJoin _ _) _ _ => apply wp_pathJoin
  | |- Project.wp Project.uuid_v1 _ _ => apply wp_uuid_v1
  | |- Project.wp (Project.liftResult _) _ _ => apply wp_liftResult
  | |- Project.wp (Project.call _) _ _ => apply wp_call; intros ? [?|?] ?
  | |- Project.wp (Project.fsCall _ _) _ _ => apply wp_fsCall
  | |- Project.wp (Project.mkdirSync _) _ _ => apply wp_fsCall
  | |- Project.wp (Project.mkdirpSync _) _ _ => apply wp_fsCall
  | |- Project.wp (Project.removeSync _) _ _ => apply wp_fsCall
  | |- Project.wp (Project.copySync _ _) _ _ => apply wp_fsCall
  | |- Project.wp (Project.renameSync _ _) _ _ => apply wp_fsCall
  | |- Project.wp (Project.outputFile _ _) _ _ => apply wp_fsCall
  | |- Project.wp (match ?x with _ => _ end) _ _ => destruct x eqn:?
  | |- match ?x with _ => _ end => destruct x eqn:?
  end; wp_simpl.

Ltac wp_go := repeat wp_step.

(** ** Loops over arrays *)

Section EachFacts.

Context {A : Type} (f : A → result (option (string * FileProperty.t))).

Context (body : LocalStore → A → result LocalStore) (Hbody : Project.assigning f body).

Lemma each_frame l s s' k :
  Project.each body l s = Return s' →
  (∀ a v, a ∈ l → f a ≠ Return (Some (k, v))) →
  s' !! k = s !! k.
Proof.
  revert s. induction l as [|a l IH]; intros s Hrun Hk; simpl in Hrun.
  - by inversion Hrun.
  - rewrite Hbody in Hrun. destruct (f a) as [kv|e] eqn:Ha; [|done].
    rewrite (IH _ Hrun); [|intros; apply Hk; by right].
    destruct kv as [[k' v']|]; simpl; [|done].
    apply lookup_insert_ne. intros ->. eapply Hk; [left|done].
  Qed.

Lemma each_lookup l s s' k v :
  Project.each body l s = Return s' →
  s' !! k = Some v →
  s !! k = Some v ∨ ∃ a, a ∈ l ∧ f a = Return (Some (k, v)).
Proof.
  revert s. induction l as [|a l IH]; intros s Hrun Hk; simpl in Hrun.
  - inversion Hrun; subst. by left.
  - rewrite Hbody in Hrun. destruct (f a) as [kv|e] eqn:Ha; [|done].
    destruct (IH _ Hrun Hk) as [Hs | (a' & Hin & Ha')].
    + destruct kv as [[k' v']|]; simpl in Hs; [|by left].
      destruct (decide (k' = k)) as [->|Hne].
      * rewrite lookup_insert_eq in Hs. inversion Hs; subst.
        right. exists a. split; [left|done].
      * rewrite lookup_insert_ne in Hs by done. by left.
    + right. exists a'. split; [by right|done].
Qed.

Lemma each_preserve l s s' k v :
  Project.each body l s = Return s' →
  s !! k = Some v →
  s' !! k = Some v ∨ ∃ a' v', a' ∈ l ∧ f a' = Return (Some (k, v')) ∧ s' !! k = Some v'.
Proof.
  revert s v. induction l as [|b l IH]; intros s v Hrun Hs; simpl in Hrun.
  - inversion Hrun; subst. by left.
  - rewrite Hbody in Hrun. destruct (f b) as [kv|e] eqn:Hb; [|done].
    assert (∃ v1, Project.assign s kv !! k = Some v1 ∧
                  (v1 = v ∨ f b = Return (Some (k, v1)))) as (v1 & Hv1 & Hor).
    { destruct kv as [[k' v']|]; simpl; [|eauto].
      destruct (decide (k' = k)) as [->|Hne].
      - rewrite lookup_insert_eq. rewrite Hb. eauto.
      - rewrite lookup_insert_ne by done. eauto. }
    destruct (IH _ _ Hrun Hv1) as [Hs' | (a' & v' & Hin & Ha' & Hs')].
    + destruct Hor as [->|Hw]; [by left|].
      right. exists b, v1. split_and!; [left|done..].
    + right. exists a', v'. split_and!; [by right|done..].
Qed.

Lemma each_written l s s' a k v :
  Project.each body l s = Return s' →
  a ∈ l → f a = Return (Some (k, v)) →
  ∃ a' v', a' ∈ l ∧ f a' = Return (Some (k, v')) ∧ s' !! k = Some v'.
Proof.
  revert s. induction l as [|b l IH]; intros s Hrun Hin Ha; [by inversion Hin|].
  inversion Hin as [|? ? ? Hin']; subst.
  - simpl in Hrun. rewrite Hbody, Ha in Hrun. simpl in Hrun.
    destruct (each_preserve _ _ _ k v Hrun) as [Hs' | (a' & v' & ? & ? & ?)].
    + apply lookup_insert_eq.
    + exists b, v. split_and!; [left|done..].
    + exists a', v'. split_and!; [by right|done..].
  - simpl in Hrun. rewrite Hbody in Hrun. destruct (f b) as [kv|e]; [|done].
    destruct (IH _ Hrun Hin' Ha) as (a' & v' & ? & ? & ?).
    exists a', v'. split_and!; [by right|done..].
Qed.

Lemma each_total l s :
  Forall (λ a, ∃ kv, f a = Return kv) l →
  ∃ s', Project.each body l s = Return s'.
Proof.
  intros Hl. revert s. induction Hl as [|a l [kv Ha] _ IH]; intros s; simpl; [eauto|].
  rewrite Hbody, Ha. apply IH.
Qed.

Lemma each_size l s s' :
  Project.each body l s = Return s' →
  NoDup (omap (Project.assignedKey f) l) →
  (∀ k, k ∈ omap (Project.assignedKey f) l → s !! k = None) →
  size s' = (size s + length (omap (Project.assignedKey f) l))%nat.
Proof.
  revert s. induction l as [|a l IH]; intros s Hrun Hnd Hfresh; simpl in Hrun.
  - inversion Hrun; subst. simpl. lia.
  - rewrite Hbody in Hrun. simpl in Hnd, Hfresh |- *.
    assert (Project.assignedKey f a =
            match f a with Return (Some (key, _)) => Some key | _ => None end) as Hka by done.
    rewrite Hka in *. clear Hka.
    destruct (f a) as [[[k v]|]|e] eqn:Ha; [| |done]; simpl in *.
    + apply NoDup_cons in Hnd as [Hk Hnd].
      rewrite (IH _ Hrun Hnd).
      * rewrite map_size_insert_None; [simpl; symmetry; apply Nat.add_succ_r|]. apply Hfresh. left.
      * intros k' Hk'. rewrite lookup_insert_ne; [apply Hfresh; by right|].
        intros ->. done.
    + by apply IH.
Qed.

End EachFacts.

(** ** The local store *)

Section LocalStoreFacts.

Context (metadataHelper : MetadataHelper).
Context (syntaxErrorMessage : string → string).
Context (normalize : FileProperty.t → FileProperty.t).

Import Project.

Abbreviation storeFile p := (p ++ ["config"; ".local_store"]) (only parsing).
Abbreviation endOfInput := "Unexpected end of input" (only parsing).

Lemma readJsonSync_world file w :
  (readJsonSync syntaxErrorMessage file w).1 = w.
Proof.
  unfold readJsonSync. by destruct (disk w !! file) as [[|[]]|].
Qed.

(** [getLocalStore] is the read with one kind of failure turned into the
    empty store; it leaves the world as it is. *)
Lemma getLocalStore_unfold w p :
  path (self w) = Some p →
  getLocalStore syntaxErrorMessage w =
    match (readJsonSync syntaxErrorMessage (storeFile p) w).2 with
    | Return doc => (w, Return doc)
    | Throw e =>
        if Js.mentions (message e) endOfInput then (w, Return ∅) else (w, Throw e)
    end.
Proof.
  intros Hp. unfold getLocalStore, mbind, M_bind, getSelf, catch. rewrite Hp. simpl.
  unfold Fs.join. pose proof (readJsonSync_world (storeFile p) w) as Hw.
  destruct (readJsonSync syntaxErrorMessage (storeFile p) w) as [w' [doc|e]];
    simpl in *; subst w'; [done|].
  by destruct (Js.mentions (message e) endOfInput).
Qed.

(** The store read back depends on the disk and on the project path only. *)
Lemma getLocalStore_disk w1 w2 p :
  path (self w1) = Some p → path (self w2) = Some p → disk w1 = disk w2 →
  (getLocalStore syntaxErrorMessage w1).2 = (getLocalStore syntaxErrorMessage w2).2.
Proof.
  intros H1 H2 Hd. rewrite (getLocalStore_unfold _ _ H1), (getLocalStore_unfold _ _ H2).
  unfold readJsonSync. rewrite Hd.
  destruct (disk w2 !! storeFile p) as [[|[text|doc]]|]; simpl; try done;
    by destruct (Js.mentions _ _).
Qed.

(** C10. [getLocalStore] turns a read failure into the empty mapping exactly
    when the failure's message carries 'Unexpected end of input' (the
    engine's diagnostic for an empty or truncated file); any other read
    failure, a missing file included, is thrown to the caller as it is; and
    a store is returned only from a readable document or from such a
    failure. *)
Theorem getLocalStore_read_failure (w : World) (p : Fs.path) :
  path (self w) = Some p →
  (∀ text, disk w !! storeFile p = Some (Fs.File (Fs.Raw text)) →
     getLocalStore syntaxErrorMessage w =
       if Js.mentions (syntaxErrorMessage text) endOfInput
       then (w, Return ∅)
       else (w, Throw (mkError (syntaxErrorMessage text)))) ∧
  (∀ e, readJsonSync syntaxErrorMessage (storeFile p) w = (w, Throw e) →
     Js.mentions (message e) endOfInput = false →
     getLocalStore syntaxErrorMessage w = (w, Throw e)) ∧
  (disk w !! storeFile p = None →
     Js.mentions (message (Fs.ENOENT (storeFile p))) endOfInput = false →
     getLocalStore syntaxErrorMessage w = (w, Throw (Fs.ENOENT (storeFile p)))) ∧
  (∀ w' store, getLocalStore syntaxErrorMessage w = (w', Return store) →
     disk w !! storeFile p = Some (Fs.File (Fs.Json store)) ∨
     store = ∅ ∧ ∃ e, readJsonSync syntaxErrorMessage (storeFile p) w = (w, Throw e) ∧
                      Js.mentions (message e) endOfInput = true).
Proof.
  intros Hp. rewrite (getLocalStore_unfold _ _ Hp). split_and!.
  - intros text Hd. unfold readJsonSync. rewrite Hd. done.
  - intros e He Hm. rewrite He. simpl. by rewrite Hm.
  - intros Hd Hm. unfold readJsonSync. rewrite Hd. cbn -[Fs.ENOENT Js.mentions]. by rewrite Hm.
  - intros w' store. unfold readJsonSync.
    destruct (disk w !! storeFile p) as [[|[text|doc]]|]; simpl;
      try (destruct (Js.mentions _ _) eqn:Hm; [|done]; intros [= <- <-]; right; eauto).
    intros [= <- <-]. by left.
Qed.

Lemma getLocalStore_moved w1 w2 p r :
  path (self w1) = Some p → path (self w2) = Some p → disk w1 = disk w2 →
  getLocalStore syntaxErrorMessage w1 = (w1, r) →
  getLocalStore syntaxErrorMessage w2 = (w2, r).
Proof.
  intros H1 H2 Hd. rewrite (getLocalStore_unfold _ _ H1), (getLocalStore_unfold _ _ H2).
  unfold readJsonSync. rewrite Hd.
  destruct (disk w2 !! storeFile p) as [[|[text|doc]]|]; simpl;
    try (destruct (Js.mentions _ _)); by intros [= <-].
Qed.

Lemma getLocalStore_written w p store :
  path (self w) = Some p →
  disk w !! storeFile p = Some (Fs.File (Fs.Json store)) →
  getLocalStore syntaxErrorMessage w = (w, Return store).
Proof.
  intros Hp Hd. rewrite (getLocalStore_unfold _ _ Hp). unfold readJsonSync. by rewrite Hd.
Qed.

Lemma outputFile_lookup file c d d' :
  Fs.outputFile file c d = Return d' → d' !! file = Some (Fs.File c).
Proof.
  unfold Fs.outputFile. destruct (d !! file) as [[|c0]|]; [done| |].
  - intros [= <-]. apply lookup_insert_eq.
  - destruct (Fs.mkdirpSync _ d); [|done]. intros [= <-]. apply lookup_insert_eq.
Qed.

Lemma outputFile_writable file c d :
  Fs.writable file d = true → ∃ d', Fs.outputFile file c d = Return d'.
Proof.
  unfold Fs.writable, Fs.outputFile. destruct (d !! file) as [[|c0]|]; [done|eauto|].
  destruct (Fs.mkdirpSync _ d); [eauto|done].
Qed.

Lemma writeEntry_assigning :
  assigning (writeAssignment metadataHelper) (writeEntry metadataHelper).
Proof.
  intros s fp. unfold writeEntry, writeAssignment, storeKey, deref.
  destruct (getTypeByPath _ _), (FileProperty.fullName fp); simpl; try done.
  by destruct (Js.lacks _ _).
Qed.

Lemma updateEntry_assigning :
  assigning (updateAssignment metadataHelper normalize) (updateEntry metadataHelper normalize).
Proof.
  intros s fp. unfold updateEntry, updateAssignment.
  destruct (resolveType _ _ fp) as [[fp' mt]|e]; [|done].
  by destruct (entryKey fp' mt) as [[key|]|e].
Qed.

Lemma assignedKey_write fp :
  assignedKey (writeAssignment metadataHelper) fp = storeKey metadataHelper fp.
Proof.
  unfold assignedKey, writeAssignment, storeKey.
  destruct (FileProperty.fullName fp); [|by destruct (getTypeByPath _ _)].
  destruct (getTypeByPath _ _); [|done]. by destruct (Js.lacks _ _).
Qed.

Lemma omap_assignedKey_write (props : list FileProperty.t) :
  omap (assignedKey (writeAssignment metadataHelper)) props = omap (storeKey metadataHelper) props.
Proof.
  induction props as [|fp props IH]; [done|].
  cbn [omap list_omap]. rewrite assignedKey_write.
  destruct (storeKey metadataHelper fp); [f_equal|]; apply IH.
Qed.

(** C2. [_writeLocalStore(props)] followed by [getLocalStore()] returns a
    store that holds, for every property whose type is found from its file
    name and whose full name does not mention package.xml, an entry under
    [fullName.suffix] with [mmState] 'clean'; every entry of the store is
    such a property (so unresolved properties, the manifest and anything the
    store held before are absent); and with pairwise distinct keys there is
    exactly one entry per such property. *)
Theorem writeLocalStore_then_getLocalStore (w : World) (p : Fs.path)
    (props : list FileProperty.t) :
  path (self w) = Some p →
  Forall (λ fp, is_Some (FileProperty.fullName fp)) props →
  Fs.writable (storeFile p) (disk w) = true →
  ∃ w' store,
    (_writeLocalStore metadataHelper props ≫= λ _, getLocalStore syntaxErrorMessage) w
      = (w', Return store) ∧
    (∀ fp mt fullName,
       fp ∈ props →
       getTypeByPath metadataHelper (FileProperty.fileName fp) = Some mt →
       FileProperty.fullName fp = Some fullName →
       Js.lacks fullName "package.xml" = true →
       ∃ v, store !! (fullName +:+ "." +:+ Js.toStr (suffix mt)) = Some v ∧
            FileProperty.mmState v = Some "clean") ∧
    (∀ k v, store !! k = Some v →
       ∃ fp, fp ∈ props ∧ storeKey metadataHelper fp = Some k ∧
             v = FileProperty.set_mmState "clean" fp) ∧
    (NoDup (omap (storeKey metadataHelper) props) →
       size store = length (omap (storeKey metadataHelper) props)).
Proof.
  intros Hp Hfull Hw.
  destruct (each_total _ _ writeEntry_assigning props ∅) as [store Hstore].
  { eapply Forall_impl; [exact Hfull|]. intros fp [fn Hfn].
    unfold writeAssignment. rewrite Hfn. eauto. }
  destruct (outputFile_writable _ (Fs.Json store) _ Hw) as [d' Hd'].
  exists (with_disk d' (logged (Fs.OutputFile (storeFile p)) w)), store. split_and!.
  - unfold _writeLocalStore, liftResult, mbind, M_bind at 1 2 3 4. rewrite Hstore.
    unfold getSelf. rewrite Hp. simpl. unfold catch, outputFile, fsCall, Fs.join. simpl.
    rewrite Hd'. apply (getLocalStore_written _ p); [done|]. simpl.
    eapply outputFile_lookup, Hd'.
  - intros fp mt fn Hin Hmt Hfn Hlacks.
    destruct (each_written _ _ writeEntry_assigning _ _ _ fp
                (fn +:+ "." +:+ Js.toStr (suffix mt)) (FileProperty.set_mmState "clean" fp)
                Hstore Hin) as (fp' & v' & Hin' & Hfp' & Hv').
    { unfold writeAssignment, storeKey. by rewrite Hfn, Hmt, Hlacks. }
    exists v'. split; [done|]. unfold writeAssignment in Hfp'.
    destruct (FileProperty.fullName fp'); [|done].
    destruct (storeKey metadataHelper fp'); simpl in Hfp'; [|done].
    by inversion Hfp'.
  - intros k v Hk.
    destruct (each_lookup _ _ writeEntry_assigning _ _ _ _ _ Hstore Hk) as [Hempty|(fp & Hin & Hfp)];
      [by rewrite lookup_empty in Hempty|].
    exists fp. unfold writeAssignment in Hfp.
    destruct (FileProperty.fullName fp); [|done].
    destruct (storeKey metadataHelper fp); simpl in Hfp; [|done].
    by inversion Hfp.
  - intros Hnd.
    rewrite (each_size _ _ writeEntry_assigning _ _ _ Hstore).
    + by rewrite map_size_empty, omap_assignedKey_write.
    + by rewrite omap_assignedKey_write.
    + intros; apply lookup_empty.
Qed.

(** C3. [updateLocalStore(props)] merges into the store it reads: after it,
    whether it resolved or rejected, every entry whose key is not derived
    from a property of [props] is as it was, and any entry that differs is
    the assignment made for a property of [props]; with a store file on
    disk it resolves whenever no property makes the loop throw. *)
Theorem updateLocalStore_frame (w : World) (p : Fs.path) (S : LocalStore)
    (props : list FileProperty.t) :
  path (self w) = Some p →
  getLocalStore syntaxErrorMessage w = (w, Return S) →
  ∃ w' r S',
    updateLocalStore metadataHelper syntaxErrorMessage normalize props w = (w', r) ∧
    getLocalStore syntaxErrorMessage w' = (w', Return S') ∧
    (∀ k, (∀ fp, fp ∈ props → updateKey metadataHelper normalize fp ≠ Some k) →
          S' !! k = S !! k) ∧
    (∀ k v, S' !! k = Some v →
          S !! k = Some v ∨
          ∃ fp, fp ∈ props ∧
                updateAssignment metadataHelper normalize fp = Return (Some (k, v))) ∧
    (is_Some (disk w !! storeFile p ≫= λ e, if e is Fs.File _ then Some e else None) →
     Forall (λ fp, ∃ kv, updateAssignment metadataHelper normalize fp = Return kv) props →
     r = Return tt).
Proof.
  intros Hp Hget.
  unfold updateLocalStore, mbind, M_bind at 1 2 3 4. rewrite Hget.
  unfold liftResult.
  destruct (each (updateEntry metadataHelper normalize) props S) as [S'|e] eqn:Hloop.
  2:{ exists w, (Throw e), S. split_and!; try done; [by left|].
      intros _ Hall. destruct (each_total _ _ updateEntry_assigning props S Hall) as [? Heq].
      congruence. }
  unfold getSelf. rewrite Hp. simpl. unfold outputFile, fsCall, Fs.join. simpl.
  destruct (Fs.outputFile (storeFile p) (Fs.Json S') (disk w)) as [d'|e] eqn:Hout.
  - eexists _, _, S'. split_and!; [done| | | |done].
    + apply (getLocalStore_written _ p); [done|]. simpl. eapply outputFile_lookup, Hout.
    + intros k Hk. apply (each_frame _ _ updateEntry_assigning _ _ _ _ Hloop).
      intros fp v Hin Hfp. apply (Hk fp Hin). unfold updateKey. by rewrite Hfp.
    + intros k v. apply (each_lookup _ _ updateEntry_assigning _ _ _ _ _ Hloop).
  - eexists _, _, S. split_and!; [done| |done|by left|].
    + eapply getLocalStore_moved; [exact Hp|done|done|exact Hget].
    + intros Hfile _. exfalso. unfold Fs.outputFile in Hout.
      destruct (disk w !! storeFile p) as [[|c]|]; simpl in Hfile;
        try done; by destruct Hfile.
Qed.

End LocalStoreFacts.

(** ** Replacing local files *)

Section ReplaceFacts.

Import Project.

Implicit Types (d : Fs.disk) (p q : Fs.path) (w : World).

Lemma removeSync_run p w :
  removeSync p w = (with_disk (Fs.removeSync p (disk w)) (logged (Fs.RemoveSync p) w), Return tt).
Proof. done. Qed.

Lemma fsCall_run c g w d' :
  g (disk w) = Return d' →
  fsCall c g w = (with_disk d' (logged c w), Return tt).
Proof. unfold fsCall. simpl. by intros ->. Qed.

(** The two calls that put a staged file in place. *)
Lemma place_run w dir b f c :
  disk w !! f = Some (Fs.File c) →
  (∀ q, q `prefix_of` dir → notFile (disk w) q) →
  ¬ (dir ++ [b]) `prefix_of` f →
  ∃ w', (removeSync (dir ++ [b]);; copySync f (dir ++ [b])) w = (w', Return tt) ∧
        self w' = self w ∧
        ∀ q, disk w' !! q =
               if decide (q = dir ++ [b]) then Some (Fs.File c)
               else if decide (q `prefix_of` dir) then Some Fs.Dir
               else if decide ((dir ++ [b]) `prefix_of` q) then None
               else disk w !! q.
Proof.
  intros Hf Hclear Hnf.
  destruct (copySync_file f dir b c (Fs.removeSync (dir ++ [b]) (disk w))) as (d' & Hcopy & Hlook).
  - rewrite removeSync_lookup. by rewrite decide_False.
  - intros q Hq. unfold notFile. rewrite removeSync_lookup. case_decide; [done|by apply Hclear].
  - rewrite removeSync_lookup. by rewrite decide_True.
  - eexists. split_and!.
    + unfold mbind, M_bind. rewrite removeSync_run. unfold copySync.
      erewrite fsCall_run; [done|]. exact Hcopy.
    + done.
    + intros q. simpl. rewrite Hlook, removeSync_lookup. done.
Qed.

Lemma staged_dirname (root rel : Fs.path) b :
  Fs.dirname (root ++ rel ++ [b]) = root ++ rel.
Proof. unfold Fs.dirname. by rewrite app_assoc, removelast_last. Qed.

Lemma staged_basename (root rel : Fs.path) b :
  Fs.basename (root ++ rel ++ [b]) = b.
Proof. unfold Fs.basename. by rewrite app_assoc, last_last. Qed.

(** The text of the source root is a replacement text: in the name of a
    project [$&] stands for the text of the staging root. *)
Example destinationDirectory_of_matched_text :
  destinationDirectory ["tmp"; "mm_1"; "unpackaged"] ["tmp"; "ws"; "P$&1"; "src"]
    ["tmp"; "mm_1"; "unpackaged"; "classes"]
  = ["tmp"; "ws"; "P"; "tmp"; "mm_1"; "unpackaged1"; "src"; "classes"].
Proof. reflexivity. Qed.

(** The directory of a staged file goes where it is below the source root,
    when the text of the source root stands for itself. *)
Lemma destinationDirectory_staged (root src rel : Fs.path) :
  root ≠ [] → src ≠ [] → Js.literal (Fs.show src) = true →
  Fs.proper src → Fs.proper rel →
  destinationDirectory root src (root ++ rel) = src ++ rel.
Proof.
  intros Hroot Hsrc Hlit Hp Hrel. unfold destinationDirectory.
  rewrite (show_below (root ++ rel)) by (by destruct root).
  rewrite below_app, <- (show_below root) by done.
  rewrite replace_front by done.
  rewrite (show_below src), <- below_app, <- show_below by (by destruct src).
  apply ofText_show, Forall_app. done.
Qed.

Lemma destination_staged (root src rel : Fs.path) b :
  root ≠ [] → src ≠ [] → Js.literal (Fs.show src) = true →
  Fs.proper src → Fs.proper rel →
  destination root src (root ++ rel ++ [b]) = (src ++ rel) ++ [b].
Proof.
  intros. unfold destination.
  by rewrite staged_dirname, staged_basename, destinationDirectory_staged.
Qed.

(** The listener, for a file below the staging root. *)
Lemma onFile_unfold root flag w ws nm rel b :
  workspace (self w) = Some ws → name (self w) = Some nm →
  root ≠ [] → Js.literal (Fs.show (ws ++ [nm; "src"])) = true →
  Fs.proper (ws ++ [nm; "src"]) → Fs.proper rel →
  onFile root flag (root ++ rel ++ [b]) w =
    let dir := (ws ++ [nm; "src"]) ++ rel in
    ((if Fs.existsSync (disk w) dir then mret tt else mkdirpSync dir);;
     (if replaced flag (root ++ rel ++ [b])
      then removeSync (dir ++ [b]);; copySync (root ++ rel ++ [b]) (dir ++ [b])
      else mret tt)) w.
Proof.
  intros Hws Hnm Hroot Hlit Hsrc Hrel. unfold onFile, replaced.
  rewrite staged_dirname, staged_basename.
  unfold mbind at 1, M_bind at 1, getSelf. rewrite Hws, Hnm.
  change (pathJoin (Some ws) [Some nm; Some "src"]) with (mret (M := M) (ws ++ [nm; "src"])).
  unfold Fs.join. unfold mbind at 1, M_bind at 1, mret at 1, M_ret at 1.
  rewrite destinationDirectory_staged by (done || by destruct ws).
  unfold mbind at 1, M_bind at 1, existsSync at 1.
  destruct flag, (String.eqb b "package.xml"); done.
Qed.

Lemma onFile_run root flag w ws nm rel b c :
  workspace (self w) = Some ws → name (self w) = Some nm →
  root ≠ [] → Js.literal (Fs.show (ws ++ [nm; "src"])) = true →
  Fs.proper (ws ++ [nm; "src"]) → Fs.proper rel →
  let dir := (ws ++ [nm; "src"]) ++ rel in
  let file := root ++ rel ++ [b] in
  disk w !! file = Some (Fs.File c) →
  (∀ q, q `prefix_of` dir → notFile (disk w) q) →
  ¬ (dir ++ [b]) `prefix_of` file →
  ¬ file `prefix_of` dir →
  ∃ w', onFile root flag file w = (w', Return tt) ∧
        self w' = self w ∧
        (replaced flag file = true → disk w' !! (dir ++ [b]) = Some (Fs.File c)) ∧
        ∀ q, disk w' !! q = disk w !! q
           ∨ (q `prefix_of` dir ∧ disk w' !! q = Some Fs.Dir)
           ∨ (replaced flag file = true ∧ (dir ++ [b]) `prefix_of` q ∧ q ≠ dir ++ [b] ∧
              disk w' !! q = None)
           ∨ (replaced flag file = true ∧ q = dir ++ [b]).
Proof.
  intros Hws Hnm Hroot Hlit Hsrc Hrel dir file Hfile Hclear Hnt Hnd.
  pose proof (onFile_unfold root flag w ws nm rel b Hws Hnm Hroot Hlit Hsrc Hrel) as Hu. cbv zeta in Hu.
  change (root ++ rel ++ [b]) with file in Hu.
  change ((ws ++ [nm; "src"]) ++ rel) with dir in Hu.
  rewrite Hu. clear Hu.
  assert (∃ w1, (if Fs.existsSync (disk w) dir then mret tt else mkdirpSync dir) w = (w1, Return tt) ∧
                self w1 = self w ∧
                ∀ q, disk w1 !! q = disk w !! q ∨ (q `prefix_of` dir ∧ disk w1 !! q = Some Fs.Dir))
    as (w1 & Hrun1 & Hself1 & Hlook1).
  { destruct (Fs.existsSync (disk w) dir); [exists w; split_and!; auto|].
    destruct (mkdirpSync_spec dir (disk w) Hclear) as (d1 & Hd1 & Hl).
    eexists. split_and!; [by apply fsCall_run|done|].
    intros q. simpl. rewrite Hl. case_decide; auto. }
  unfold mbind, M_bind at 1. rewrite Hrun1.
  destruct (replaced flag file) eqn:Hrep.
  - destruct (place_run w1 dir b file c) as (w' & Hrun & Hself & Hlook).
    + destruct (Hlook1 file) as [->|[? _]]; done.
    + intros q Hq. unfold notFile. destruct (Hlook1 q) as [->|[_ ->]]; [by apply Hclear|done].
    + done.
    + exists w'. split_and!; [done|congruence| |].
      * intros _. rewrite Hlook. by rewrite decide_True.
      * intros q. rewrite Hlook. repeat case_decide; subst; auto 10.
        destruct (Hlook1 q) as [->|[? ?]]; auto.
  - exists w1. split_and!; [done..|]. intros q. destruct (Hlook1 q); auto.
Qed.

Lemma forEach_cons {A} (body : A → M unit) a l w :
  forEach body (a :: l) w =
    match body a w with
    | (w', Return _) => forEach body l w'
    | (w', Throw e) => (w', Throw e)
    end.
Proof. done. Qed.

(** In a well-formed disk whatever is above an entry is a directory. *)
Lemma wellFormed_above d p k e :
  wellFormed d → d !! (p ++ k) = Some e → k ≠ [] → d !! p = Some Fs.Dir.
Proof.
  intros Hwf. revert e. induction k as [|s k IH] using rev_ind; intros e He Hk; [done|].
  destruct (Hwf _ _ He) as [Hnil|Hdir].
  { by destruct p, k. }
  unfold Fs.dirname in Hdir. rewrite app_assoc, removelast_last in Hdir.
  assert (d !! (p ++ k) = Some Fs.Dir) as Hdir'.
  { by destruct (d !! (p ++ k)) as [[|c]|]. }
  clear Hdir. rename Hdir' into Hdir.
  destruct k as [|s' k'] using rev_ind; [by rewrite app_nil_r in Hdir|].
  eapply IH; [done|]. by destruct k'.
Qed.

Lemma elem_of_filesUnder root d f :
  f ∈ Fs.filesUnder root d ↔ root `prefix_of` f ∧ ∃ c, d !! f = Some (Fs.File c).
Proof.
  unfold Fs.filesUnder. rewrite list_elem_of_fmap. split.
  - intros ([f' e] & -> & Hin). apply elem_of_map_to_list in Hin.
    apply map_lookup_filter_Some in Hin as (Hf & Hpre & Hfile). simpl in *.
    split; [done|]. destruct e; [done|eauto].
  - intros (Hpre & c & Hf). exists (f, Fs.File c). split; [done|].
    apply elem_of_map_to_list, map_lookup_filter_Some. done.
Qed.

Section Walk.

Context (root ws src : Fs.path) (nm : string) (flag : bool) (w0 : World)
  (files : list Fs.path).

Local Abbreviation d0 := (disk w0).

Hypothesis Hws : workspace (self w0) = Some ws.
Hypothesis Hnm : name (self w0) = Some nm.
Hypothesis Hsrc : src = ws ++ [nm; "src"].
Hypothesis Hapart1 : ¬ root `prefix_of` src.
Hypothesis Hapart2 : ¬ src `prefix_of` root.
Hypothesis Hlit : Js.literal (Fs.show src) = true.
Hypothesis Hproper : Fs.proper src.
Hypothesis Hstaged :
  ∀ f, f ∈ files →
       ∃ rel b c, f = root ++ rel ++ [b] ∧ d0 !! f = Some (Fs.File c) ∧ Fs.proper rel.
Hypothesis Hflat : ∀ f f', f ∈ files → f' ∈ files → f `prefix_of` f' → f = f'.
Hypothesis Hclear :
  ∀ rel b, root ++ rel ++ [b] ∈ files → ∀ q, q `prefix_of` src ++ rel → notFile d0 q.

Lemma root_ne : root ≠ [].
Proof. intros ->. apply Hapart1, prefix_nil. Qed.

Lemma src_ne : src ≠ [].
Proof. rewrite Hsrc. by destruct ws. Qed.

Lemma staged_destination rel b :
  Fs.proper rel → destination root src (root ++ rel ++ [b]) = (src ++ rel) ++ [b].
Proof. intros. apply destination_staged; auto using root_ne, src_ne. Qed.

Lemma apart q : root `prefix_of` q → src `prefix_of` q → False.
Proof.
  intros H1 H2. destruct (prefix_weak_total _ _ _ H1 H2); [by apply Hapart1|by apply Hapart2].
Qed.

Local Abbreviation walking := (Project.walking root src flag w0 files).
Local Abbreviation placed := (Project.placed root src flag w0 files).

Lemma destination_prefix rel b rel' b' :
  (src ++ rel) ++ [b] `prefix_of` (src ++ rel') ++ [b'] →
  root ++ rel ++ [b] `prefix_of` root ++ rel' ++ [b'].
Proof.
  rewrite <- !app_assoc. intros H. by apply prefix_app, (prefix_app_inv src).
Qed.

Lemma destination_above rel b rel' :
  (src ++ rel) ++ [b] `prefix_of` src ++ rel' →
  root ++ rel ++ [b] `prefix_of` root ++ rel'.
Proof.
  rewrite <- !app_assoc. intros H. by apply prefix_app, (prefix_app_inv src).
Qed.

Lemma staged_not_above rel b rel' b' :
  root ++ rel ++ [b] ∈ files → root ++ rel' ++ [b'] ∈ files →
  ¬ (src ++ rel) ++ [b] `prefix_of` src ++ rel'.
Proof.
  intros Hf Hf' Hpre. apply destination_above in Hpre.
  assert (root ++ rel ++ [b] = root ++ rel' ++ [b']) as Heq.
  { apply Hflat; [done..|]. etrans; [exact Hpre|]. by apply prefix_app, prefix_app_r. }
  rewrite Heq in Hpre. rewrite !app_assoc in Hpre. by apply prefix_snoc_not in Hpre.
Qed.

Lemma walking_clear w rel b :
  walking w → root ++ rel ++ [b] ∈ files →
  ∀ q, q `prefix_of` src ++ rel → notFile (disk w) q.
Proof.
  intros (_ & _ & Hfiles & _) Hf q Hq Hfile. unfold notFile in Hfile.
  destruct (disk w !! q) as [[|c]|] eqn:E; simpl in Hfile; try done.
  destruct (Hfiles _ _ E) as [[c' Hc']|(f' & Hf' & ->)].
  - apply (Hclear _ _ Hf q Hq). by rewrite Hc'.
  - destruct (Hstaged _ Hf') as (rel' & b' & _ & -> & _ & Hrel').
    rewrite staged_destination in Hq by done. exact (staged_not_above rel' b' rel b Hf' Hf Hq).
Qed.

Lemma onFile_walking D w f :
  walking w → placed D w → f ∈ files →
  ∃ w', onFile root flag f w = (w', Return tt) ∧ walking w' ∧ placed (λ x, D x ∨ x = f) w'.
Proof.
  intros Hwalk Hplaced Hf.
  destruct (Hstaged _ Hf) as (rel & b & c & -> & Hc & Hrel).
  pose proof Hwalk as (Hself & Hroot & Hfiles & Hmanifest).
  assert (workspace (self w) = Some ws) as Hws' by (by rewrite Hself).
  assert (name (self w) = Some nm) as Hnm' by (by rewrite Hself).
  destruct (onFile_run root flag w ws nm rel b c Hws' Hnm') as (w' & Hrun & Hself' & Hput & Hlook).
  - apply root_ne.
  - by rewrite <- Hsrc.
  - by rewrite <- Hsrc.
  - done.
  - rewrite Hroot; [done|]. by apply prefix_app_r.
  - rewrite <- Hsrc. by apply (walking_clear w rel b).
  - rewrite <- Hsrc. intros Hpre. eapply (apart (root ++ rel ++ [b])); [by apply prefix_app_r|].
    etrans; [|exact Hpre]. rewrite <- app_assoc. by apply prefix_app_r.
  - rewrite <- Hsrc. intros Hpre. eapply (apart (src ++ rel)); [|by apply prefix_app_r].
    etrans; [|exact Hpre]. by apply prefix_app_r.
  - rewrite <- Hsrc in Hput, Hlook.
    exists w'. split; [done|]. split; [split_and!|].
    + congruence.
    + intros q Hq. destruct (Hlook q) as [->|[[Hpre _]|[(_ & Hpre & _)|[_ ->]]]]; [by apply Hroot|..];
        exfalso.
      * eapply (apart (src ++ rel)); [by etrans|by apply prefix_app_r].
      * eapply (apart q); [done|]. etrans; [|exact Hpre]. rewrite <- app_assoc. by apply prefix_app_r.
      * eapply (apart ((src ++ rel) ++ [b])); [done|]. rewrite <- app_assoc. by apply prefix_app_r.
    + intros q c' Hq. destruct (Hlook q) as [Heq|[[_ Hdir]|[(_ & _ & _ & Hnone)|[_ ->]]]];
        [rewrite Heq in Hq; by eapply Hfiles|congruence|congruence|].
      right. exists (root ++ rel ++ [b]). by rewrite staged_destination.
    + intros Hflag c' Hc'. specialize (Hmanifest Hflag c' Hc').
      destruct (Hlook (src ++ ["package.xml"])) as [->|[[Hpre _]|[(Hrep & Hpre & _)|[Hrep Heq]]]];
        [done|exfalso..].
      * apply (walking_clear w rel b Hwalk Hf _ Hpre). by rewrite Hmanifest.
      * rewrite <- app_assoc in Hpre. apply prefix_app_inv in Hpre.
        destruct Hpre as [k Hk]. unfold replaced in Hrep. rewrite staged_basename, Hflag in Hrep.
        destruct rel as [|r [|r' rel]]; simplify_eq/=; done.
      * rewrite <- app_assoc in Heq. apply app_inv_head in Heq.
        unfold replaced in Hrep. rewrite staged_basename, Hflag in Hrep.
        destruct rel as [|r [|r' rel]]; simplify_eq/=; done.
    + intros f' HD Hf' Hrep'.
      destruct (Hstaged _ Hf') as (rel' & b' & c' & -> & Hc' & Hrel').
      destruct (decide (rel' ++ [b'] = rel ++ [b])) as [Hsame|Hdiff].
      { apply app_inj_tail in Hsame as [-> ->].
        rewrite staged_destination, Hput by done. congruence. }
      rewrite staged_destination by done.
      destruct (Hlook ((src ++ rel') ++ [b'])) as [Heq|[[Hpre _]|[(_ & Hpre & _)|[_ Heq]]]].
      * rewrite Heq. destruct HD as [HD|Heq'].
        -- rewrite <- (staged_destination rel' b') by done. by apply Hplaced.
        -- exfalso. apply Hdiff. by apply app_inv_head in Heq'.
      * exfalso. exact (staged_not_above rel' b' rel b Hf' Hf Hpre).
      * exfalso. apply Hdiff. apply destination_prefix in Hpre.
        apply Hflat in Hpre; [|done..]. apply app_inv_head in Hpre. done.
      * exfalso. apply Hdiff. rewrite <- !app_assoc in Heq. by apply app_inv_head in Heq.
Qed.

Lemma forEach_walking l D w :
  walking w → placed D w → (∀ f, f ∈ l → f ∈ files) →
  ∃ w', forEach (onFile root flag) l w = (w', Return tt) ∧
        walking w' ∧ placed (λ x, D x ∨ x ∈ l) w'.
Proof.
  revert D w. induction l as [|f l IH]; intros D w Hwalk Hplaced Hl.
  - exists w. split_and!; [done..|]. intros f [HD|Hin]; [by apply Hplaced|by inversion Hin].
  - destruct (onFile_walking D w f Hwalk Hplaced) as (w1 & Hrun1 & Hwalk1 & Hplaced1).
    { apply Hl. left. }
    destruct (IH _ w1 Hwalk1 Hplaced1) as (w' & Hrun & Hwalk' & Hplaced').
    { intros f' Hf'. apply Hl. by right. }
    exists w'. rewrite forEach_cons, Hrun1. split_and!; [done..|].
    intros f' HD. apply Hplaced'. rewrite elem_of_cons in HD. tauto.
Qed.

Lemma walking_start : walking w0.
Proof. split_and!; eauto. Qed.

End Walk.

(** A walk that reports files only runs their listeners in turn and then
    the listener of 'end'. *)
Lemma listen_files root flag files rejected w :
  listen root flag (FileEvent <$> files) rejected w =
    match forEach (onFile root flag) files w with
    | (w1, Return _) => onEnd root rejected w1
    | (w1, Throw uncaught) => (w1, settled rejected (Pending uncaught))
    end.
Proof.
  revert w. induction files as [|f files IH]; intros w; [done|].
  rewrite forEach_cons. cbn [fmap list_fmap listen].
  destruct (onFile root flag f w) as [w1 [[]|e]]; [apply IH|done].
Qed.


End ReplaceFacts.

(** ** Initialisation and retrieval workflows *)

Section WorkflowFacts.

Import Project.

Context (metadataHelper : MetadataHelper).
Context (syntaxErrorMessage : string → string).
Context (normalize : FileProperty.t → FileProperty.t).
Context (normalizeLeaves : FileProperty.t → option FileProperty.t).
Context (sfdcClient : SalesforceClient).
Context (mm_workspace : WorkspaceSetting).
Context (packageInit : Fs.path → External Subscription).
Context (_initConfig : External unit).
Context (_getSettings _getCachedSession _writeSession : External unit).
Context (indexWithSelections _refreshDescribeFromServer : External unit).
Context (tempMkdirSync : External Fs.path).
Context (zipDirectory : Fs.path → Fs.path → External unit).

Implicit Types (w : World).

Lemma existsSync_true d p : is_Some (d !! p) → Fs.existsSync d p = true.
Proof. intros. by apply bool_decide_eq_true. Qed.

Lemma existsSync_false d (p : Fs.path) : d !! p = None → Fs.existsSync d p = false.
Proof. intros H. apply bool_decide_eq_false. rewrite H. by intros []. Qed.

(** Unfolds the plumbing of a computation, leaving the disk calls. *)
Ltac run :=
  repeat (progress (unfold mbind, M_bind, mret, M_ret, getSelf, modifySelf, throw,
                    existsSync, existsSync', pathJoin, catch, call, uuid_v1; simpl)).

Ltac run_in H :=
  repeat (progress (unfold mbind, M_bind, mret, M_ret, getSelf, modifySelf, throw,
                    existsSync, existsSync', pathJoin, catch, call, uuid_v1 in H; simpl in H)).

(** C5. Initialising a new project in a workspace whose directory exists or
    can be made, when no entry is at workspace/name, resolves with the id
    [uuid.v1] generates from the clock, assigns it to the project and
    advances the clock, so that no later id equals it; with an entry at
    workspace/name the same initialisation rejects with 'Directory already
    exists!' and leaves the id of the project as it was. *)
Theorem initNew_fresh_then_taken (ws : Fs.path) (nm : string) (w w2 : World) :
  workspace (self w) = Some ws → name (self w) = Some nm →
  workspace (self w2) = Some ws → name (self w2) = Some nm →
  disk w !! (ws ++ [nm]) = None →
  is_Some (disk w !! ws) ∨ disk w !! Fs.dirname ws = Some Fs.Dir →
  is_Some (disk w2 !! (ws ++ [nm])) →
  is_Some (disk w2 !! ws) →
  (∃ w', _initNew mm_workspace w = (w', Return (V1 (clock w))) ∧
         id (self w') = Some (V1 (clock w)) ∧
         path (self w') = Some (ws ++ [nm]) ∧
         clock w' = S (clock w) ∧
         ∀ w'', (clock w' ≤ clock w'')%nat → (uuid_v1 w'').2 ≠ Return (V1 (clock w))) ∧
  (∃ w2', _initNew mm_workspace w2 = (w2', Throw (mkError "Directory already exists!")) ∧
          id (self w2') = id (self w2) ∧
          disk w2' = disk w2 ∧
          clock w2' = clock w2).
Proof.
  intros Hws Hnm Hws2 Hnm2 Hfree Hroom Htaken Hws2'. split.
  - assert (∀ d : Fs.disk, d !! (ws ++ [nm]) = None → <[ws:=Fs.Dir]> d !! (ws ++ [nm]) = None) as Hkeep.
    { intros d Hd. rewrite lookup_insert_ne; [done|].
      intros Heq. apply (f_equal length) in Heq. rewrite length_app in Heq. simpl in Heq. lia. }
    unfold _initNew. run. rewrite Hws. run.
    destruct (Fs.existsSync (disk w) ws) eqn:Hex.
    + rewrite Hws, Hnm. run. unfold Fs.join. rewrite (existsSync_false _ _ Hfree).
      eexists. split; [done|]. simpl. split_and!; try done.
      intros w'' Hle Heq. inversion Heq. lia.
    + apply bool_decide_eq_false in Hex. destruct Hroom as [?|Hdir]; [done|].
      assert (disk w !! ws = None) as Hnone.
      { destruct (disk w !! ws) eqn:E; [|done]. exfalso. apply Hex. eauto. }
      unfold mkdirSync, fsCall, Fs.mkdirSync. simpl. rewrite Hnone, Hdir.
      simpl. rewrite Hws, Hnm. run. unfold Fs.join.
      rewrite (existsSync_false _ _ (Hkeep _ Hfree)).
      eexists. split; [done|]. simpl. split_and!; try done.
      intros w'' Hle Heq. inversion Heq. lia.
  - unfold _initNew. run. rewrite Hws2. run. rewrite (existsSync_true _ _ Hws2').
    rewrite Hws2, Hnm2. run. unfold Fs.join. rewrite (existsSync_true _ _ Htaken).
    eexists. split; [done|]. done.
Qed.

Lemma removeSync_gone (p : Fs.path) (d : Fs.disk) : Fs.removeSync p d !! p = None.
Proof. rewrite removeSync_lookup. by rewrite decide_True. Qed.

Lemma existsSync_None (d : Fs.disk) (p : Fs.path) : Fs.existsSync d p = false → d !! p = None.
Proof.
  intros H. apply bool_decide_eq_false in H. destruct (d !! p); [|done].
  exfalso. apply H. eauto.
Qed.

Lemma wrote_refl l : wrote l l.
Proof. exists []. split; [by rewrite app_nil_r|set_solver]. Qed.

Lemma wrote_one l p : wrote l (l ++ [Fs.OutputFile p]).
Proof. eexists [_]. split; [done|]. intros ? ->%list_elem_of_singleton. eauto. Qed.

Lemma wrote_not_in l0 l c :
  wrote l0 l → c ∈ l → (∀ p, c ≠ Fs.OutputFile p) → c ∈ l0.
Proof.
  intros (cs & -> & Hcs) [Hin|Hin]%elem_of_app Hc; [done|].
  destruct (Hcs _ Hin) as [p ->]. by destruct (Hc p).
Qed.

(** [_writeLocalStore] changes the disk and adds to the log at most a call
    of [fs.outputFile]. *)
Lemma wp_writeLocalStore props Q w :
  (∀ d l r, wrote (calls w) l → Q r (mkWorld d l (self w) (clock w))) →
  wp (_writeLocalStore metadataHelper props) Q w.
Proof.
  intros HQ. destruct w as [d0 l0 s0 clk0]. unfold _writeLocalStore. wp_go.
  all: apply HQ; first [apply wrote_refl | apply wrote_one].
Qed.

(** So does [setDescribe], which may also assign the snapshot. *)
Lemma wp_setDescribe snapshot Q w :
  (∀ d l s r, wrote (calls w) l →
              s = self w ∨ s = with_describe (Some snapshot) (self w) →
              Q r (mkWorld d l s (clock w))) →
  wp (setDescribe snapshot) Q w.
Proof.
  intros HQ. destruct w as [d0 l0 s0 clk0]. unfold setDescribe. wp_go.
  all: apply HQ; [first [apply wrote_refl | apply wrote_one] | auto].
Qed.

(** A call that is not [fs.outputFile] is not in a log that it was never
    added to. *)
Ltac not_logged Hin :=
  repeat (apply elem_of_app in Hin as [Hin|Hin]);
  try (apply list_elem_of_singleton in Hin; discriminate);
  repeat match goal with
         | H : wrote _ _ |- _ =>
             apply (wrote_not_in _ _ _ H) in Hin; [clear H|done];
             repeat (apply elem_of_app in Hin as [Hin|Hin]);
             try (apply list_elem_of_singleton in Hin; discriminate)
         end;
  try by inversion Hin.

Ltac wp_all :=
  repeat first
    [ wp_step
    | apply wp_setDescribe; intros ? ? ? [[]|?] ? [->| ->]
    | apply wp_writeLocalStore; intros ? ? [[]|?] ? ].


(** When the loop of the merge has run through, every object of the array
    is left as its round leaves it. *)
Lemma afterLoop_total (props : list FileProperty.t) (S S' : LocalStore) :
  each (updateEntry metadataHelper normalize) props S = Return S' →
  ∃ merged,
    afterLoop metadataHelper normalize normalizeLeaves props = Return merged ∧
    Forall2 (λ fp fp', afterUpdate metadataHelper normalize normalizeLeaves fp = Return fp')
      props merged.
Proof.
  revert S. induction props as [|fp props IH]; intros S; simpl.
  - intros _. by exists [].
  - destruct (updateEntry metadataHelper normalize S fp) as [S1|e] eqn:Hround; [|done].
    intros (merged & Hmerged & Hall)%IH.
    assert (∃ fp', afterUpdate metadataHelper normalize normalizeLeaves fp = Return fp')
      as [fp' Hfp'].
    { unfold updateEntry in Hround. unfold afterUpdate.
      destruct (resolveType _ _ fp) as [[fp1 mt]|]; [|done].
      destruct (entryKey fp1 mt); [eauto|done]. }
    exists (fp' :: merged). rewrite Hfp', Hmerged. split; [done|by constructor].
Qed.

(** C6, as the code has it. After a successful deploy [compile] resolves
    with the deploy result when the response carries no retrieve result, and
    when it carries one and [updateLocalStore] has merged its file
    properties into the local store: the result it resolves with is the one
    of the deploy, its file properties being as the loop of the merge left
    them. When that merge fails, [compile] rejects with the error of the
    merge; and a deploy result without details makes it reject with a
    TypeError. *)
Theorem compile_returns_deploy_result_after_merge (w w1 : World) (r : DeployResult) :
  deployArchive sfdcClient tempMkdirSync zipDirectory w = (w1, Return r) →
  let compiled :=
    compile metadataHelper syntaxErrorMessage normalize normalizeLeaves sfdcClient
      tempMkdirSync zipDirectory w in
  (details r = None → compiled = (w1, Throw (TypeError "retrieveResult"))) ∧
  (∀ dt, details r = Some dt → retrieveResult dt = None → compiled = (w1, Return r)) ∧
  (∀ dt rr w2, details r = Some dt → retrieveResult dt = Some rr →
     updateLocalStore metadataHelper syntaxErrorMessage normalize (fileProperties rr) w1
       = (w2, Return tt) →
     ∃ merged,
       compiled = (w2, Return (with_fileProperties merged r)) ∧
       Forall2 (λ fp fp', afterUpdate metadataHelper normalize normalizeLeaves fp = Return fp')
         (fileProperties rr) merged) ∧
  (∀ dt rr w2 e, details r = Some dt → retrieveResult dt = Some rr →
     updateLocalStore metadataHelper syntaxErrorMessage normalize (fileProperties rr) w1
       = (w2, Throw e) →
     compiled = (w2, Throw e)).
Proof.
  intros Hdeploy compiled. subst compiled.
  assert (compile metadataHelper syntaxErrorMessage normalize normalizeLeaves sfdcClient
            tempMkdirSync zipDirectory w
          = mergeRetrieved metadataHelper syntaxErrorMessage normalize normalizeLeaves r w1)
    as ->.
  { unfold compile, mbind, M_bind. by rewrite Hdeploy. }
  unfold mergeRetrieved. split_and!.
  - by intros ->.
  - by intros dt -> ->.
  - intros dt rr w2 -> -> Hmerge.
    assert (∃ S S', each (updateEntry metadataHelper normalize) (fileProperties rr) S = Return S')
      as (S & S' & Hloop).
    { unfold updateLocalStore, mbind, M_bind, liftResult in Hmerge.
      destruct (getLocalStore syntaxErrorMessage w1) as [w' [S|e]]; [|done].
      destruct (each _ (fileProperties rr) S) as [S'|e] eqn:Hloop; [eauto|done]. }
    destruct (afterLoop_total _ _ _ Hloop) as (merged & Hmerged & Hall).
    exists merged. split; [|done].
    unfold mbind, M_bind, liftResult, mret, M_ret. by rewrite Hmerge, Hmerged.
  - intros dt rr w2 e -> -> Hmerge. unfold mbind, M_bind. by rewrite Hmerge.
Qed.

Lemma getLocalStore_world w : (getLocalStore syntaxErrorMessage w).1 = w.
Proof.
  unfold getLocalStore, mbind, M_bind, getSelf, catch, pathJoin, readJsonSync.
  destruct (path (self w)); simpl; [|done].
  destruct (disk w !! _) as [[|[text|doc]]|]; simpl; try done;
    by destruct (Js.mentions _ _).
Qed.

Lemma wp_getLocalStore Q w :
  (∀ r, (getLocalStore syntaxErrorMessage w).2 = r → Q r w) →
  wp (getLocalStore syntaxErrorMessage) Q w.
Proof. intros HQ. unfold wp. rewrite getLocalStore_world. by apply HQ. Qed.

(** The first step of a chain that rejects ends it with its error. *)
Lemma chain_first_failure (before after : list (M unit)) (step : M unit) w w1 w2 e :
  chain before w = (w1, Return tt) →
  step w1 = (w2, Throw e) →
  chain (before ++ step :: after) w = (w2, Throw e).
Proof.
  revert w. induction before as [|first before IH]; intros w; cbn [chain app].
  - intros [= <-] Hstep. unfold mbind, M_bind. by rewrite Hstep.
  - unfold mbind, M_bind. destruct (first w) as [w0 [[]|e0]]; [|done].
    apply IH.
Qed.

(** C7. Whichever step of the chain of [_initExisting] is the first to
    fail, the operation rejects with the error of that step; and whatever
    makes [_initExisting] reject, the rejection carries the error of what
    failed, unchanged, the project's [valid] flag being then [false] exactly
    when the message of that error mentions INVALID_LOGIN, EXPIRED_PASSWORD
    or LOGIN_MUST_USE_SECURITY_TOKEN, and otherwise what it was before the
    call; when it resolves the flag is [true]. *)
Theorem initExisting_marks_authentication_failures (w : World) :
  (∀ p before step after w1 w2 e,
     path (self w) = Some p →
     is_Some (disk w !! (p ++ ["config"; ".settings"])) →
     is_Some (disk w !! p) →
     initExistingSteps syntaxErrorMessage sfdcClient packageInit _getSettings
       _getCachedSession _writeSession indexWithSelections _refreshDescribeFromServer
       = before ++ step :: after →
     chain before
       (with_self (with_name (Some (Fs.basename p))
                     (with_workspace (Some (Fs.dirname p)) (self w))) w)
       = (w1, Return tt) →
     step w1 = (w2, Throw e) →
     ∃ w', _initExisting syntaxErrorMessage sfdcClient packageInit _getSettings
             _getCachedSession _writeSession indexWithSelections _refreshDescribeFromServer w
             = (w', Throw e) ∧
           disk w' = disk w2 ∧
           valid (self w') = if authenticationFailure e then Some false else valid (self w)) ∧
  (∀ w' r,
     _initExisting syntaxErrorMessage sfdcClient packageInit _getSettings _getCachedSession
       _writeSession indexWithSelections _refreshDescribeFromServer w = (w', r) →
     match r with
     | Return _ => valid (self w') = Some true
     | Throw e =>
         valid (self w') = (if authenticationFailure e then Some false else valid (self w)) ∧
         (e = invalidDirectory ∨
          e = joinError ∨
          (∃ w1, (getLocalStore syntaxErrorMessage w1).2 = Throw e) ∨
          (∃ manifest, failureOf [packageInit manifest] e) ∨
          failureOf [_getSettings; _getCachedSession; initialize sfdcClient; _writeSession;
                     indexWithSelections; _refreshDescribeFromServer;
                     startSystemStreamingListener sfdcClient] e)
     end).
Proof.
  assert (∀ w' r,
     _initExisting syntaxErrorMessage sfdcClient packageInit _getSettings _getCachedSession
       _writeSession indexWithSelections _refreshDescribeFromServer w = (w', r) →
     match r with
     | Return _ => valid (self w') = Some true
     | Throw e =>
         valid (self w') = (if authenticationFailure e then Some false else valid (self w)) ∧
         (e = invalidDirectory ∨
          e = joinError ∨
          (∃ w1, (getLocalStore syntaxErrorMessage w1).2 = Throw e) ∨
          (∃ manifest, failureOf [packageInit manifest] e) ∨
          failureOf [_getSettings; _getCachedSession; initialize sfdcClient; _writeSession;
                     indexWithSelections; _refreshDescribeFromServer;
                     startSystemStreamingListener sfdcClient] e)
     end) as Hany.
  { intros w' r Hrun.
    refine (wp_run _ (λ r w', match r with
                             | Return _ => valid (self w') = Some true
                             | Throw e => _ ∧ _
                             end) w w' r _ Hrun).
    clear Hrun. destruct w as [d0 l0 [p0 ws0 nm0 o0 i0 v0 pk0 ds0] clk0].
    unfold _initExisting, _isValid, initExistingChain, initExistingSteps, markInvalid.
    cbn [chain].
    repeat first [wp_step | apply wp_getLocalStore; intros [?|?] ?].
    all: try done.
    all: split;
      [ repeat match goal with
               | H : authenticationFailure _ = _ |- _ => rewrite H; clear H
               end; done
      | first
          [ by left
          | by right; left
          | right; right; left; eexists; eassumption
          | right; right; right; left; eexists; eexists _, _, _; (split; [|eassumption]);
            apply list_elem_of_here
          | right; right; right; right; eexists _, _, _; (split; [|eassumption]);
            repeat first [apply list_elem_of_here | apply list_elem_of_further] ] ]. }
  split; [|exact Hany].
  intros p before step after w1 w2 e Hp Hsettings Hdir Hsteps Hbefore Hstep.
  assert (_initExisting syntaxErrorMessage sfdcClient packageInit _getSettings _getCachedSession
            _writeSession indexWithSelections _refreshDescribeFromServer w
          = ((markInvalid e w2).1, Throw e)) as Hrun.
  { clear Hany. destruct w as [d0 l0 [p0 ws0 nm0 o0 i0 v0 pk0 ds0] clk0].
    simpl in Hp, Hsettings, Hdir. subst p0.
    unfold _initExisting, _isValid. run. unfold Fs.join.
    rewrite (existsSync_true _ _ Hsettings). run. rewrite (existsSync_true _ _ Hdir). run.
    unfold initExistingChain. unfold mbind at 1, M_bind at 1.
    rewrite Hsteps.
    rewrite (chain_first_failure before after step _ w1 w2 e); [|exact Hbefore|exact Hstep].
    unfold markInvalid. by destruct (authenticationFailure e). }
  eexists. split; [exact Hrun|]. split.
  - unfold markInvalid. by destruct (authenticationFailure e).
  - exact (proj1 (Hany _ _ Hrun)).
Qed.

Lemma wrote_in l0 l (c : Fs.call) : wrote l0 l → c ∈ l0 → c ∈ l.
Proof. intros (cs & -> & _) Hin. apply elem_of_app. by left. Qed.

(** Finds a call in a log that grew from one that has it. *)
Ltac logged_in :=
  repeat first
    [ apply list_elem_of_here
    | apply elem_of_app; right; apply list_elem_of_singleton; reflexivity
    | apply elem_of_app; left
    | match goal with H : wrote _ ?l |- _ ∈ ?l => apply (wrote_in _ _ _ H) end ].

Lemma snoc_ne (l : Fs.path) (x : string) : l ≠ l ++ [x].
Proof.
  intros Heq. apply (f_equal length) in Heq. rewrite length_app in Heq. simpl in Heq. lia.
Qed.

(** Refutes that a call is in a log that never got it. *)
Ltac refute Hin :=
  repeat (apply elem_of_app in Hin as [Hin|Hin]);
  first
    [ by inversion Hin
    | apply list_elem_of_singleton in Hin;
      first [ discriminate
            | injection Hin as Hin; rewrite ?app_nil_r in Hin; by apply snoc_ne in Hin ]
    | match goal with
      | H : wrote _ _ |- _ =>
          apply (wrote_not_in _ _ _ H) in Hin; [clear H; refute Hin|done]
      end ].

(** C8. When [_initNewProjectFromExistingDirectory] rejects, it has called
    [removeSync] on workspace/name only if the origin differs from
    workspace/name and it had copied the origin there in this very call;
    with the origin at workspace/name the directory is never removed. *)
Theorem initFromDirectory_removes_only_its_copy (ws : Fs.path) (nm : string)
    (w w' : World) (e : Error) :
  workspace (self w) = Some ws → name (self w) = Some nm → calls w = [] →
  _initNewProjectFromExistingDirectory metadataHelper sfdcClient packageInit _initConfig w
    = (w', Throw e) →
  (Fs.RemoveSync (ws ++ [nm]) ∈ calls w' →
     origin (self w) ≠ ws ++ [nm] ∧ Fs.CopySync (origin (self w)) (ws ++ [nm]) ∈ calls w') ∧
  (origin (self w) = ws ++ [nm] → Fs.RemoveSync (ws ++ [nm]) ∉ calls w').
Proof.
  intros Hws Hnm Hcalls Hrun.
  cut (Fs.RemoveSync (ws ++ [nm]) ∈ calls w' →
       origin (self w) ≠ ws ++ [nm] ∧ Fs.CopySync (origin (self w)) (ws ++ [nm]) ∈ calls w').
  { intros H. split; [done|]. intros Heq Hin. by destruct (H Hin). }
  refine (wp_run _ (λ r w', match r with
                           | Throw _ => Fs.RemoveSync (ws ++ [nm]) ∈ calls w' → _ ∧ _
                           | Return _ => True
                           end) w w' (Throw e) _ Hrun).
  clear Hrun. destruct w as [d0 l0 [p0 ws0 nm0 o0 i0 v0 pk0 ds0] clk0].
  simpl in *. subst ws0 nm0 l0.
  unfold _initNewProjectFromExistingDirectory. wp_go.
  all: try by (intros Hin; inversion Hin).
  all: unfold initFromDirectoryChain; wp_all.
  all: try done.
  all: wp_simpl_hyps.
  all: intros Hin; first [split; [assumption|logged_in; fail] | exfalso; refute Hin].
Qed.

End WorkflowFacts.

(** ** Selections in the org metadata index *)

Section SelectionFacts.

Import Project.

Context (metadataHelper : MetadataHelper).
Context (shows : string → IndexNode → bool).

Implicit Types (n c : IndexNode) (idx : list IndexNode) (ids : list string).

Lemma childGrows_refl c : childGrows c c.
Proof. by split. Qed.

Lemma childGrows_trans c1 c2 c3 : childGrows c1 c2 → childGrows c2 c3 → childGrows c1 c3.
Proof. intros [H1 H2] [H3 H4]. split; [congruence|auto]. Qed.

Lemma nodeGrows_refl n : nodeGrows n n.
Proof.
  split_and!; try done. destruct (node_children n); [|done].
  apply Forall2_same_length_lookup_2; [done|]. intros i c c' H1 H2.
  simplify_eq. apply childGrows_refl.
Qed.

Lemma nodeGrows_trans n1 n2 n3 : nodeGrows n1 n2 → nodeGrows n2 n3 → nodeGrows n1 n3.
Proof.
  intros (H1 & H2 & H3 & H4) (H5 & H6 & H7 & H8). split_and!; [congruence..|auto|].
  destruct (node_children n1), (node_children n2), (node_children n3); try done.
  eapply Forall2_trans; [|done..]. apply childGrows_trans.
Qed.

Lemma grows_refl idx : grows idx idx.
Proof.
  apply Forall2_same_length_lookup_2; [done|]. intros i n n' H1 H2.
  simplify_eq. apply nodeGrows_refl.
Qed.

Lemma grows_trans idx1 idx2 idx3 : grows idx1 idx2 → grows idx2 idx3 → grows idx1 idx3.
Proof. apply Forall2_trans, nodeGrows_trans. Qed.

Lemma grows_fmap (f : IndexNode → IndexNode) idx :
  (∀ n, nodeGrows n (f n)) → grows idx (f <$> idx).
Proof. intros Hf. apply Forall2_fmap_r, Forall_Forall2_diag, Forall_forall. auto. Qed.

Lemma grows_updateFirst p (f : IndexNode → IndexNode) idx :
  (∀ n, nodeGrows n (f n)) → grows idx (updateFirst p f idx).
Proof.
  intros Hf. induction idx as [|n idx IH]; simpl; [constructor|].
  destruct (p n).
  - constructor; [apply Hf|apply grows_refl].
  - constructor; [apply nodeGrows_refl|apply IH].
Qed.

Lemma children_fmap_grow (f : IndexNode → IndexNode) (cs : list IndexNode) :
  (∀ c, childGrows c (f c)) → Forall2 childGrows cs (f <$> cs).
Proof. intros Hf. apply Forall2_fmap_r, Forall_Forall2_diag, Forall_forall. auto. Qed.

Lemma children_updateFirst_grow p (f : IndexNode → IndexNode) (cs : list IndexNode) :
  (∀ c, childGrows c (f c)) → Forall2 childGrows cs (updateFirst p f cs).
Proof.
  intros Hf. induction cs as [|c cs IH]; simpl; [constructor|].
  destruct (p c); constructor; auto using childGrows_refl.
  apply Forall_Forall2_diag, Forall_forall. auto using childGrows_refl.
Qed.

Lemma nodeGrows_selectChildren n : nodeGrows n (selectChildren n).
Proof.
  unfold selectChildren. destruct (node_children n) as [cs|] eqn:E; [|apply nodeGrows_refl].
  split_and!; try done. simpl. rewrite E. apply children_fmap_grow. by intros c.
Qed.

Lemma childGrows_selectTwoLevels c : childGrows c (selectTwoLevels c).
Proof. unfold selectTwoLevels. by destruct (node_children c). Qed.

Lemma nodeGrows_inChildren n p :
  nodeGrows n (inChildren (updateFirst p selectTwoLevels) n).
Proof.
  unfold inChildren. destruct (node_children n) as [cs|] eqn:E; [|apply nodeGrows_refl].
  split_and!; try done. simpl. rewrite E.
  apply children_updateFirst_grow, childGrows_selectTwoLevels.
Qed.

Lemma setCheckedNode_grows ids n : nodeGrows n (setCheckedNode ids n).
Proof.
  destruct n as [i x s v cs]. split_and!; try done.
  - simpl. intros ->. by destruct (idAmong ids i).
  - simpl. destruct cs as [cs|]; [|done]. simpl.
    apply Forall2_fmap_r, Forall_Forall2_diag, Forall_forall. intros [i' x' s' v' cs'] _.
    split; [done|]. simpl. intros ->. by destruct (idAmong ids i').
Qed.

Lemma ensureParentsNode_grows n : nodeGrows n (ensureParentsNode n).
Proof.
  destruct n as [i x s v cs]. split_and!; try done.
  - simpl. intros ->. by destruct (existsb _ _).
  - simpl. destruct cs as [cs|]; [|done]. simpl.
    apply Forall2_fmap_r, Forall_Forall2_diag, Forall_forall. intros [i' x' s' v' cs'] _.
    split; [done|]. simpl. intros ->. by destruct (existsb _ _).
Qed.

Lemma setVisibilityNode_grows keyword n : nodeGrows n (setVisibilityNode shows keyword n).
Proof.
  destruct n as [i x s v cs]. split_and!; try done.
  simpl. destruct cs as [cs|]; [|done]. simpl.
  apply Forall2_fmap_r, Forall_Forall2_diag, Forall_forall. by intros [i' x' s' v' cs'] _.
Qed.

(** Selections once made stay: the property of the type-level node is kept
    by anything that only adds selections. *)
Lemma childrenSelected_grows T idx idx' :
  grows idx idx' → childrenSelected T idx → childrenSelected T idx'.
Proof.
  intros Hg HP. induction Hg as [|n n' idx idx' Hn Hg IH]; [done|].
  intros m Hfind c Hc. simpl in Hfind.
  destruct Hn as (Hid & Hx & Hs & Hcs).
  assert (hasXmlName T n' = hasXmlName T n) as Hsame by (unfold hasXmlName; by rewrite Hx).
  rewrite Hsame in Hfind. destruct (hasXmlName T n) eqn:Hn.
  - simplify_eq. unfold childrenOf in Hc.
    destruct (node_children n) as [cs|] eqn:E1, (node_children m) as [cs'|] eqn:E2;
      simpl in *; try done; [|by inversion Hc].
    apply list_elem_of_lookup in Hc as [i Hi].
    destruct (Forall2_lookup_r _ _ _ _ _ Hcs Hi) as (c0 & Hc0 & [_ Hgrow]).
    apply Hgrow, (HP n); [simpl; by rewrite Hn|].
    unfold childrenOf. rewrite E1. simpl. by eapply list_elem_of_lookup_2.
  - assert (childrenSelected T idx) as HP'.
    { intros m' Hm'. apply HP. simpl. by rewrite Hn. }
    exact (IH HP' m Hfind c Hc).
Qed.

Lemma childrenSelected_updateFirst T idx :
  childrenSelected T (updateFirst (hasXmlName T) selectChildren idx).
Proof.
  induction idx as [|n idx IH]; [done|].
  intros m Hfind c Hc. simpl in Hfind. destruct (hasXmlName T n) eqn:Hn.
  - simpl in Hfind.
    assert (hasXmlName T (selectChildren n) = true) as Hsel.
    { unfold selectChildren. by destruct (node_children n). }
    rewrite Hsel in Hfind. simplify_eq.
    unfold childrenOf, selectChildren in Hc. destruct (node_children n) as [cs|] eqn:E; simpl in Hc.
    + apply list_elem_of_fmap in Hc as (c0 & -> & _). done.
    + rewrite E in Hc. by inversion Hc.
  - simpl in Hfind. rewrite Hn in Hfind. exact (IH m Hfind c Hc).
Qed.

Lemma selectMember_grows T mt parent (st : list IndexNode * list string) member :
  grows st.1 (selectMember T mt parent st member).1 ∧
  ∀ i, i ∈ st.2 → i ∈ (selectMember T mt parent st member).2.
Proof.
  destruct st as [idx ids]. unfold selectMember.
  repeat case_match; simpl; (split; [|set_solver]); try apply grows_refl.
  apply grows_updateFirst. intros n. apply nodeGrows_inChildren.
Qed.

Lemma foldl_selectMember_grows T mt parent members (st : list IndexNode * list string) :
  grows st.1 (foldl (selectMember T mt parent) st members).1 ∧
  ∀ i, i ∈ st.2 → i ∈ (foldl (selectMember T mt parent) st members).2.
Proof.
  revert st. induction members as [|member members IH]; intros st; simpl.
  - split; [apply grows_refl|done].
  - destruct (selectMember_grows T mt parent st member) as [H1 H2].
    destruct (IH (selectMember T mt parent st member)) as [H3 H4].
    split; [by eapply grows_trans|auto].
Qed.

Lemma selectType_grows (st : list IndexNode * list string * option Error) entry :
  grows st.1.1 (selectType metadataHelper st entry).1.1 ∧
  (∀ i, i ∈ st.1.2 → i ∈ (selectType metadataHelper st entry).1.2) ∧
  (is_Some (getTypeByXmlName metadataHelper entry.1) →
   (selectType metadataHelper st entry).2 = st.2).
Proof.
  destruct st as [[idx ids] rejected], entry as [T members]. unfold selectType. simpl.
  destruct (getTypeByXmlName metadataHelper T) as [mt|]; simpl.
  - destruct members as [|members]; simpl.
    + split_and!; [|set_solver|done]. apply grows_updateFirst, nodeGrows_selectChildren.
    + pose proof (foldl_selectMember_grows T mt
                    (parentXmlName mt ≫= getTypeByXmlName metadataHelper) members (idx, ids))
        as [H1 H2].
      destruct (foldl _ _ _) as [idx' ids']. simpl in *. done.
  - split_and!; [apply grows_refl|done|]. by intros [? ?].
Qed.

Lemma foldl_selectType_grows subscription (st : list IndexNode * list string * option Error) :
  Forall (λ entry, is_Some (getTypeByXmlName metadataHelper entry.1)) subscription →
  grows st.1.1 (foldl (selectType metadataHelper) st subscription).1.1 ∧
  (∀ i, i ∈ st.1.2 → i ∈ (foldl (selectType metadataHelper) st subscription).1.2) ∧
  (foldl (selectType metadataHelper) st subscription).2 = st.2.
Proof.
  intros Hknown. revert st.
  induction Hknown as [|entry subscription Hentry _ IH]; intros st; simpl.
  - split_and!; [apply grows_refl|done..].
  - destruct (selectType_grows st entry) as (H1 & H2 & H3).
    destruct (IH (selectType metadataHelper st entry)) as (H4 & H5 & H6).
    split_and!; [by eapply grows_trans|auto|]. rewrite H6. auto.
Qed.

(** A wildcard entry puts the name of its type among the ids and selects
    the children of the type-level node; later entries keep both. *)
Lemma foldl_selectType_wildcard T subscription
    (st : list IndexNode * list string * option Error) :
  (T, Wildcard) ∈ subscription →
  Forall (λ entry, is_Some (getTypeByXmlName metadataHelper entry.1)) subscription →
  T ∈ (foldl (selectType metadataHelper) st subscription).1.2 ∧
  childrenSelected T (foldl (selectType metadataHelper) st subscription).1.1.
Proof.
  intros Hin Hknown. revert st Hin.
  induction Hknown as [|entry subscription Hentry Hknown IH]; intros st Hin;
    [by inversion Hin|].
  simpl. apply elem_of_cons in Hin as [Heq|Hin]; [subst entry|by apply IH].
  destruct (foldl_selectType_grows subscription (selectType metadataHelper st (T, Wildcard)) Hknown)
    as (H1 & H2 & _).
  destruct st as [[idx ids] rejected]. simpl in Hentry. destruct Hentry as [mt Hmt].
  unfold selectType in H1, H2 |- *. rewrite Hmt in H1, H2 |- *. simpl in H1, H2. split.
  - apply H2, elem_of_app. right. apply list_elem_of_here.
  - eapply childrenSelected_grows; [exact H1|]. apply childrenSelected_updateFirst.
Qed.

Lemma setChecked_selects ids idx n T :
  n ∈ setChecked idx ids → node_id n = Some T → T ∈ ids → node_select n = Some true.
Proof.
  unfold setChecked. intros (m & -> & _)%list_elem_of_fmap Hid HT.
  destruct m as [i x s v cs]. simpl in *. subst i. simpl.
  by rewrite bool_decide_eq_true_2.
Qed.

Lemma grows_selected idx idx' n' T :
  grows idx idx' → n' ∈ idx' → node_id n' = Some T →
  (∀ n, n ∈ idx → node_id n = Some T → node_select n = Some true) →
  node_select n' = Some true.
Proof.
  intros Hg Hin Hid Hsel. apply list_elem_of_lookup in Hin as [i Hi].
  destruct (Forall2_lookup_r _ _ _ _ _ Hg Hi) as (n & Hn & Hid' & _ & Hs & _).
  apply Hs, Hsel; [by eapply list_elem_of_lookup_2|congruence].
Qed.

(** C9, as the code has it. With an index on disk, no explicit ids, and a
    descriptor all of whose types the registry knows and which has a
    wildcard entry for [T], the call resolves with the index it read, in
    which the children of the type-level node of [T] (the first node whose
    xmlName is [T]) are all selected and every node whose id is [T] is
    selected; ids and xmlNames are those of the index read. *)
Theorem wildcard_selects_type_node (orgMetadata : list IndexNode)
    (subscription : Subscription) (customPackage : result Subscription)
    (keyword : option string) (T : string) :
  (T, Wildcard) ∈ subscription →
  Forall (λ entry, is_Some (getTypeByXmlName metadataHelper entry.1)) subscription →
  ∃ selected,
    getOrgMetadataIndexWithSelections metadataHelper shows (Some (Return orgMetadata))
      subscription customPackage keyword None None = Resolved selected ∧
    grows orgMetadata selected ∧
    childrenSelected T selected ∧
    ∀ n, n ∈ selected → node_id n = Some T → node_select n = Some true.
Proof.
  intros Hin Hknown. unfold getOrgMetadataIndexWithSelections.
  destruct (foldl_selectType_grows subscription (orgMetadata, [], None) Hknown) as (Hg & _ & Hrej).
  destruct (foldl_selectType_wildcard T subscription (orgMetadata, [], None) Hin Hknown)
    as [Hids Hsel].
  destruct (foldl _ _ subscription) as [[idx ids] rejected]. simpl in *. subst rejected.
  eexists. split; [done|].
  assert (grows idx (setChecked idx ids)) as H1.
  { apply grows_fmap, setCheckedNode_grows. }
  assert (grows (setChecked idx ids) (ensureParentsAreCheckedIfNecessary (setChecked idx ids)))
    as H2.
  { apply grows_fmap, ensureParentsNode_grows. }
  set (checked := ensureParentsAreCheckedIfNecessary (setChecked idx ids)) in *.
  assert (grows checked (if Js.truthy keyword
                         then setVisibility shows checked (Js.toStr keyword)
                         else checked)) as H3.
  { destruct (Js.truthy keyword); [|apply grows_refl].
    apply grows_fmap, setVisibilityNode_grows. }
  pose proof (grows_trans _ _ _ H2 H3) as H23.
  split_and!.
  - eauto using grows_trans.
  - eapply childrenSelected_grows; [|exact Hsel]. eauto using grows_trans.
  - intros n Hn Hid. eapply (grows_selected _ _ _ T H23 Hn Hid).
    intros m Hm Hmid. by eapply setChecked_selects.
Qed.

End SelectionFacts.
(** ** The local store: failures, repeated keys, repeated merges *)

Section EachMore.

Import Project.

Context {A : Type} (f : A → result (option (string * FileProperty.t))).
Context (body : LocalStore → A → result LocalStore) (Hbody : assigning f body).

Lemma each_app l1 l2 s :
  each body (l1 ++ l2) s =
    match each body l1 s with
    | Return s' => each body l2 s'
    | Throw e => Throw e
    end.
Proof.
  revert s. induction l1 as [|a l1 IH]; intros s; simpl; [done|].
  destruct (body s a); [apply IH|done].
Qed.

(** The loop stops at the first element that throws. *)
Lemma each_throws l1 a l2 s e :
  Forall (λ a, ∃ kv, f a = Return kv) l1 → f a = Throw e →
  each body (l1 ++ a :: l2) s = Throw e.
Proof.
  intros Hl1 Ha. rewrite each_app.
  destruct (each_total f body Hbody l1 s Hl1) as [s' ->]. simpl.
  by rewrite Hbody, Ha.
Qed.

Lemma each_returns l s s' :
  each body l s = Return s' → Forall (λ a, ∃ kv, f a = Return kv) l.
Proof.
  revert s. induction l as [|a l IH]; intros s Hrun; [constructor|].
  simpl in Hrun. rewrite Hbody in Hrun. destruct (f a) as [kv|e] eqn:Ha; [|done].
  constructor; [eauto|]. eapply IH, Hrun.
Qed.

(** What the loop leaves under a key depends on the store it starts from
    only when no element assigns the key. *)
Lemma each_same l s1 s2 s1' s2' k :
  each body l s1 = Return s1' → each body l s2 = Return s2' →
  s1 !! k = s2 !! k ∨ Exists (λ a, assignedKey f a = Some k) l →
  s1' !! k = s2' !! k.
Proof.
  revert s1 s2. induction l as [|a l IH]; intros s1 s2 H1 H2 Hk; simpl in H1, H2.
  - simplify_eq. destruct Hk as [?|Hk]; [done|by inversion Hk].
  - rewrite Hbody in H1, H2. unfold assignedKey in Hk, IH.
    destruct (f a) as [kv|e] eqn:Ha; [|done].
    apply (IH _ _ H1 H2).
    destruct kv as [[k' v]|]; simpl.
    + destruct (decide (k' = k)) as [->|Hne].
      * left. by rewrite !lookup_insert_eq.
      * rewrite !lookup_insert_ne by done.
        destruct Hk as [?|Hk]; [by left|]. right.
        apply Exists_cons in Hk as [Hk|?]; [|done]. rewrite Ha in Hk. congruence.
    + destruct Hk as [?|Hk]; [by left|]. right.
      apply Exists_cons in Hk as [Hk|?]; [|done]. by rewrite Ha in Hk.
Qed.

(** Running the loop again over its own result changes nothing. *)
Lemma each_again l s s' : each body l s = Return s' → each body l s' = Return s'.
Proof.
  intros Hrun.
  destruct (each_total f body Hbody l s' (each_returns _ _ _ Hrun)) as [s'' Hagain].
  rewrite Hagain. f_equal. apply map_eq. intros k.
  destruct (decide (Exists (λ a, assignedKey f a = Some k) l)) as [Hk|Hk].
  - symmetry. apply (each_same l s s' s' s'' k Hrun Hagain). by right.
  - apply (each_frame f body Hbody l s' s'' k Hagain).
    intros a v Hin Ha. apply Hk, Exists_exists. exists a. split; [done|].
    unfold assignedKey. by rewrite Ha.
Qed.

(** The last element that assigns a key decides its entry. *)
Lemma each_last l1 a l2 s s' k v :
  each body (l1 ++ a :: l2) s = Return s' →
  f a = Return (Some (k, v)) →
  Forall (λ a', assignedKey f a' ≠ Some k) l2 →
  s' !! k = Some v.
Proof.
  rewrite each_app. destruct (each body l1 s) as [s1|e]; [|done]. simpl.
  rewrite Hbody. intros Hrun Ha Hl2. rewrite Ha in Hrun. simpl in Hrun.
  rewrite (each_frame f body Hbody l2 _ s' k Hrun); [apply lookup_insert_eq|].
  intros a' v' Hin Ha'. eapply Forall_forall in Hl2; [|exact Hin].
  apply Hl2. unfold assignedKey. by rewrite Ha'.
Qed.

End EachMore.

Section LocalStoreMore.

Context (metadataHelper : MetadataHelper).
Context (syntaxErrorMessage : string → string).
Context (normalize : FileProperty.t → FileProperty.t).

Import Project.

Abbreviation storeFile p := (p ++ ["config"; ".local_store"]) (only parsing).
Abbreviation endOfInput := "Unexpected end of input" (only parsing).

(** X1. A property without a [fullName] makes [_writeLocalStore] reject with
    the TypeError of [fp.fullName.indexOf], whatever comes after it and
    although the properties before it were accepted: nothing is written and
    the store file is as it was. *)
Theorem writeLocalStore_rejects_without_fullName (w : World)
    (before after : list FileProperty.t) (fp : FileProperty.t) :
  Forall (λ fp, is_Some (FileProperty.fullName fp)) before →
  FileProperty.fullName fp = None →
  _writeLocalStore metadataHelper (before ++ fp :: after) w
    = (w, Throw (TypeError "indexOf")).
Proof.
  intros Hbefore Hfp. unfold _writeLocalStore, mbind, M_bind, liftResult.
  rewrite (each_throws _ _ (writeEntry_assigning metadataHelper) before fp after ∅
             (TypeError "indexOf")); [done| |].
  - eapply Forall_impl; [exact Hbefore|]. intros fp' [fn Hfn].
    unfold writeAssignment. rewrite Hfn. eauto.
  - unfold writeAssignment. by rewrite Hfp.
Qed.

(** X2. When several properties handed to [_writeLocalStore] have the same
    key, the store written holds the last of them under it. *)
Theorem writeLocalStore_last_wins (w : World) (p : Fs.path)
    (before after : list FileProperty.t) (fp : FileProperty.t) (k : string) :
  path (self w) = Some p →
  Forall (λ fp, is_Some (FileProperty.fullName fp)) (before ++ fp :: after) →
  Fs.writable (storeFile p) (disk w) = true →
  storeKey metadataHelper fp = Some k →
  Forall (λ fp', storeKey metadataHelper fp' ≠ Some k) after →
  ∃ w' store,
    _writeLocalStore metadataHelper (before ++ fp :: after) w = (w', Return tt) ∧
    disk w' !! storeFile p = Some (Fs.File (Fs.Json store)) ∧
    store !! k = Some (FileProperty.set_mmState "clean" fp).
Proof.
  intros Hp Hfull Hw Hk Hafter.
  destruct (each_total _ _ (writeEntry_assigning metadataHelper) (before ++ fp :: after) ∅)
    as [store Hstore].
  { eapply Forall_impl; [exact Hfull|]. intros fp' [fn Hfn].
    unfold writeAssignment. rewrite Hfn. eauto. }
  destruct (outputFile_writable _ (Fs.Json store) _ Hw) as [d' Hd'].
  exists (with_disk d' (logged (Fs.OutputFile (storeFile p)) w)), store. split_and!.
  - unfold _writeLocalStore, liftResult, mbind, M_bind. rewrite Hstore.
    unfold getSelf. rewrite Hp. simpl. unfold catch, outputFile, fsCall, Fs.join. simpl.
    by rewrite Hd'.
  - simpl. eapply outputFile_lookup, Hd'.
  - eapply (each_last _ _ (writeEntry_assigning metadataHelper)); [exact Hstore| |].
    + unfold writeAssignment. rewrite Hk.
      apply Forall_app in Hfull as [_ Hfull]. apply Forall_cons in Hfull as [[fn ->] _]. done.
    + eapply Forall_impl; [exact Hafter|]. intros fp' Hfp'. by rewrite assignedKey_write.
Qed.

(** X3. [updateLocalStore] does not create the store: when
    [config/.local_store] is missing it rejects with the error of the read,
    for any properties, and writes nothing. *)
Theorem updateLocalStore_needs_store (w : World) (p : Fs.path)
    (props : list FileProperty.t) :
  path (self w) = Some p →
  disk w !! storeFile p = None →
  Js.mentions (message (Fs.ENOENT (storeFile p))) endOfInput = false →
  updateLocalStore metadataHelper syntaxErrorMessage normalize props w
    = (w, Throw (Fs.ENOENT (storeFile p))).
Proof.
  intros Hp Hd Hm. unfold updateLocalStore, mbind, M_bind at 1.
  rewrite (getLocalStore_unfold _ _ _ Hp). unfold readJsonSync. rewrite Hd.
  cbn -[Fs.ENOENT Js.mentions]. by rewrite Hm.
Qed.

(** X4. A store file that is empty or cut short counts as an empty store:
    when no property makes the loop throw, [updateLocalStore] resolves and
    the file then holds a store all of whose entries were made for the
    properties handed in. *)
Theorem updateLocalStore_heals_truncated_store (w : World) (p : Fs.path) (text : string)
    (props : list FileProperty.t) :
  path (self w) = Some p →
  disk w !! storeFile p = Some (Fs.File (Fs.Raw text)) →
  Js.mentions (syntaxErrorMessage text) endOfInput = true →
  Forall (λ fp, ∃ kv, updateAssignment metadataHelper normalize fp = Return kv) props →
  ∃ w' store,
    updateLocalStore metadataHelper syntaxErrorMessage normalize props w = (w', Return tt) ∧
    disk w' !! storeFile p = Some (Fs.File (Fs.Json store)) ∧
    ∀ k v, store !! k = Some v →
      ∃ fp, fp ∈ props ∧ updateAssignment metadataHelper normalize fp = Return (Some (k, v)).
Proof.
  intros Hp Hd Hm Hprops. unfold updateLocalStore, mbind, M_bind at 1 2 3 4.
  rewrite (getLocalStore_unfold _ _ _ Hp). unfold readJsonSync. rewrite Hd. simpl.
  rewrite Hm. unfold liftResult.
  destruct (each_total _ _ (updateEntry_assigning metadataHelper normalize) props ∅ Hprops)
    as [store Hstore].
  rewrite Hstore. unfold getSelf. rewrite Hp. simpl.
  unfold outputFile, fsCall, Fs.outputFile, Fs.join. simpl. rewrite Hd.
  eexists _, store. split_and!; [done|apply lookup_insert_eq|].
  intros k v Hk.
  destruct (each_lookup _ _ (updateEntry_assigning metadataHelper normalize) _ _ _ _ _ Hstore Hk)
    as [Hempty|?]; [by rewrite lookup_empty in Hempty|done].
Qed.

(** X5. [updateLocalStore] is all or nothing: the first property that makes
    its loop throw decides the rejection, and the entries made for the
    properties before it are dropped with the rest, the store file being
    left as it was. *)
Theorem updateLocalStore_all_or_nothing (w : World) (S : LocalStore)
    (before after : list FileProperty.t) (fp : FileProperty.t) (e : Error) :
  getLocalStore syntaxErrorMessage w = (w, Return S) →
  Forall (λ fp, ∃ kv, updateAssignment metadataHelper normalize fp = Return kv) before →
  updateAssignment metadataHelper normalize fp = Throw e →
  updateLocalStore metadataHelper syntaxErrorMessage normalize (before ++ fp :: after) w
    = (w, Throw e).
Proof.
  intros Hget Hbefore Hfp. unfold updateLocalStore, mbind, M_bind at 1 2. rewrite Hget.
  unfold liftResult.
  by rewrite (each_throws _ _ (updateEntry_assigning metadataHelper normalize) before fp after S e).
Qed.

(** X6. Merging the same properties a second time changes nothing on disk:
    after [updateLocalStore(props)] has resolved, calling it again resolves
    and leaves every file, the store included, as the first call left it. *)
Theorem updateLocalStore_idempotent (w w1 : World) (p : Fs.path)
    (props : list FileProperty.t) :
  path (self w) = Some p →
  updateLocalStore metadataHelper syntaxErrorMessage normalize props w = (w1, Return tt) →
  ∃ w2,
    updateLocalStore metadataHelper syntaxErrorMessage normalize props w1 = (w2, Return tt) ∧
    disk w2 = disk w1 ∧ self w2 = self w1.
Proof.
  intros Hp. unfold updateLocalStore at 1. unfold mbind, M_bind at 1 2 3 4.
  pose proof (getLocalStore_world syntaxErrorMessage w) as Hw.
  destruct (getLocalStore syntaxErrorMessage w) as [w0 [S|e]]; simpl in Hw; subst w0; [|done].
  unfold liftResult.
  destruct (each (updateEntry metadataHelper normalize) props S) as [S'|e] eqn:Hloop; [|done].
  unfold getSelf. rewrite Hp. simpl. unfold outputFile, fsCall, Fs.join. simpl.
  destruct (Fs.outputFile (storeFile p) (Fs.Json S') (disk w)) as [d'|e] eqn:Hout; [|done].
  intros [= <-].
  pose proof (outputFile_lookup _ _ _ _ Hout) as Hfile.
  unfold updateLocalStore, mbind, M_bind at 1 2 3 4.
  rewrite (getLocalStore_written _ _ p S'); [|done..].
  unfold liftResult.
  rewrite (each_again _ _ (updateEntry_assigning metadataHelper normalize) _ _ _ Hloop).
  unfold getSelf. simpl. rewrite Hp. simpl. unfold outputFile, fsCall, Fs.outputFile, Fs.join.
  simpl. rewrite Hfile. eexists. split; [done|]. simpl. split; [|done].
  by apply insert_id.
Qed.

End LocalStoreMore.
(** ** The workflows: what they check first, and what they leave alone *)

Section WorkflowMore.

Import Project.

Context (metadataHelper : MetadataHelper).
Context (syntaxErrorMessage : string → string).
Context (normalize : FileProperty.t → FileProperty.t).
Context (normalizeLeaves : FileProperty.t → option FileProperty.t).
Context (sfdcClient : SalesforceClient).
Context (packageInit : Fs.path → External Subscription).
Context (_initConfig : External unit).
Context (_getSettings _getCachedSession _writeSession : External unit).
Context (indexWithSelections refreshDescribe : External unit).
Context (tempMkdirSync : External Fs.path).
Context (zipDirectory : Fs.path → Fs.path → External unit).

Implicit Types (w : World).

Ltac run :=
  repeat (progress (unfold mbind, M_bind, mret, M_ret, getSelf, modifySelf, throw,
                    existsSync, existsSync', pathJoin, catch, call, uuid_v1; simpl)).

(** Shows that a log grew by calls aimed below a root. *)
Ltac within_log :=
  unfold within; rewrite <- ?app_assoc; simpl;
  first
    [ exists []; split; [by rewrite app_nil_r|apply Forall_nil_2]
    | eexists; split; [reflexivity|];
      repeat first [apply Forall_nil_2 | apply Forall_cons_2; cbn [touched]];
      rewrite <- ?app_assoc, ?app_nil_r; simpl;
      solve [repeat first [apply prefix_nil | apply prefix_cons | apply prefix_app]] ].

(** X7. [compile] on a project without a [src] directory rejects with the
    error of the copy, before anything is zipped or deployed: the outcome is
    the same for every network client and every archiver. *)
Theorem compile_without_src (w : World) (p tmp : Fs.path) (d1 : Fs.disk) :
  path (self w) = Some p →
  tempMkdirSync (disk w) = (d1, Return tmp) →
  d1 !! (p ++ ["src"]) = None →
  compile metadataHelper syntaxErrorMessage normalize normalizeLeaves sfdcClient tempMkdirSync
    zipDirectory w
    = (logged (Fs.CopySync (p ++ ["src"]) (tmp ++ ["unpackaged"])) (with_disk d1 w),
       Throw (Fs.ENOENT (p ++ ["src"]))).
Proof.
  intros Hp Htmp Hsrc. unfold compile, deployArchive. run. rewrite Htmp. run. rewrite Hp.
  run. unfold copySync, fsCall, Fs.copySync, Fs.join. simpl. by rewrite Hsrc.
Qed.


Lemma initNew_configured (setting : WorkspaceSetting) (ws : Fs.path)
    (nm : string) (w : World) :
  workspace (self w) = None → name (self w) = Some nm →
  setting = WsString ws ∨ (∃ rest, setting = WsArray (ws :: rest)) →
  is_Some (disk w !! ws) ∨ disk w !! Fs.dirname ws = Some Fs.Dir →
  disk w !! (ws ++ [nm]) = None →
  ∃ w', _initNew setting w = (w', Return (V1 (clock w))) ∧
        workspace (self w') = Some ws ∧
        path (self w') = Some (ws ++ [nm]) ∧
        id (self w') = Some (V1 (clock w)) ∧
        is_Some (disk w' !! ws).
Proof.
  intros Hws Hnm Hsetting Hroom Hfree.
  assert (match setting with
          | WsArray l => head l
          | WsString p => Some p
          | WsOther => None
          end = Some ws) as Hconf.
  { destruct Hsetting as [->|[rest ->]]; done. }
  unfold _initNew. run. rewrite Hws, Hconf. run.
  destruct (Fs.existsSync (disk w) ws) eqn:Hex.
  - run. rewrite Hnm. run. unfold Fs.join. rewrite (existsSync_false _ _ Hfree).
    eexists. split; [done|]. simpl. split_and!; try done.
    by apply bool_decide_eq_true in Hex.
  - apply bool_decide_eq_false in Hex. destruct Hroom as [?|Hdir]; [done|].
    assert (disk w !! ws = None) as Hnone.
    { destruct (disk w !! ws) eqn:E; [|done]. exfalso. apply Hex. eauto. }
    unfold mkdirSync, fsCall, Fs.mkdirSync. simpl. rewrite Hnone, Hdir.
    simpl. rewrite Hnm. run. unfold Fs.join.
    rewrite existsSync_false.
    2:{ rewrite lookup_insert_ne; [done|]. apply snoc_ne. }
    eexists. split; [done|]. simpl. split_and!; try done.
    rewrite lookup_insert_eq. eauto.
Qed.

(** X9. Without a workspace of its own, [_initNew] takes the configured one
    (the string, or the first of the array), makes its directory when it is
    missing, and goes on as with a workspace given; with none configured
    (the setting is neither a string nor a non-empty array) it rejects with
    'Could not set workspace for new project' and the world is as it
    was. *)
Theorem initNew_workspace_setting (setting : WorkspaceSetting) (w : World) :
  workspace (self w) = None →
  (∀ ws nm,
     name (self w) = Some nm →
     setting = WsString ws ∨ (∃ rest, setting = WsArray (ws :: rest)) →
     is_Some (disk w !! ws) ∨ disk w !! Fs.dirname ws = Some Fs.Dir →
     disk w !! (ws ++ [nm]) = None →
     ∃ w', _initNew setting w = (w', Return (V1 (clock w))) ∧
           workspace (self w') = Some ws ∧
           path (self w') = Some (ws ++ [nm]) ∧
           id (self w') = Some (V1 (clock w)) ∧
           is_Some (disk w' !! ws)) ∧
  (setting = WsOther ∨ setting = WsArray [] →
     _initNew setting w = (w, Throw (mkError "Could not set workspace for new project"))).
Proof.
  intros Hws. split.
  - intros ws nm. by apply initNew_configured.
  - intros Hsetting. destruct w as [d l [p ws nm o i v pk ds] clk]. simpl in Hws. subst ws.
    unfold _initNew. by destruct Hsetting as [-> | ->].
Qed.

(** X10. [_initExisting] rejects at once a project whose path was not
    given, with the TypeError of [path.join], and a directory without
    [config/.settings], with 'This does not seem to be a valid MavensMate
    project directory.': no collaborator runs and the world, the project
    object included, is as it was. The workspace, the name and the current
    directory do not stand in for a path that is missing. *)
Theorem initExisting_requires_settings (w : World) :
  (path (self w) = None →
     _initExisting syntaxErrorMessage sfdcClient packageInit _getSettings
       _getCachedSession _writeSession indexWithSelections refreshDescribe w
       = (w, Throw joinError)) ∧
  (∀ p, path (self w) = Some p →
        disk w !! (p ++ ["config"; ".settings"]) = None →
        _initExisting syntaxErrorMessage sfdcClient packageInit _getSettings
          _getCachedSession _writeSession indexWithSelections refreshDescribe w
          = (w, Throw invalidDirectory)).
Proof.
  split.
  - intros Hp. unfold _initExisting, _isValid. run. rewrite Hp. by run.
  - intros p Hp Hd. unfold _initExisting, _isValid. run. rewrite Hp. run.
    unfold Fs.join. by rewrite (existsSync_false _ _ Hd).
Qed.

(** X11. After [_initExisting] has resolved, the project is marked valid,
    its path is the one it was given, its workspace is the directory of
    that path and its name the last segment, whatever workspace and name it
    had before; its origin, id and package are as they were. *)
Theorem initExisting_resolved (w w' : World) :
  _initExisting syntaxErrorMessage sfdcClient packageInit _getSettings
    _getCachedSession _writeSession indexWithSelections refreshDescribe w
    = (w', Return tt) →
  valid (self w') = Some true ∧
  (∃ p, path (self w') = Some p ∧
        workspace (self w') = Some (Fs.dirname p) ∧
        name (self w') = Some (Fs.basename p) ∧
        path (self w) = Some p) ∧
  origin (self w') = origin (self w) ∧
  id (self w') = id (self w) ∧
  package (self w') = package (self w).
Proof.
  intros Hrun.
  refine (wp_run _ (λ r w', match r with
                           | Return _ => _ ∧ (∃ p, _ ∧ _ ∧ _ ∧ _) ∧ _ ∧ _ ∧ _
                           | Throw _ => True
                           end) w w' (Return tt) _ Hrun).
  clear Hrun. destruct w as [d0 l0 [p0 ws0 nm0 o0 i0 v0 pk0 ds0] clk0].
  unfold _initExisting, _isValid, initExistingChain, initExistingSteps, markInvalid.
  cbn [chain].
  repeat first [wp_step | apply wp_getLocalStore; intros [?|?] ?].
  all: try done.
  all: split_and!; try done.
  all: eexists; split_and!; reflexivity.
Qed.

(** X12. [_initNewProjectFromExistingDirectory] checks before it acts: with
    no workspace, with an origin that has no [src] directory or no
    [src/package.xml], or with something already at workspace/name (the
    origin being elsewhere), it rejects with the matching message, having
    called no collaborator and changed nothing. *)
Theorem initFromDirectory_checks_first (w : World) :
  (workspace (self w) = None →
     _initNewProjectFromExistingDirectory metadataHelper sfdcClient packageInit _initConfig w
       = (w, Throw (mkError "Please select a workspace for this project"))) ∧
  (is_Some (workspace (self w)) →
     disk w !! (origin (self w) ++ ["src"]) = None →
     _initNewProjectFromExistingDirectory metadataHelper sfdcClient packageInit _initConfig w
       = (w, Throw (mkError "Project must have a top-level src directory"))) ∧
  (is_Some (workspace (self w)) →
     is_Some (disk w !! (origin (self w) ++ ["src"])) →
     disk w !! (origin (self w) ++ ["src"; "package.xml"]) = None →
     _initNewProjectFromExistingDirectory metadataHelper sfdcClient packageInit _initConfig w
       = (w, Throw (mkError
            "Project must have a valid package.xml file located in the src directory"))) ∧
  (∀ ws nm, workspace (self w) = Some ws → name (self w) = Some nm →
     is_Some (disk w !! (origin (self w) ++ ["src"])) →
     is_Some (disk w !! (origin (self w) ++ ["src"; "package.xml"])) →
     origin (self w) ≠ ws ++ [nm] →
     is_Some (disk w !! (ws ++ [nm])) →
     _initNewProjectFromExistingDirectory metadataHelper sfdcClient packageInit _initConfig w
       = (w, Throw (mkError "Project with this name already exists in the selected workspace"))).
Proof.
  unfold _initNewProjectFromExistingDirectory. split_and!.
  - intros Hws. run. by rewrite Hws.
  - intros [ws Hws] Hsrc. run. rewrite Hws. run. unfold Fs.join.
    by rewrite (existsSync_false _ _ Hsrc).
  - intros [ws Hws] Hsrc Hman. run. rewrite Hws. run. unfold Fs.join.
    rewrite (existsSync_true _ _ Hsrc). run. unfold Fs.join.
    by rewrite (existsSync_false _ _ Hman).
  - intros ws nm Hws Hnm Hsrc Hman Hne Htaken. run. rewrite Hws. run. unfold Fs.join.
    rewrite (existsSync_true _ _ Hsrc). run. unfold Fs.join.
    rewrite (existsSync_true _ _ Hman). run.
    rewrite ?Hws, ?Hnm. run. unfold Fs.join. rewrite decide_True by done. run.
    by rewrite (existsSync_true _ _ Htaken).
Qed.

(** X13. Whatever the outcome, every call
    [_initNewProjectFromExistingDirectory] makes on the disk is aimed at
    workspace/name or below: the origin is read, and never written, moved
    or removed by the project. *)
Theorem initFromDirectory_stays_in_destination (ws : Fs.path) (nm : string)
    (w w' : World) (r : result unit) :
  workspace (self w) = Some ws → name (self w) = Some nm →
  _initNewProjectFromExistingDirectory metadataHelper sfdcClient packageInit _initConfig w
    = (w', r) →
  within (ws ++ [nm]) (calls w) (calls w').
Proof.
  intros Hws Hnm Hrun.
  refine (wp_run _ (λ _ w', within (ws ++ [nm]) _ (calls w')) w w' r _ Hrun).
  clear Hrun. destruct w as [d0 l0 [p0 ws0 nm0 o0 i0 v0 pk0 ds0] clk0].
  simpl in *. subst ws0 nm0.
  unfold _initNewProjectFromExistingDirectory, initFromDirectoryChain, setDescribe,
    _writeLocalStore.
  wp_go.
  all: within_log.
Qed.

(** X14. So for [retrieveAndWriteToDisk] on a project whose path is
    workspace/name: every call it makes on the disk, the removal on failure
    included, is aimed at workspace/name or below. *)
Theorem retrieveAndWriteToDisk_stays_in_project (ws : Fs.path) (nm : string)
    (w w' : World) (r : result unit) :
  workspace (self w) = Some ws → name (self w) = Some nm →
  path (self w) = Some (ws ++ [nm]) →
  retrieveAndWriteToDisk metadataHelper sfdcClient _initConfig w = (w', r) →
  within (ws ++ [nm]) (calls w) (calls w').
Proof.
  intros Hws Hnm Hp Hrun.
  refine (wp_run _ (λ _ w', within (ws ++ [nm]) _ (calls w')) w w' r _ Hrun).
  clear Hrun. destruct w as [d0 l0 [p0 ws0 nm0 o0 i0 v0 pk0 ds0] clk0].
  simpl in *. subst ws0 nm0 p0.
  unfold retrieveAndWriteToDisk, retrieveChain, setDescribe, _writeLocalStore.
  wp_go.
  all: within_log.
Qed.

(** X15. When [_refreshDescribeFromServer] resolves, [getDescribe] returns
    the snapshot the server gave, and [config/.describe] holds its text if
    the [config] directory was there (nothing is written otherwise); when it
    rejects, [getDescribe] returns what it did before. *)
Theorem refreshDescribe_snapshot (w w' : World) (r : result unit) (p : Fs.path) :
  path (self w) = Some p →
  _refreshDescribeFromServer sfdcClient w = (w', r) →
  match r with
  | Return _ =>
      ∃ d1 snapshot,
        describe sfdcClient (disk w) = (d1, Return snapshot) ∧
        getDescribe (self w') = Some snapshot ∧
        if Fs.existsSync d1 (p ++ ["config"])
        then disk w' !! (p ++ ["config"; ".describe"])
               = Some (Fs.File (Fs.Raw (describe_json snapshot)))
        else disk w' = d1 ∧ calls w' = calls w
  | Throw _ => getDescribe (self w') = getDescribe (self w)
  end.
Proof.
  intros Hp. unfold _refreshDescribeFromServer, setDescribe. run.
  destruct (describe sfdcClient (disk w)) as [d1 [snapshot|e]] eqn:Hdescribe; simpl;
    [|by intros [= <- <-]].
  rewrite Hp. run. unfold Fs.join.
  destruct (Fs.existsSync d1 (p ++ ["config"])) eqn:Hconfig.
  - unfold outputFile, fsCall. simpl.
    destruct (Fs.outputFile _ _ d1) as [d2|e] eqn:Hout; simpl; intros [= <- <-]; [|done].
    eexists _, _. split_and!; [done..|]. rewrite Hconfig. simpl.
    eapply outputFile_lookup, Hout.
  - intros [= <- <-]. eexists _, _. split_and!; [done..|]. by rewrite Hconfig.
Qed.

End WorkflowMore.
(** ** The metadata index: descriptors the registry does not know *)

Section SelectionMore.

Import Project.

Context (metadataHelper : MetadataHelper).
Context (shows : string → IndexNode → bool).

(** A rejection once made stays: [reject] does not stop [_.forOwn], and a
    promise is rejected once. *)
Lemma foldl_selectType_rejected subscription idx ids e :
  ∃ idx' ids',
    foldl (selectType metadataHelper) (idx, ids, Some e) subscription = (idx', ids', Some e).
Proof.
  revert idx ids. induction subscription as [|[T members] subscription IH]; intros idx ids.
  - by eexists _, _.
  - simpl. destruct (getTypeByXmlName metadataHelper T) as [mt|]; simpl.
    + destruct members as [|members].
      * apply IH.
      * destruct (foldl _ (idx, ids) members) as [idx' ids']. apply IH.
    + apply IH.
Qed.

(** X16. A descriptor that names a metadata type the registry does not know
    makes [getOrgMetadataIndexWithSelections] reject with 'Unrecognized
    package.xml metadata type: ' and the name of the first such type,
    whatever the entries after it, the index and the keyword are. *)
Theorem unrecognized_type_rejects (orgMetadata : list IndexNode)
    (known rest : Subscription) (T : string) (members : PackageMembers)
    (customPackage : result Subscription) (keyword : option string) :
  Forall (λ entry, is_Some (getTypeByXmlName metadataHelper entry.1)) known →
  getTypeByXmlName metadataHelper T = None →
  getOrgMetadataIndexWithSelections metadataHelper shows (Some (Return orgMetadata))
    (known ++ (T, members) :: rest) customPackage keyword None None
    = Rejected (mkError ("Unrecognized package.xml metadata type: " +:+ T)).
Proof.
  intros Hknown HT. unfold getOrgMetadataIndexWithSelections.
  rewrite foldl_app. simpl.
  destruct (foldl_selectType_grows metadataHelper shows known (orgMetadata, [], None) Hknown)
    as (_ & _ & Hrej).
  destruct (foldl (selectType metadataHelper) (orgMetadata, [], None) known)
    as [[idx ids] rejected]. simpl in Hrej. subst rejected.
  assert (selectType metadataHelper (idx, ids, None) (T, members) =
          (idx, ids, Some (mkError ("Unrecognized package.xml metadata type: " +:+ T))))
    as -> by (unfold selectType; by rewrite HT).
  destruct (foldl_selectType_rejected rest idx ids
              (mkError ("Unrecognized package.xml metadata type: " +:+ T)))
    as (idx' & ids' & ->).
  done.
Qed.

End SelectionMore.

(** ** Replacing local files: what is left alone *)

Section ReplaceMore.

Import Project.

Implicit Types (w : World).

(** What is not a regular file in the way stays when directories are
    made. *)
Lemma mkdirs_from_keeps (base : Fs.path) (rest : list string) (d d' : Fs.disk)
    (q : Fs.path) (c : Fs.content) :
  Fs.mkdirs_from base rest d = Return d' →
  d !! q = Some (Fs.File c) → d' !! q = Some (Fs.File c).
Proof.
  revert base d. induction rest as [|s rest IH]; intros base d; simpl.
  - destruct (d !! base) as [[|c0]|] eqn:E; intros [= <-] Hq; try done;
      (rewrite lookup_insert_ne; [done|congruence]).
  - intros Hrun Hq.
    assert (Fs.mkdirs_from (base ++ [s]) rest (<[base:=Fs.Dir]> d) = Return d') as Hrun'.
    { by destruct (d !! base) as [[|c0]|]. }
    apply (IH _ _ Hrun'). rewrite lookup_insert_ne; [done|].
    intros ->. rewrite Hq in Hrun. done.
Qed.

Lemma rerooted_lookup (src dst q : Fs.path) (d : Fs.disk) :
  ¬ dst `prefix_of` q →
  (list_to_map (Fs.rerooted src dst d) : Fs.disk) !! q = None.
Proof.
  intros Hq. apply not_elem_of_list_to_map_1. unfold Fs.rerooted.
  rewrite <- list_fmap_compose. intros ([k e] & -> & _)%list_elem_of_fmap.
  apply Hq. simpl. by apply prefix_app_r.
Qed.

(** A copy changes nothing but its destination and what is below it. *)
Lemma copySync_keeps (src dst q : Fs.path) (d d' : Fs.disk) (c : Fs.content) :
  Fs.copySync src dst d = Return d' →
  d !! q = Some (Fs.File c) → ¬ dst `prefix_of` q →
  d' !! q = Some (Fs.File c).
Proof.
  unfold Fs.copySync, Fs.mkdirpSync. intros Hrun Hq Hdst.
  destruct (d !! src) as [[|c0]|]; [| |done].
  - destruct (Fs.mkdirs_from [] dst d) as [d1|] eqn:E; [|done].
    injection Hrun as <-. rewrite lookup_union_r by by apply rerooted_lookup.
    by eapply mkdirs_from_keeps.
  - destruct (Fs.mkdirs_from [] (Fs.dirname dst) d) as [d1|] eqn:E; [|done].
    assert (d' = <[dst:=Fs.File c0]> d1) as -> by (by destruct (d1 !! dst) as [[|?]|]; simplify_eq).
    rewrite lookup_insert_ne; [by eapply mkdirs_from_keeps|].
    intros ->. by apply Hdst.
Qed.

(** Uses what the disk calls of a run keep of a regular file. *)
Ltac kept :=
  repeat match goal with
         | H : Fs.mkdirpSync _ _ = Return ?d |- ?d !! _ = _ =>
             apply (mkdirs_from_keeps _ _ _ _ _ _ H)
         | H : Fs.copySync _ _ _ = Return ?d |- ?d !! _ = _ =>
             apply (copySync_keeps _ _ _ _ _ _ H); [|by auto]
         | |- Fs.removeSync _ _ !! _ = _ =>
             rewrite removeSync_lookup, decide_False by auto
         end.

(** The listener of 'file' leaves the project object as it is, and a
    regular file too, unless it replaces the staged file and puts it there
    or above. *)
Lemma onFile_keeps remotePath flag (ws : Fs.path) (nm : string) file w w' r
    (q : Fs.path) (c : Fs.content) :
  workspace (self w) = Some ws → name (self w) = Some nm →
  onFile remotePath flag file w = (w', r) →
  disk w !! q = Some (Fs.File c) →
  (replaced flag file = true →
   ¬ destination remotePath (ws ++ [nm; "src"]) file `prefix_of` q) →
  self w' = self w ∧ disk w' !! q = Some (Fs.File c).
Proof.
  intros Hws Hnm Hrun Hq Hdest.
  refine (wp_run _ (λ _ w', self w' = self w ∧ disk w' !! q = Some (Fs.File c)) w w' r _ Hrun).
  clear Hrun. destruct w as [d0 l0 [p0 ws0 nm0 o0 i0 v0 pk0 ds0] clk0].
  simpl in *. subst ws0 nm0.
  assert (replaced flag file = false ∨
          ¬ destination remotePath (ws ++ [nm; "src"]) file `prefix_of` q) as Hcase.
  { destruct (replaced flag file); auto. }
  clear Hdest. unfold destination, replaced in Hcase.
  unfold onFile. wp_go.
  all: split; [done|].
  all: try by kept.
  all: destruct Hcase as [[-> Hname]%orb_false_iff|Hdest]; [simpl in *; congruence|].
  all: by kept.
Qed.

(** So does the whole walk, the staging root apart. *)
Lemma listen_keeps remotePath flag (ws : Fs.path) (nm : string) events rejected w w' outcome
    (q : Fs.path) (c : Fs.content) :
  workspace (self w) = Some ws → name (self w) = Some nm →
  listen remotePath flag events rejected w = (w', outcome) →
  disk w !! q = Some (Fs.File c) →
  ¬ remotePath `prefix_of` q →
  (∀ file, FileEvent file ∈ events → replaced flag file = true →
     ¬ destination remotePath (ws ++ [nm; "src"]) file `prefix_of` q) →
  disk w' !! q = Some (Fs.File c).
Proof.
  revert rejected w. induction events as [|[file|err] events IH];
    intros rejected w Hws Hnm Hrun Hq Hroot Hdest.
  - cbn [listen] in Hrun. unfold onEnd in Hrun.
    destruct (Fs.existsSync (disk w) remotePath); [|by simplify_eq].
    rewrite removeSync_run in Hrun. injection Hrun as <- _. simpl.
    by rewrite removeSync_lookup, decide_False.
  - cbn [listen] in Hrun.
    destruct (onFile remotePath flag file w) as [w1 r] eqn:Hfile.
    destruct (onFile_keeps _ _ ws nm _ _ _ _ q c Hws Hnm Hfile Hq) as [Hself Hq1].
    { apply Hdest. left. }
    destruct r as [[]|e]; [|by simplify_eq].
    apply (IH rejected w1); [congruence|congruence|done..|].
    intros f Hf. apply Hdest. by right.
  - cbn [listen] in Hrun. apply (IH _ w Hws Hnm Hrun Hq Hroot).
    intros f Hf. apply Hdest. by right.
Qed.

(** X17. With [replacePackageXml] false, a file named [package.xml] that
    is outside the staging root is after [replaceLocalFiles] what it was
    before, whatever the walk reports and whatever the outcome, unless a
    reported file of another name goes to a directory above it (the
    directory is then removed with all it holds). *)
Theorem replaceLocalFiles_spares_manifests (finder : Finder) (remotePath ws : Fs.path)
    (nm : string) (w w' : World) (outcome : Outcome unit) (q : Fs.path) (c : Fs.content) :
  workspace (self w) = Some ws → name (self w) = Some nm →
  replaceLocalFiles finder remotePath false w = (w', outcome) →
  disk w !! q = Some (Fs.File c) →
  Fs.basename q = "package.xml" →
  ¬ remotePath `prefix_of` q →
  (∀ file, FileEvent file ∈ find finder remotePath (disk w) →
     Fs.basename file ≠ "package.xml" →
     ¬ destination remotePath (ws ++ [nm; "src"]) file `prefix_of` q) →
  disk w' !! q = Some (Fs.File c).
Proof.
  intros Hws Hnm Hrun Hq Hname Hroot Hdest.
  apply (listen_keeps _ _ ws nm _ _ _ _ _ q c Hws Hnm Hrun Hq Hroot).
  intros file Hfile Hrep. apply Hdest; [done|].
  unfold replaced in Hrep. simpl in Hrep. apply negb_true_iff in Hrep.
  by apply String.eqb_neq.
Qed.

(** The walk makes no call but its own, and once its promise is rejected
    it stays so. *)
Lemma walked_refl l : walked l l.
Proof. exists []. split; [by rewrite app_nil_r|constructor]. Qed.

Lemma walked_trans l1 l2 l3 : walked l1 l2 → walked l2 l3 → walked l1 l3.
Proof.
  intros (cs & -> & H1) (cs' & -> & H2). exists (cs ++ cs').
  split; [by rewrite app_assoc|by apply Forall_app].
Qed.

Lemma onFile_walked remotePath flag file w :
  walked (calls w) (calls (onFile remotePath flag file w).1) ∧
  self (onFile remotePath flag file w).1 = self w.
Proof.
  change (wp (onFile remotePath flag file)
            (λ _ w', walked (calls w) (calls w') ∧ self w' = self w) w).
  destruct w as [d0 l0 s0 clk0]. unfold onFile. wp_go.
  all: split; [|done].
  all: try apply walked_refl.
  all: unfold walked; rewrite <- ?app_assoc; simpl; eexists; (split; [reflexivity|]).
  all: repeat first [apply Forall_nil_2 | apply Forall_cons_2]; exact I.
Qed.

Lemma listen_walked remotePath flag events rejected w :
  walked (calls w) (calls (listen remotePath flag events rejected w).1) ∧
  self (listen remotePath flag events rejected w).1 = self w.
Proof.
  revert rejected w. induction events as [|[file|err] events IH]; intros rejected w;
    cbn [listen].
  - unfold onEnd. destruct (Fs.existsSync (disk w) remotePath); [|split; [apply walked_refl|done]].
    rewrite removeSync_run. simpl. split; [|done].
    exists [Fs.RemoveSync remotePath]. split; [done|]. by apply Forall_cons_2.
  - destruct (onFile_walked remotePath flag file w) as [Hfile Hself].
    destruct (onFile remotePath flag file w) as [w1 [[]|e]]; simpl in *; [|done].
    destruct (IH rejected w1) as [Hrest Hself']. split; [|congruence].
    by eapply walked_trans.
  - apply IH.
Qed.

Lemma listen_rejected remotePath flag events err w :
  (listen remotePath flag events (Some err) w).2 = Rejected err.
Proof.
  revert w. induction events as [|[file|err'] events IH]; intros w; cbn [listen].
  - unfold onEnd. destruct (Fs.existsSync (disk w) remotePath); [|done].
    by rewrite removeSync_run.
  - destruct (onFile remotePath flag file w) as [w1 [[]|e]]; [apply IH|done].
  - apply IH.
Qed.

(** An error reported after files whose listeners returned. *)
Lemma listen_error remotePath flag before err after w w1 :
  forEach (onFile remotePath flag) before w = (w1, Return tt) →
  listen remotePath flag ((FileEvent <$> before) ++ ErrorEvent err :: after) None w =
    listen remotePath flag after (Some err) w1.
Proof.
  revert w. induction before as [|file before IH]; intros w.
  - by intros [= <-].
  - rewrite forEach_cons. cbn [fmap list_fmap app listen].
    destruct (onFile remotePath flag file w) as [w0 [[]|e]]; [apply IH|done].
Qed.

End ReplaceMore.
(** ** Settings, session and the keychain *)

Section ConfigFacts.

Import Project.

Context {K : Type}.
Context (objects : Codec JsObject).
Context (arrays : Codec (list Json)).
Context (indexes : Codec (list IndexNode)).
Context (stringifyStore : LocalStore → string).
Context (keychainService : KeychainService K).
Context (lightningGetAll : External (list Json)).
Context (indexServerProperties : option Json → External (list IndexNode)).

#[local] Existing Instance P_ret.
#[local] Existing Instance P_bind.

Implicit Types (i : Instance K) (w : World) (o : JsObject).

(** Unfolds the plumbing of a method of the instance. *)
Ltac runP :=
  repeat (progress (unfold mbind, P_bind, M_bind, mret, P_ret, M_ret, throwP, catchP, attempt,
                    getInstance, inWorld, setSettings, setCachedSession,
                    setLightningIndexField, onKeychain, configFile, getSelf, pathJoin,
                    existsSync, throw, catch, call; simpl)).

Lemma prop_definedProps o k : prop (definedProps o) k = prop o k.
Proof.
  unfold prop, definedProps. destruct (o !! k) as [[v|]|] eqn:E; simpl.
  - by rewrite (map_lookup_filter_Some_2 _ _ _ _ E).
  - rewrite (proj2 (map_lookup_filter_None _ _ _)); [done|].
    right. intros v Hv [x Hx]. simpl in Hx. congruence.
  - rewrite (proj2 (map_lookup_filter_None _ _ _)); [done|]. by left.
Qed.

Lemma definedProps_undefined o k : definedProps (<[k := None]> o) !! k = None.
Proof.
  apply map_lookup_filter_None. right. intros v Hv [x Hx].
  rewrite lookup_insert_eq in Hv. simpl in Hx. congruence.
Qed.

Lemma prop_insert o k v k' :
  prop (<[k := v]> o) k' = if decide (k = k') then v else prop o k'.
Proof.
  unfold prop. case_decide as Hk.
  - subst. by rewrite lookup_insert_eq.
  - by rewrite lookup_insert_ne.
Qed.

Lemma writeFile_over (file : Fs.path) (c c0 : Fs.content) (d : Fs.disk) :
  d !! file = Some (Fs.File c0) → writeFile file c d = Return (<[file := Fs.File c]> d).
Proof. unfold writeFile. by intros ->. Qed.

(** What [updateSetting] does on a readable settings file. *)
Lemma updateSetting_run i p text old key value :
  path (self (world i)) = Some p →
  disk (world i) !! (p ++ ["config"; ".settings"]) = Some (Fs.File (Fs.Raw text)) →
  parse objects text = Return old →
  updateSetting objects stringifyStore key value i =
    (mkInstance
       (with_disk (<[p ++ ["config"; ".settings"] :=
                       Fs.File (Fs.Raw (stringify objects (<[key := value]> old)))]>
                     (disk (world i))) (world i))
       (Some (<[key := value]> old)) (cachedSession i) (lightningIndex i) (password i) (keychain i),
     Return tt).
Proof.
  intros Hp Hd Hparse. unfold updateSetting, readJson, writeFileSync. runP.
  rewrite Hp. runP. unfold Fs.join. rewrite Hd. simpl. rewrite Hparse. runP.
  rewrite Hp. runP. unfold Fs.join. by rewrite (writeFile_over _ _ _ _ Hd).
Qed.

Lemma configFile_world name w : (configFile name w).1 = w.
Proof. unfold configFile. runP. by destruct (path (self w)). Qed.

Lemma readJson_world {A} (codec : Codec A) file w :
  (readJson stringifyStore codec file w).1 = w.
Proof. unfold readJson. by destruct (disk w !! file) as [[|c]|]. Qed.

(** X18. [updateSetting(key, value)] on a readable settings file resolves,
    and the settings then on disk and in memory differ from those that were
    on disk in the one property: [key] holds [value], every other property
    reads as before, and a [key] set to [undefined] is not in the file; no
    other file changes. When the file cannot be read or parsed it rejects
    with 'Could not read project .settings file: ' and the message of the
    read, and nothing changes. *)
Theorem updateSetting_sets_one_property (i : Instance K) (p : Fs.path)
    (key : string) (value : option Json) :
  path (self (world i)) = Some p →
  (∀ text old,
     disk (world i) !! (p ++ ["config"; ".settings"]) = Some (Fs.File (Fs.Raw text)) →
     parse objects text = Return old →
     parse objects (stringify objects (<[key := value]> old))
       = Return (definedProps (<[key := value]> old)) →
     ∃ i' doc,
       updateSetting objects stringifyStore key value i = (i', Return tt) ∧
       (readJson stringifyStore objects (p ++ ["config"; ".settings"]) (world i')).2
         = Return doc ∧
       prop doc key = value ∧
       (∀ k, k ≠ key → prop doc k = prop old k) ∧
       (value = None → doc !! key = None) ∧
       settings i' = Some (<[key := value]> old) ∧
       (∀ q, q ≠ p ++ ["config"; ".settings"] →
             disk (world i') !! q = disk (world i) !! q)) ∧
  (∀ e,
     (readJson stringifyStore objects (p ++ ["config"; ".settings"]) (world i)).2 = Throw e →
     updateSetting objects stringifyStore key value i
       = (i, Throw (mkError ("Could not read project .settings file: " +:+ message e)))).
Proof.
  intros Hp. split.
  - intros text old Hd Hparse Hlaw.
    eexists _, (definedProps (<[key := value]> old)).
    split; [by apply (updateSetting_run i p text)|]. simpl. split_and!.
    + unfold readJson. simpl. rewrite lookup_insert_eq. simpl. exact Hlaw.
    + rewrite prop_definedProps, prop_insert. by rewrite decide_True.
    + intros k Hk. rewrite prop_definedProps, prop_insert. by rewrite decide_False.
    + intros ->. apply definedProps_undefined.
    + done.
    + intros q Hq. by rewrite lookup_insert_ne.
  - intros e Hread. unfold updateSetting. runP. rewrite Hp. runP. unfold Fs.join.
    pose proof (readJson_world objects (p ++ ["config"; ".settings"]) (world i)) as Hw.
    destruct (readJson stringifyStore objects _ (world i)) as [w' r]. simpl in *. subst w' r.
    by destruct i.
Qed.

(** X19. [updateDebug(key, value)] on a readable debug file resolves, and
    the debug settings then on disk differ from those that were there in
    the one property; when the file cannot be read it rejects with 'Could
    not read project .debug file: ' and the message of the read, and
    nothing changes. *)
Theorem updateDebug_sets_one_property (i : Instance K) (p : Fs.path)
    (key : string) (value : option Json) :
  path (self (world i)) = Some p →
  (∀ text old,
     disk (world i) !! (p ++ ["config"; ".debug"]) = Some (Fs.File (Fs.Raw text)) →
     parse objects text = Return old →
     parse objects (stringify objects (<[key := value]> old))
       = Return (definedProps (<[key := value]> old)) →
     ∃ i' doc,
       updateDebug objects stringifyStore key value i = (i', Return tt) ∧
       (readJson stringifyStore objects (p ++ ["config"; ".debug"]) (world i')).2 = Return doc ∧
       prop doc key = value ∧
       (∀ k, k ≠ key → prop doc k = prop old k) ∧
       (∀ q, q ≠ p ++ ["config"; ".debug"] → disk (world i') !! q = disk (world i) !! q)) ∧
  (∀ e,
     (readJson stringifyStore objects (p ++ ["config"; ".debug"]) (world i)).2 = Throw e →
     updateDebug objects stringifyStore key value i
       = (i, Throw (mkError ("Could not read project .debug file: " +:+ message e)))).
Proof.
  intros Hp. split.
  - intros text old Hd Hparse Hlaw.
    eexists _, (definedProps (<[key := value]> old)). split_and!.
    + unfold updateDebug, readJson, writeFileSync. runP.
      rewrite Hp. runP. unfold Fs.join. rewrite Hd. simpl. rewrite Hparse. runP.
      rewrite Hp. runP. unfold Fs.join. by rewrite (writeFile_over _ _ _ _ Hd).
    + unfold readJson. simpl. rewrite lookup_insert_eq. simpl. exact Hlaw.
    + rewrite prop_definedProps, prop_insert. by rewrite decide_True.
    + intros k Hk. rewrite prop_definedProps, prop_insert. by rewrite decide_False.
    + intros q Hq. simpl. by rewrite lookup_insert_ne.
  - intros e Hread. unfold updateDebug. runP. rewrite Hp. runP. unfold Fs.join.
    pose proof (readJson_world objects (p ++ ["config"; ".debug"]) (world i)) as Hw.
    destruct (readJson stringifyStore objects _ (world i)) as [w' r]. simpl in *. subst w' r.
    by destruct i.
Qed.

(** X20. With the system keychain in use, [_storePassword] hands the
    password to the keychain (under the id of the project, or the id of its
    settings) and takes it out of the settings: once it has resolved,
    [config/.settings] has no [password] property, whatever it held
    before, and its other properties read as before. *)
Theorem storePassword_clears_settings (i : Instance K) (p : Fs.path) (text : string)
    (old : JsObject) (pw : option Json) (replace : bool) (acct : Account) (k' : K) :
  useSystemKeychain keychainService = true →
  path (self (world i)) = Some p →
  disk (world i) !! (p ++ ["config"; ".settings"]) = Some (Fs.File (Fs.Raw text)) →
  parse objects text = Return old →
  parse objects (stringify objects (<["password" := None]> old))
    = Return (definedProps (<["password" := None]> old)) →
  (account i).2 = Return acct →
  (if replace
   then replacePassword keychainService acct (orElse pw (password i)) (keychain i)
   else storePassword keychainService acct (orElse pw (password i)) (keychain i))
    = Return k' →
  ∃ i' doc,
    _storePassword objects stringifyStore keychainService pw replace i = (i', Return tt) ∧
    keychain i' = k' ∧
    (readJson stringifyStore objects (p ++ ["config"; ".settings"]) (world i')).2 = Return doc ∧
    doc !! "password" = None ∧
    (∀ k, k ≠ "password" → prop doc k = prop old k).
Proof.
  intros Huse Hp Hd Hparse Hlaw Hacct Hstore.
  assert (account i = (i, Return acct)) as Hrun.
  { revert Hacct. unfold account. runP.
    destruct (id (self (world i))); [by intros [= <-]|].
    destruct (settings i); [by intros [= <-]|done]. }
  eexists _, (definedProps (<["password" := None]> old)). split_and!.
  - unfold _storePassword. rewrite Huse. unfold mbind, P_bind. rewrite Hrun.
    unfold getInstance, onKeychain. cbn beta iota.
    destruct replace; rewrite Hstore; by apply (updateSetting_run _ p text).
  - done.
  - unfold readJson. simpl. rewrite lookup_insert_eq. simpl. exact Hlaw.
  - apply definedProps_undefined.
  - intros k Hk. rewrite prop_definedProps, prop_insert. by rewrite decide_False.
Qed.

(** X21. With the system keychain in use and a project that has no id of
    its own, a password stored by [_storePassword] comes back from
    [_getSettings]: it is read from the keychain under the id of the
    settings, while the settings file holds no password. The keychain is
    asked to give back under an account what was stored under it. *)
Theorem password_round_trip_keychain (i : Instance K) (p : Fs.path) (text : string)
    (old st0 : JsObject) (pw : option Json) (replace : bool) (k' : K) :
  useSystemKeychain keychainService = true →
  id (self (world i)) = None →
  settings i = Some st0 → prop st0 "id" = prop old "id" →
  path (self (world i)) = Some p →
  disk (world i) !! (p ++ ["config"; ".settings"]) = Some (Fs.File (Fs.Raw text)) →
  parse objects text = Return old →
  parse objects (stringify objects (<["password" := None]> old))
    = Return (definedProps (<["password" := None]> old)) →
  (if replace
   then replacePassword keychainService (AccountSetting (prop old "id"))
          (orElse pw (password i)) (keychain i)
   else storePassword keychainService (AccountSetting (prop old "id"))
          (orElse pw (password i)) (keychain i))
    = Return k' →
  getPassword keychainService (AccountSetting (prop old "id")) k'
    = Return (orElse pw (password i)) →
  ∃ i' st doc,
    (_storePassword objects stringifyStore keychainService pw replace ≫= λ _,
     _getSettings objects stringifyStore keychainService) i = (i', Return st) ∧
    prop st "password" = orElse pw (password i) ∧
    settings i' = Some st ∧
    (readJson stringifyStore objects (p ++ ["config"; ".settings"]) (world i')).2 = Return doc ∧
    doc !! "password" = None.
Proof.
  intros Huse Hid Hst0 Hsame Hp Hd Hparse Hlaw Hstore Hget.
  assert (account i = (i, Return (AccountSetting (prop old "id")))) as Hacct.
  { unfold account. runP. by rewrite Hid, Hst0, Hsame. }
  eexists _, _, (definedProps (<["password" := None]> old)). split_and!.
  - unfold _storePassword. rewrite Huse. unfold mbind, P_bind. rewrite Hacct.
    unfold getInstance, onKeychain. cbn beta iota.
    destruct replace; rewrite Hstore; cbn beta iota;
      rewrite (updateSetting_run _ p text old) by done; cbn beta iota;
      unfold _getSettings, _getPassword, readJson; runP; rewrite Hp; runP; unfold Fs.join;
      rewrite lookup_insert_eq; simpl; rewrite Hlaw; runP;
      rewrite prop_definedProps, prop_insert, decide_True by done; simpl;
      rewrite Huse, prop_definedProps, prop_insert, decide_False by done;
      rewrite Hget; reflexivity.
  - rewrite prop_insert. by rewrite decide_True.
  - done.
  - unfold readJson. simpl. rewrite lookup_insert_eq. simpl. exact Hlaw.
  - apply definedProps_undefined.
Qed.

(** X22. Without the system keychain, [_storePassword] puts the password
    in the settings file, from where [_getSettings] returns it, provided it
    is not a value that counts as false; the keychain is not used. *)
Theorem password_round_trip_settings (i : Instance K) (p : Fs.path) (text : string)
    (old : JsObject) (pw : option Json) (replace : bool) :
  useSystemKeychain keychainService = false →
  path (self (world i)) = Some p →
  disk (world i) !! (p ++ ["config"; ".settings"]) = Some (Fs.File (Fs.Raw text)) →
  parse objects text = Return old →
  parse objects (stringify objects (<["password" := orElse pw (password i)]> old))
    = Return (definedProps (<["password" := orElse pw (password i)]> old)) →
  truthyJson (orElse pw (password i)) = true →
  ∃ i' st,
    (_storePassword objects stringifyStore keychainService pw replace ≫= λ _,
     _getSettings objects stringifyStore keychainService) i = (i', Return st) ∧
    prop st "password" = orElse pw (password i) ∧
    settings i' = Some st ∧
    keychain i' = keychain i.
Proof.
  intros Huse Hp Hd Hparse Hlaw Htruthy.
  unfold _storePassword. rewrite Huse.
  eexists _, _. split_and!.
  - unfold mbind, P_bind, getInstance. cbn beta iota.
    rewrite (updateSetting_run _ p text old) by done. cbn beta iota.
    unfold _getSettings, _getPassword, readJson. runP. rewrite Hp. runP. unfold Fs.join.
    rewrite lookup_insert_eq. simpl. rewrite Hlaw. runP.
    rewrite prop_definedProps, prop_insert, decide_True by done. rewrite Htruthy.
    reflexivity.
  - rewrite prop_insert. by rewrite decide_True.
  - done.
  - done.
Qed.

(** X23. [_getCachedSession] is lenient where [getLocalStore] is not: with
    no session file, or with one that is empty or cut short, it resolves
    with an empty session and does not assign the cached session; a session
    that parses is returned and cached. *)
Theorem getCachedSession_lenient (i : Instance K) (p : Fs.path) :
  path (self (world i)) = Some p →
  (disk (world i) !! (p ++ ["config"; ".session"]) = None →
     _getCachedSession objects stringifyStore i = (i, Return ∅)) ∧
  (∀ text e,
     disk (world i) !! (p ++ ["config"; ".session"]) = Some (Fs.File (Fs.Raw text)) →
     parse objects text = Throw e →
     _getCachedSession objects stringifyStore i =
       (i, if Js.mentions (message e) "Unexpected end of input" then Return ∅ else Throw e)) ∧
  (∀ text session,
     disk (world i) !! (p ++ ["config"; ".session"]) = Some (Fs.File (Fs.Raw text)) →
     parse objects text = Return session →
     ∃ i', _getCachedSession objects stringifyStore i = (i', Return session) ∧
           cachedSession i' = Some session ∧ world i' = world i).
Proof.
  intros Hp. unfold _getCachedSession, readJson. split_and!.
  - intros Hd. runP. rewrite Hp. runP. unfold Fs.join.
    rewrite (existsSync_false _ _ Hd). by destruct i.
  - intros text e Hd Hparse. runP. rewrite Hp. runP. unfold Fs.join.
    rewrite existsSync_true by (rewrite Hd; eauto). runP. rewrite Hd. simpl. rewrite Hparse.
    destruct (Js.mentions _ _); by destruct i.
  - intros text session Hd Hparse. runP. rewrite Hp. runP. unfold Fs.join.
    rewrite existsSync_true by (rewrite Hd; eauto). runP. rewrite Hd. simpl. rewrite Hparse.
    eexists. split; [done|]. simpl. split; [done|]. by destruct (world i).
Qed.

(** X24. [indexLightning] takes an org without Lightning for an org with
    nothing to index: when the Lightning service fails with a message that
    mentions that the sObject type AuraDefinition is not supported, or that
    the requested resource does not exist, it resolves, having written
    nothing and assigned no index; any other failure of the service is the
    rejection. *)
Theorem indexLightning_without_lightning (i : Instance K) (d1 : Fs.disk) (e : Error) :
  lightningGetAll (disk (world i)) = (d1, Throw e) →
  ∃ i',
    indexLightning arrays lightningGetAll i =
      (i', if lightningUnavailable e then Return tt else Throw e) ∧
    world i' = with_disk d1 (world i) ∧
    lightningIndex i' = lightningIndex i.
Proof.
  intros Hget. unfold indexLightning. runP. rewrite Hget. simpl.
  destruct (lightningUnavailable e); eexists; split; done.
Qed.

(** X25. An index written by [setLightningIndex] is the one
    [getLightningIndexSync] reads, and the one the instance holds; the file
    is there afterwards. *)
Theorem lightningIndex_round_trip (i : Instance K) (p : Fs.path) (index : list Json) :
  path (self (world i)) = Some p →
  Fs.writable (p ++ ["config"; ".lightning"]) (disk (world i)) = true →
  parse arrays (stringify arrays index) = Return index →
  ∃ i',
    (setLightningIndex arrays index ≫= λ _, getLightningIndexSync arrays stringifyStore) i
      = (i', Return index) ∧
    lightningIndex i' = Some index ∧
    is_Some (disk (world i') !! (p ++ ["config"; ".lightning"])).
Proof.
  intros Hp Hw Hlaw.
  destruct (outputFile_writable _ (Fs.Raw (stringify arrays index)) _ Hw) as [d' Hd'].
  pose proof (outputFile_lookup _ _ _ _ Hd') as Hfile.
  unfold setLightningIndex, getLightningIndexSync, readJson, outputFile, fsCall. runP.
  rewrite Hp. runP. unfold Fs.join. rewrite Hd'. runP. rewrite Hp. runP. unfold Fs.join.
  rewrite Hfile. simpl. rewrite Hlaw. eexists. split_and!; [done..|]. simpl.
  rewrite Hfile. eauto.
Qed.

(** X26. [getLightningIndex] builds the index it does not find: when the
    index file cannot be read, it has the Lightning service list the
    bundles, writes the list to [config/.lightning] and resolves with it;
    when the file can be read, it resolves with what the file holds and the
    service is not asked. *)
Theorem getLightningIndex_builds_missing_index (i : Instance K) (p : Fs.path) :
  path (self (world i)) = Some p →
  (∀ index,
     (readJson stringifyStore arrays (p ++ ["config"; ".lightning"]) (world i)).2
       = Return index →
     getLightningIndex arrays stringifyStore lightningGetAll i = (i, Return index)) ∧
  (∀ e d1 index,
     (readJson stringifyStore arrays (p ++ ["config"; ".lightning"]) (world i)).2 = Throw e →
     lightningGetAll (disk (world i)) = (d1, Return index) →
     Fs.writable (p ++ ["config"; ".lightning"]) d1 = true →
     parse arrays (stringify arrays index) = Return index →
     ∃ i',
       getLightningIndex arrays stringifyStore lightningGetAll i = (i', Return index) ∧
       lightningIndex i' = Some index ∧
       disk (world i') !! (p ++ ["config"; ".lightning"])
         = Some (Fs.File (Fs.Raw (stringify arrays index)))).
Proof.
  intros Hp. split.
  - intros index Hread. unfold getLightningIndex. runP. rewrite Hp. runP. unfold Fs.join.
    pose proof (readJson_world arrays (p ++ ["config"; ".lightning"]) (world i)) as Hw.
    destruct (readJson stringifyStore arrays _ (world i)) as [w' r]. simpl in *. subst w' r.
    by destruct i.
  - intros e d1 index Hread Hget Hwritable Hlaw.
    destruct (outputFile_writable _ (Fs.Raw (stringify arrays index)) _ Hwritable) as [d' Hd'].
    pose proof (outputFile_lookup _ _ _ _ Hd') as Hfile.
    unfold getLightningIndex. runP. rewrite Hp. runP. unfold Fs.join.
    pose proof (readJson_world arrays (p ++ ["config"; ".lightning"]) (world i)) as Hw.
    destruct (readJson stringifyStore arrays _ (world i)) as [w' r]. simpl in *. subst w' r.
    unfold indexLightning, setLightningIndex, outputFile, fsCall. runP. rewrite Hget. runP.
    rewrite Hp. runP. unfold Fs.join. rewrite Hd'. runP. rewrite Hp. runP. unfold Fs.join.
    unfold readJson. simpl. rewrite Hfile. simpl. rewrite Hlaw.
    eexists. split_and!; done.
Qed.

(** X27. [getOrgMetadataIndex] does not reject on a project that has a
    path: it resolves with the index [config/.org_metadata] holds, and with
    an empty index when the file is missing or does not parse; it changes
    nothing. *)
Theorem getOrgMetadataIndex_never_rejects (w : World) (p : Fs.path) :
  path (self w) = Some p →
  getOrgMetadataIndex indexes stringifyStore w =
    (w, Return match (readJson stringifyStore indexes (p ++ ["config"; ".org_metadata"]) w).2 with
               | Return orgMetadata => orgMetadata
               | Throw _ => []
               end).
Proof.
  intros Hp. unfold getOrgMetadataIndex. runP. rewrite Hp. runP. unfold Fs.join.
  pose proof (readJson_world indexes (p ++ ["config"; ".org_metadata"]) w) as Hw.
  destruct (readJson stringifyStore indexes _ w) as [w' [idx|e]]; simpl in *; by subst w'.
Qed.

(** X28. The index [indexMetadata] writes is the one [getOrgMetadataIndex]
    returns: what the index service gave for the subscription of the
    settings. *)
Theorem indexMetadata_round_trip (i : Instance K) (p : Fs.path) (st : JsObject)
    (d1 : Fs.disk) (res : list IndexNode) :
  path (self (world i)) = Some p →
  settings i = Some st →
  indexServerProperties (prop st "subscription") (disk (world i)) = (d1, Return res) →
  Fs.writable (p ++ ["config"; ".org_metadata"]) d1 = true →
  parse indexes (stringify indexes res) = Return res →
  ∃ i',
    indexMetadata indexes indexServerProperties i = (i', Return tt) ∧
    (getOrgMetadataIndex indexes stringifyStore (world i')).2 = Return res.
Proof.
  intros Hp Hst Hservice Hwritable Hlaw.
  destruct (outputFile_writable _ (Fs.Raw (stringify indexes res)) _ Hwritable) as [d' Hd'].
  pose proof (outputFile_lookup _ _ _ _ Hd') as Hfile.
  unfold indexMetadata, getSubscription, outputFile, fsCall. runP. rewrite Hst. runP.
  rewrite Hservice. runP. rewrite Hp. runP. unfold Fs.join. rewrite Hd'.
  eexists. split; [done|]. simpl.
  unfold getOrgMetadataIndex, readJson. runP. rewrite Hp. runP. unfold Fs.join.
  rewrite Hfile. simpl. by rewrite Hlaw.
Qed.

End ConfigFacts.
(** ** Refreshing and editing: what a failure leaves behind *)

Section RefreshFacts.

Import Project.

Context {K : Type}.
Context (metadataHelper : MetadataHelper).
Context (sfdcClient : SalesforceClient).
Context (arrays : Codec (list Json)).
Context (lightningGetAll : External (list Json)).
Context (finder : Finder).
Context (packageInit : Fs.path → External Subscription).
Context (tempMkdirSync : External Fs.path).
Context (emptyDirectoryRecursiveSync removeEmptyDirectoriesRecursiveSync :
           Fs.path → External unit).

Implicit Types (i : Instance K) (w : World).

Ltac run :=
  repeat (progress (unfold mbind, M_bind, mret, M_ret, getSelf, modifySelf, throw,
                    existsSync, existsSync', pathJoin, catch, call, uuid_v1; simpl)).


(** X30. [edit] rewrites the local store before it touches [src]: when the
    retrieve fails, or when the store cannot be written, it rejects with
    that failure and [src] has not been emptied. *)
Theorem edit_failures (pkg : RetrieveScope) (w : World) (tmp : Fs.path) (d1 : Fs.disk) :
  tempMkdirSync (disk w) = (d1, Return tmp) →
  (∀ d2 e,
     retrieveUnpackaged sfdcClient pkg true tmp d1 = (d2, Throw e) →
     edit metadataHelper sfdcClient finder packageInit tempMkdirSync
       emptyDirectoryRecursiveSync removeEmptyDirectoriesRecursiveSync pkg w
       = (with_disk d2 w, Rejected e)) ∧
  (∀ d2 res w3 e,
     retrieveUnpackaged sfdcClient pkg true tmp d1 = (d2, Return res) →
     _writeLocalStore metadataHelper (fileProperties res) (with_disk d2 w) = (w3, Throw e) →
     edit metadataHelper sfdcClient finder packageInit tempMkdirSync
       emptyDirectoryRecursiveSync removeEmptyDirectoriesRecursiveSync pkg w
       = (w3, Rejected e)).
Proof.
  intros Htmp. split.
  - intros d2 e Hretrieve. unfold edit, editRetrieve. run. rewrite Htmp. run.
    by rewrite Hretrieve.
  - intros d2 res w3 e Hretrieve Hstore. unfold edit, editRetrieve.
    unfold mbind, M_bind, call. rewrite Htmp. cbn beta iota. cbn [disk with_disk].
    rewrite Hretrieve. cbn beta iota.
    change (with_disk d2 (with_disk d1 w)) with (with_disk d2 w).
    by rewrite Hstore.
Qed.

End RefreshFacts.

(** ** The properties at work on the small org *)

Import Project Scenario.

(** Decides a closed proposition by computation. *)
Ltac decided := apply (bool_decide_unpack _); vm_compute; reflexivity.


(** C2 at work: the store written from a retrieve of a class, the manifest
    and a flow whose type the registry does not know, over a store that
    held another class. *)
Lemma writeLocalStore_then_getLocalStore_witness :
  ∃ w' store,
    (_writeLocalStore registry [fooClass; manifest; unknown] ≫= λ _, getLocalStore syntaxError)
      (fresh projectDisk project) = (w', Return store) ∧
    (∀ fp mt fullName,
       fp ∈ [fooClass; manifest; unknown] →
       getTypeByPath registry (FileProperty.fileName fp) = Some mt →
       FileProperty.fullName fp = Some fullName →
       Js.lacks fullName "package.xml" = true →
       ∃ v, store !! (fullName +:+ "." +:+ Js.toStr (suffix mt)) = Some v ∧
            FileProperty.mmState v = Some "clean") ∧
    (∀ k v, store !! k = Some v →
       ∃ fp, fp ∈ [fooClass; manifest; unknown] ∧ storeKey registry fp = Some k ∧
             v = FileProperty.set_mmState "clean" fp) ∧
    (NoDup (omap (storeKey registry) [fooClass; manifest; unknown]) →
       size store = length (omap (storeKey registry) [fooClass; manifest; unknown])).
Proof.
  apply (writeLocalStore_then_getLocalStore registry syntaxError (fresh projectDisk project) proj
           [fooClass; manifest; unknown]).
  - reflexivity.
  - repeat (constructor; [by eexists|]). constructor.
  - vm_compute. reflexivity.
Defined.

(** C3 at work: a compile of one class merged into a store that holds
    another. *)
Lemma updateLocalStore_frame_witness :
  ∃ w' r S',
    updateLocalStore registry syntaxError (λ fp, fp) [fooClass] (fresh projectDisk project)
      = (w', r) ∧
    getLocalStore syntaxError w' = (w', Return S') ∧
    (∀ k, (∀ fp, fp ∈ [fooClass] → updateKey registry (λ fp, fp) fp ≠ Some k) →
          S' !! k = ({["Bar.cls" := FileProperty.set_mmState "clean" barClass]} : LocalStore) !! k) ∧
    (∀ k v, S' !! k = Some v →
          ({["Bar.cls" := FileProperty.set_mmState "clean" barClass]} : LocalStore) !! k = Some v ∨
          ∃ fp, fp ∈ [fooClass] ∧
                updateAssignment registry (λ fp, fp) fp = Return (Some (k, v))) ∧
    (is_Some (projectDisk !! storeFile ≫= λ e, if e is Fs.File _ then Some e else None) →
     Forall (λ fp, ∃ kv, updateAssignment registry (λ fp, fp) fp = Return kv) [fooClass] →
     r = Return tt).
Proof.
  apply (updateLocalStore_frame registry syntaxError (λ fp, fp) (fresh projectDisk project) proj
           {["Bar.cls" := FileProperty.set_mmState "clean" barClass]} [fooClass]).
  - reflexivity.
  - vm_compute. reflexivity.
Defined.

(** C10 at work: a store file that is empty reads as the empty store. *)
Lemma getLocalStore_read_failure_witness :
  getLocalStore syntaxError (fresh emptyStoreDisk project) = (fresh emptyStoreDisk project, Return ∅).
Proof.
  destruct (getLocalStore_read_failure syntaxError (fresh emptyStoreDisk project) proj)
    as [Hraw _]; [reflexivity|].
  apply (Hraw ""). vm_compute. reflexivity.
Defined.

(** C5 at work: Proj1 in /tmp/ws, first with the workspace empty, then with
    the project in it. *)
Lemma initNew_fresh_then_taken_witness :
  (∃ w', _initNew WsOther (fresh emptyDisk project) = (w', Return (V1 0%nat)) ∧
         id (self w') = Some (V1 0%nat) ∧
         path (self w') = Some (ws ++ ["Proj1"]) ∧
         clock w' = 1%nat ∧
         ∀ w'', (clock w' ≤ clock w'')%nat → (uuid_v1 w'').2 ≠ Return (V1 0%nat)) ∧
  (∃ w2', _initNew WsOther (fresh projectDisk project)
            = (w2', Throw (mkError "Directory already exists!")) ∧
          id (self w2') = None ∧
          disk w2' = projectDisk ∧
          clock w2' = 0%nat).
Proof.
  apply (initNew_fresh_then_taken WsOther ws "Proj1" (fresh emptyDisk project)
           (fresh projectDisk project)).
  - reflexivity.
  - reflexivity.
  - reflexivity.
  - reflexivity.
  - vm_compute. reflexivity.
  - left. decided.
  - decided.
  - decided.
Defined.


(** C6 at work: with the store on disk the compile resolves with the deploy
    result, the class it returned being as the merge left it. *)
Lemma compile_returns_deploy_result_after_merge_witness :
  ∃ merged,
    (compile registry syntaxError (λ fp, fp) (λ _, None) client tempDir (λ _ _, ok tt)
       (fresh projectDisk project)).2 = Return (with_fileProperties merged deployed) ∧
    Forall2 (λ fp fp', afterUpdate registry (λ fp, fp) (λ _, None) fp = Return fp')
      [fooClass] merged.
Proof.
  pose (w1 := (deployArchive client tempDir (λ _ _, ok tt) (fresh projectDisk project)).1).
  pose (w2 := (updateLocalStore registry syntaxError (λ fp, fp) [fooClass] w1).1).
  destruct (compile_returns_deploy_result_after_merge registry syntaxError (λ fp, fp)
              (λ _, None) client tempDir (λ _ _, ok tt) (fresh projectDisk project) w1 deployed)
    as (_ & _ & Hmerged & _).
  - vm_compute. reflexivity.
  - destruct (Hmerged (mkDeployDetails (Some (mkRetrieveResult [fooClass])))
                (mkRetrieveResult [fooClass]) w2) as (merged & Hrun & Hall).
    + reflexivity.
    + reflexivity.
    + vm_compute. reflexivity.
    + exists merged. split; [by rewrite Hrun|exact Hall].
Defined.

(** C6 refuted: the deploy succeeds and returns its result, the store file
    is missing so the merge fails, and the compile rejects with the error of
    the merge. *)
Lemma compile_rejects_when_merge_fails :
  (deployArchive client tempDir (λ _ _, ok tt) (fresh noStoreDisk project)).2 = Return deployed ∧
  success deployed = true ∧
  compileWithoutStore.2 = Throw (Fs.ENOENT storeFile) ∧
  ¬ ∃ w', compileWithoutStore = (w', Return deployed).
Proof.
  assert (compileWithoutStore.2 = Throw (Fs.ENOENT storeFile)) as Hrejected
    by (vm_compute; reflexivity).
  split; [vm_compute; reflexivity|]. split; [reflexivity|]. split; [exact Hrejected|].
  intros [w' Hresolved]. rewrite Hresolved in Hrejected. discriminate Hrejected.
Qed.

(** C7 at work: the login is refused while the project is opened, after
    the descriptor, the settings and the session were read: the opening
    rejects with the error of the login and the project is marked
    invalid. *)
Lemma initExisting_marks_authentication_failures_witness :
  ∃ w', openingLockedOut = (w', Throw (mkError
          "INVALID_LOGIN: Invalid username, password, security token; or user locked out.")) ∧
        valid (self w') = Some false.
Proof.
  pose (steps := initExistingSteps syntaxError lockedOut (λ _, ok []) (ok tt) (ok tt) (ok tt)
                   (ok tt) (ok tt)).
  pose (w0 := with_self (with_name (Some (Fs.basename proj))
                           (with_workspace (Some (Fs.dirname proj)) project))
                (fresh projectDisk project)).
  destruct (proj1 (initExisting_marks_authentication_failures syntaxError lockedOut
                     (λ _, ok []) (ok tt) (ok tt) (ok tt) (ok tt) (ok tt)
                     (fresh projectDisk project))
              proj (take 3 steps) (call (initialize lockedOut)) (drop 4 steps) w0 w0
              (mkError
                 "INVALID_LOGIN: Invalid username, password, security token; or user locked out."))
    as (w' & Hrun & _ & Hvalid).
  - reflexivity.
  - decided.
  - decided.
  - reflexivity.
  - vm_compute. reflexivity.
  - vm_compute. reflexivity.
  - exists w'. split; [exact Hrun|]. rewrite Hvalid. reflexivity.
Defined.

(** C8 at work: a directory outside the workspace is imported, the retrieve
    fails, and the copy made in the workspace is removed. *)
Lemma initFromDirectory_removes_only_its_copy_witness :
  importOffline.2 = Throw (mkError "ECONNRESET") ∧
  Fs.RemoveSync (ws ++ ["Proj1"]) ∈ calls importOffline.1 ∧
  legacy ≠ ws ++ ["Proj1"] ∧
  Fs.CopySync legacy (ws ++ ["Proj1"]) ∈ calls importOffline.1.
Proof.
  assert (Fs.RemoveSync (ws ++ ["Proj1"]) ∈ calls importOffline.1) as Hremoved by decided.
  split; [vm_compute; reflexivity|]. split; [exact Hremoved|].
  refine (proj1 (initFromDirectory_removes_only_its_copy registry offline (λ _, ok []) (ok tt)
                   ws "Proj1"
                   (fresh legacyDisk
                      (Project.mk None (Some ws) (Some "Proj1") legacy None None None None))
                   importOffline.1 (mkError "ECONNRESET") _ _ _ _) Hremoved).
  - reflexivity.
  - reflexivity.
  - reflexivity.
  - vm_compute. reflexivity.
Defined.

(** C9 at work: a wildcard for CustomObject over the object index. *)
Lemma wildcard_selects_type_node_witness :
  ∃ selected,
    getOrgMetadataIndexWithSelections registry shows (Some (Return objectIndex))
      [("CustomObject", Wildcard)] (Return []) None None None = Resolved selected ∧
    grows objectIndex selected ∧
    childrenSelected "CustomObject" selected ∧
    ∀ n, n ∈ selected → node_id n = Some "CustomObject" → node_select n = Some true.
Proof.
  apply (wildcard_selects_type_node registry shows objectIndex [("CustomObject", Wildcard)]
           (Return []) None "CustomObject").
  - apply list_elem_of_here.
  - constructor; [by eexists|constructor].
Defined.

(** C9 refuted: in the index the call resolves with, the node of the
    Account object has the xmlName CustomObject and is not selected, and
    neither is its child. *)
Lemma wildcard_leaves_nested_nodes_unselected :
  ∃ selected,
    getOrgMetadataIndexWithSelections registry shows (Some (Return objectIndex))
      [("CustomObject", Wildcard)] (Return []) None None None = Resolved selected ∧
    ¬ everyNodeSelected "CustomObject" selected.
Proof.
  eexists. split; [vm_compute; reflexivity|].
  intros Hall.
  destruct (Hall (mkNode (Some "CustomObject.Account") (Some "CustomObject") (Some true) None
                    (Some [ mkNode (Some "CustomObject.Account.fields") None (Some false) None
                              None ]))) as [_ Hchildren].
  - vm_compute. apply list_elem_of_further, list_elem_of_here.
  - reflexivity.
  - specialize (Hchildren (mkNode (Some "CustomObject.Account.fields") None (Some false) None None)).
    discriminate Hchildren. apply list_elem_of_here.
Qed.

(** ** The further properties at work *)

Import Examples.

#[local] Existing Instance P_ret.
#[local] Existing Instance P_bind.

(** X1 at work: a retrieve with a property that has no full name. *)
Lemma writeLocalStore_rejects_without_fullName_witness :
  _writeLocalStore registry ([fooClass] ++ nameless :: [barClass]) (fresh projectDisk project)
    = (fresh projectDisk project, Throw (TypeError "indexOf")).
Proof.
  apply (writeLocalStore_rejects_without_fullName registry (fresh projectDisk project)
           [fooClass] [barClass] nameless).
  - constructor; [by eexists|constructor].
  - reflexivity.
Defined.

(** X2 at work: two versions of the class Foo in one retrieve. *)
Lemma writeLocalStore_last_wins_witness :
  ∃ w' store,
    _writeLocalStore registry ([fooClass] ++ fooClass2 :: [barClass]) (fresh projectDisk project)
      = (w', Return tt) ∧
    disk w' !! (proj ++ ["config"; ".local_store"]) = Some (Fs.File (Fs.Json store)) ∧
    store !! "Foo.cls" = Some (FileProperty.set_mmState "clean" fooClass2).
Proof.
  apply (writeLocalStore_last_wins registry (fresh projectDisk project) proj
           [fooClass] [barClass] fooClass2 "Foo.cls").
  - reflexivity.
  - repeat (constructor; [by eexists|]). constructor.
  - reflexivity.
  - reflexivity.
  - constructor; [vm_compute; discriminate|constructor].
Defined.

(** X3 at work: a merge into a project that has no store file. *)
Lemma updateLocalStore_needs_store_witness :
  updateLocalStore registry syntaxError (λ fp, fp) [fooClass] (fresh noStoreDisk project)
    = (fresh noStoreDisk project, Throw (Fs.ENOENT (proj ++ ["config"; ".local_store"]))).
Proof.
  apply (updateLocalStore_needs_store registry syntaxError (λ fp, fp)
           (fresh noStoreDisk project) proj [fooClass]).
  - reflexivity.
  - reflexivity.
  - reflexivity.
Defined.

(** X4 at work: a merge into a store file that is empty. *)
Lemma updateLocalStore_heals_truncated_store_witness :
  ∃ w' store,
    updateLocalStore registry syntaxError (λ fp, fp) [fooClass] truncated = (w', Return tt) ∧
    disk w' !! (proj ++ ["config"; ".local_store"]) = Some (Fs.File (Fs.Json store)) ∧
    ∀ k v, store !! k = Some v →
      ∃ fp, fp ∈ [fooClass] ∧ updateAssignment registry (λ fp, fp) fp = Return (Some (k, v)).
Proof.
  apply (updateLocalStore_heals_truncated_store registry syntaxError (λ fp, fp) truncated proj
           "" [fooClass]).
  - reflexivity.
  - reflexivity.
  - reflexivity.
  - constructor; [eexists; reflexivity|constructor].
Defined.

(** X5 at work: a compile that returns the class Foo and a record of a type
    the registry does not know. *)
Lemma updateLocalStore_all_or_nothing_witness :
  updateLocalStore registry syntaxError (λ fp, fp) ([fooClass] ++ queried :: [])
    (fresh projectDisk project)
    = (fresh projectDisk project, Throw (TypeError "directoryName")).
Proof.
  apply (updateLocalStore_all_or_nothing registry syntaxError (λ fp, fp)
           (fresh projectDisk project)
           {["Bar.cls" := FileProperty.set_mmState "clean" barClass]}
           [fooClass] [] queried (TypeError "directoryName")).
  - reflexivity.
  - constructor; [eexists; reflexivity|constructor].
  - reflexivity.
Defined.

(** X6 at work: the class Foo merged twice. *)
Lemma updateLocalStore_idempotent_witness :
  ∃ w2,
    updateLocalStore registry syntaxError (λ fp, fp) [fooClass] merged = (w2, Return tt) ∧
    disk w2 = disk merged ∧ self w2 = self merged.
Proof.
  apply (updateLocalStore_idempotent registry syntaxError (λ fp, fp)
           (fresh projectDisk project) merged proj [fooClass]).
  - reflexivity.
  - reflexivity.
Defined.

(** X7 at work: a compile of a project that has no src directory. *)
Lemma compile_without_src_witness :
  compile registry syntaxError (λ fp, fp) (λ _, None) client tempDir (λ _ _, ok tt)
    (fresh emptyDisk project)
    = (logged (Fs.CopySync (proj ++ ["src"]) (["tmp"; "mm_2"] ++ ["unpackaged"]))
         (with_disk (<[["tmp"; "mm_2"] := Fs.Dir]> emptyDisk) (fresh emptyDisk project)),
       Throw (Fs.ENOENT (proj ++ ["src"]))).
Proof.
  apply (compile_without_src registry syntaxError (λ fp, fp) (λ _, None) client tempDir
           (λ _ _, ok tt) (fresh emptyDisk project) proj ["tmp"; "mm_2"]).
  - reflexivity.
  - reflexivity.
  - reflexivity.
Defined.


(** X9 at work: a new project whose workspace comes from the
    configuration. *)
Lemma initNew_workspace_setting_witness :
  ∃ w', _initNew (WsString ws) unsettled = (w', Return (V1 (clock unsettled))) ∧
        workspace (self w') = Some ws ∧
        path (self w') = Some (ws ++ ["Proj1"]) ∧
        id (self w') = Some (V1 (clock unsettled)) ∧
        is_Some (disk w' !! ws).
Proof.
  apply (proj1 (initNew_workspace_setting (WsString ws) unsettled eq_refl) ws "Proj1").
  - reflexivity.
  - left. reflexivity.
  - left. decided.
  - reflexivity.
Defined.

(** X10 at work: the opening of a project whose path was not given,
    although its workspace and name tell where it is, and of a directory
    that has no settings. *)
Lemma initExisting_requires_settings_witness :
  _initExisting syntaxError client (λ _, ok []) (ok tt) (ok tt) (ok tt) (ok tt) (ok tt) pathless
    = (pathless, Throw joinError) ∧
  _initExisting syntaxError client (λ _, ok []) (ok tt) (ok tt) (ok tt) (ok tt) (ok tt)
    (fresh emptyDisk project)
    = (fresh emptyDisk project, Throw invalidDirectory).
Proof.
  split.
  - apply (proj1 (initExisting_requires_settings syntaxError client (λ _, ok [])
                    (ok tt) (ok tt) (ok tt) (ok tt) (ok tt) pathless)).
    reflexivity.
  - apply (proj2 (initExisting_requires_settings syntaxError client (λ _, ok [])
                    (ok tt) (ok tt) (ok tt) (ok tt) (ok tt) (fresh emptyDisk project)) proj).
    + reflexivity.
    + reflexivity.
Defined.

(** X11 at work: the project opened by its path. *)
Lemma initExisting_resolved_witness :
  valid (self opened.1) = Some true ∧
  (∃ p, path (self opened.1) = Some p ∧
        workspace (self opened.1) = Some (Fs.dirname p) ∧
        name (self opened.1) = Some (Fs.basename p) ∧
        path (self byPath) = Some p) ∧
  origin (self opened.1) = origin (self byPath) ∧
  id (self opened.1) = id (self byPath) ∧
  package (self opened.1) = package (self byPath).
Proof.
  apply (initExisting_resolved syntaxError client (λ _, ok []) (ok tt) (ok tt) (ok tt)
           (ok tt) (ok tt) byPath opened.1).
  assert (opened.2 = Return tt) as Hresolved by (vm_compute; reflexivity).
  rewrite <- Hresolved. apply surjective_pairing.
Defined.

(** X12 at work: the import of a directory under a name that is taken. *)
Lemma initFromDirectory_checks_first_witness :
  _initNewProjectFromExistingDirectory registry client (λ _, ok []) (ok tt) crowded
    = (crowded, Throw (mkError "Project with this name already exists in the selected workspace")).
Proof.
  apply (proj2 (proj2 (proj2 (initFromDirectory_checks_first registry client (λ _, ok [])
                                (ok tt) crowded))) ws "Proj1").
  - reflexivity.
  - reflexivity.
  - decided.
  - decided.
  - discriminate.
  - decided.
Defined.

(** X13 at work: the calls of the import that failed. *)
Lemma initFromDirectory_stays_in_destination_witness :
  within (ws ++ ["Proj1"]) [] (calls importOffline.1).
Proof.
  apply (initFromDirectory_stays_in_destination registry offline (λ _, ok []) (ok tt)
           ws "Proj1"
           (fresh legacyDisk (Project.mk None (Some ws) (Some "Proj1") legacy None None None None))
           importOffline.1 importOffline.2).
  - reflexivity.
  - reflexivity.
  - apply surjective_pairing.
Defined.

(** X14 at work: the calls of the creation that failed. *)
Lemma retrieveAndWriteToDisk_stays_in_project_witness :
  within (ws ++ ["Proj1"]) [] (calls creationOffline.1).
Proof.
  apply (retrieveAndWriteToDisk_stays_in_project registry offline (ok tt) ws "Proj1"
           (fresh emptyDisk project) creationOffline.1 creationOffline.2).
  - reflexivity.
  - reflexivity.
  - reflexivity.
  - apply surjective_pairing.
Defined.

(** X15 at work: the snapshot of the project refreshed. *)
Lemma refreshDescribe_snapshot_witness :
  match described.2 with
  | Return _ =>
      ∃ d1 snapshot,
        describe client (disk (fresh projectDisk project)) = (d1, Return snapshot) ∧
        getDescribe (self described.1) = Some snapshot ∧
        if Fs.existsSync d1 (proj ++ ["config"])
        then disk described.1 !! (proj ++ ["config"; ".describe"])
               = Some (Fs.File (Fs.Raw (describe_json snapshot)))
        else disk described.1 = d1 ∧ calls described.1 = calls (fresh projectDisk project)
  | Throw _ => getDescribe (self described.1) = getDescribe (self (fresh projectDisk project))
  end.
Proof.
  apply (refreshDescribe_snapshot client (fresh projectDisk project) described.1 described.2
           proj).
  - reflexivity.
  - apply surjective_pairing.
Defined.

(** X16 at work: a descriptor with a flow, which the registry does not
    know. *)
Lemma unrecognized_type_rejects_witness :
  getOrgMetadataIndexWithSelections registry shows (Some (Return objectIndex))
    ([("ApexClass", Wildcard)] ++ ("Flow", Members ["Baz"]) :: [("CustomObject", Wildcard)])
    (Return []) None None None
    = Rejected (mkError ("Unrecognized package.xml metadata type: " +:+ "Flow")).
Proof.
  apply (unrecognized_type_rejects registry shows objectIndex [("ApexClass", Wildcard)]
           [("CustomObject", Wildcard)] "Flow" (Members ["Baz"]) (Return []) None).
  - constructor; [by eexists|constructor].
  - reflexivity.
Defined.

(** X17 at work: the manifest of the project after a refresh that keeps
    it. *)
Lemma replaceLocalFiles_spares_manifests_witness :
  disk refreshed.1 !! (proj ++ ["src"; "package.xml"])
    = Some (Fs.File (Fs.Raw "<Package>old</Package>")).
Proof.
  apply (replaceLocalFiles_spares_manifests finder staging ws "Proj1" (fresh projectDisk project)
           refreshed.1 refreshed.2 (proj ++ ["src"; "package.xml"])).
  - reflexivity.
  - reflexivity.
  - apply surjective_pairing.
  - reflexivity.
  - reflexivity.
  - decided.
  - assert (Forall (λ file, Fs.basename file ≠ "package.xml" →
                      ¬ destination staging (ws ++ ["Proj1"; "src"]) file
                          `prefix_of` proj ++ ["src"; "package.xml"])
              (Fs.filesUnder staging projectDisk)) as Hfiles by decided.
    intros file (f & [= ->] & Hf)%list_elem_of_fmap.
    exact (proj1 (Forall_forall _ _) Hfiles f Hf).
Defined.

(** X18 at work: the user name of the project changed. *)
Lemma updateSetting_sets_one_property_witness :
  ∃ i' doc,
    updateSetting flat storeText "username" (Some (JStr "grace")) office = (i', Return tt) ∧
    (readJson storeText flat (proj ++ ["config"; ".settings"]) (world i')).2 = Return doc ∧
    prop doc "username" = Some (JStr "grace") ∧
    (∀ k, k ≠ "username" → prop doc k = prop settings0 k) ∧
    (Some (JStr "grace") = None → doc !! "username" = None) ∧
    settings i' = Some (<["username" := Some (JStr "grace")]> settings0) ∧
    (∀ q, q ≠ proj ++ ["config"; ".settings"] →
          disk (world i') !! q = disk (world office) !! q).
Proof.
  apply (proj1 (updateSetting_sets_one_property flat storeText office proj "username"
                  (Some (JStr "grace")) eq_refl) (stringify flat settings0) settings0).
  - reflexivity.
  - reflexivity.
  - reflexivity.
Defined.

(** X19 at work: the expiration of the debug settings changed. *)
Lemma updateDebug_sets_one_property_witness :
  ∃ i' doc,
    updateDebug flat storeText "expiration" (Some (JStr "60")) office = (i', Return tt) ∧
    (readJson storeText flat (proj ++ ["config"; ".debug"]) (world i')).2 = Return doc ∧
    prop doc "expiration" = Some (JStr "60") ∧
    (∀ k, k ≠ "expiration" → prop doc k = prop debug0 k) ∧
    (∀ q, q ≠ proj ++ ["config"; ".debug"] → disk (world i') !! q = disk (world office) !! q).
Proof.
  apply (proj1 (updateDebug_sets_one_property flat storeText office proj "expiration"
                  (Some (JStr "60")) eq_refl) (stringify flat debug0) debug0).
  - reflexivity.
  - reflexivity.
  - reflexivity.
Defined.

(** X20 at work: a new password handed to the keychain. *)
Lemma storePassword_clears_settings_witness :
  ∃ i' doc,
    _storePassword flat storeText keyring (Some (JStr "n3w")) true office = (i', Return tt) ∧
    keychain i' = Some (Some (JStr "n3w")) ∧
    (readJson storeText flat (proj ++ ["config"; ".settings"]) (world i')).2 = Return doc ∧
    doc !! "password" = None ∧
    (∀ k, k ≠ "password" → prop doc k = prop settings0 k).
Proof.
  apply (storePassword_clears_settings flat storeText keyring office proj
           (stringify flat settings0) settings0 (Some (JStr "n3w")) true
           (AccountSetting (Some (JStr "p1"))) (Some (Some (JStr "n3w")))).
  - reflexivity.
  - reflexivity.
  - reflexivity.
  - reflexivity.
  - reflexivity.
  - reflexivity.
  - reflexivity.
Defined.

(** X21 at work: the new password read back through the keychain. *)
Lemma password_round_trip_keychain_witness :
  ∃ i' st doc,
    (_storePassword flat storeText keyring (Some (JStr "n3w")) true ≫= λ _,
     _getSettings flat storeText keyring) office = (i', Return st) ∧
    prop st "password" = orElse (Some (JStr "n3w")) (password office) ∧
    settings i' = Some st ∧
    (readJson storeText flat (proj ++ ["config"; ".settings"]) (world i')).2 = Return doc ∧
    doc !! "password" = None.
Proof.
  apply (password_round_trip_keychain flat storeText keyring office proj
           (stringify flat settings0) settings0 settings0 (Some (JStr "n3w")) true
           (Some (Some (JStr "n3w")))).
  - reflexivity.
  - reflexivity.
  - reflexivity.
  - reflexivity.
  - reflexivity.
  - reflexivity.
  - reflexivity.
  - reflexivity.
  - reflexivity.
  - reflexivity.
Defined.

(** X22 at work: the new password read back from the settings. *)
Lemma password_round_trip_settings_witness :
  ∃ i' st,
    (_storePassword flat storeText plain (Some (JStr "n3w")) false ≫= λ _,
     _getSettings flat storeText plain) office = (i', Return st) ∧
    prop st "password" = orElse (Some (JStr "n3w")) (password office) ∧
    settings i' = Some st ∧
    keychain i' = keychain office.
Proof.
  apply (password_round_trip_settings flat storeText plain office proj
           (stringify flat settings0) settings0 (Some (JStr "n3w")) false).
  - reflexivity.
  - reflexivity.
  - reflexivity.
  - reflexivity.
  - reflexivity.
  - reflexivity.
Defined.

(** X23 at work: a session file cut short. *)
Lemma getCachedSession_lenient_witness :
  _getCachedSession flat storeText office = (office, Return ∅).
Proof.
  apply (proj1 (proj2 (getCachedSession_lenient flat storeText office proj eq_refl))
           "" cutShort).
  - reflexivity.
  - reflexivity.
Defined.

(** X24 at work: an org without Lightning. *)
Lemma indexLightning_without_lightning_witness :
  ∃ i',
    indexLightning listing noLightning office =
      (i', if lightningUnavailable
                (mkError "sObject type 'AuraDefinition' is not supported.")
           then Return tt
           else Throw (mkError "sObject type 'AuraDefinition' is not supported.")) ∧
    world i' = with_disk officeDisk (world office) ∧
    lightningIndex i' = lightningIndex office.
Proof.
  apply (indexLightning_without_lightning listing noLightning office officeDisk
           (mkError "sObject type 'AuraDefinition' is not supported.")).
  reflexivity.
Defined.

(** X25 at work: an index of two bundles written and read. *)
Lemma lightningIndex_round_trip_witness :
  ∃ i',
    (setLightningIndex listing bundles ≫= λ _, getLightningIndexSync listing storeText) office
      = (i', Return bundles) ∧
    lightningIndex i' = Some bundles ∧
    is_Some (disk (world i') !! (proj ++ ["config"; ".lightning"])).
Proof.
  apply (lightningIndex_round_trip listing storeText office proj bundles).
  - reflexivity.
  - reflexivity.
  - reflexivity.
Defined.

(** X26 at work: the index asked for before it was built. *)
Lemma getLightningIndex_builds_missing_index_witness :
  ∃ i',
    getLightningIndex listing storeText (ok bundles) office = (i', Return bundles) ∧
    lightningIndex i' = Some bundles ∧
    disk (world i') !! (proj ++ ["config"; ".lightning"])
      = Some (Fs.File (Fs.Raw (stringify listing bundles))).
Proof.
  apply (proj2 (getLightningIndex_builds_missing_index listing storeText (ok bundles) office
                  proj eq_refl)
           (Fs.ENOENT (proj ++ ["config"; ".lightning"])) officeDisk bundles).
  - reflexivity.
  - reflexivity.
  - reflexivity.
  - reflexivity.
Defined.

(** X27 at work: a project whose metadata was never indexed. *)
Lemma getOrgMetadataIndex_never_rejects_witness :
  getOrgMetadataIndex outline storeText (world office) = (world office, Return []).
Proof.
  apply (getOrgMetadataIndex_never_rejects outline storeText (world office) proj).
  reflexivity.
Defined.

(** X28 at work: the metadata indexed and read. *)
Lemma indexMetadata_round_trip_witness :
  ∃ i',
    indexMetadata outline (λ _, ok classIndex) office = (i', Return tt) ∧
    (getOrgMetadataIndex outline storeText (world i')).2 = Return classIndex.
Proof.
  apply (indexMetadata_round_trip outline storeText (λ _, ok classIndex) office proj settings0
           officeDisk classIndex).
  - reflexivity.
  - reflexivity.
  - reflexivity.
  - reflexivity.
  - reflexivity.
Defined.


(** X30 at work: an edit whose retrieve fails. *)
Lemma edit_failures_witness :
  edit registry offline finder (λ _, ok []) tempDir (λ _, ok tt) (λ _, ok tt)
    (Types ["ApexClass"]) (world office)
    = (with_disk (<[["tmp"; "mm_2"] := Fs.Dir]> officeDisk) (world office),
       Rejected (mkError "ECONNRESET")).
Proof.
  apply (proj1 (edit_failures registry offline finder (λ _, ok []) tempDir (λ _, ok tt)
                  (λ _, ok tt) (Types ["ApexClass"]) (world office) ["tmp"; "mm_2"]
                  (<[["tmp"; "mm_2"] := Fs.Dir]> officeDisk) eq_refl)).
  reflexivity.
Defined.
